(* ===== verification/_CoqProject ===== *)
-Q . S2P
Prelude.v
CpuScan.v
WarpScan.v
ZeroPad.v
BlockScan.v
BlockShuffle.v
Grid.v
Kernels.v
Launch.v
Harness.v
NBody.v
NBodyMain.v
