(* ===== verification/Prelude.v ===== *)
(** * A verification development of the scan microbenchmark and the N-body host code

    The sources are src/scan/warp/testScanBlock.cu (the test program of
    the warp and block scans of the CUDA Handbook) and src/unnamed/
    part_000, which holds TimeSequentialKernelKernel.cuh (lines 1-142)
    and nbody.cu (lines 143-758).  Each file of this development models
    one part, as a [Module] named after the file; the properties are
    the theorems whose doc comments carry a claim id (C1, C2, ...).

    ** The scan test (testScanBlock.cu)

    The program fills an input, runs a CPU oracle, launches a GPU scan
    kernel through a host wrapper, copies the output back and compares.

    - [Prelude] (this file): [int] arithmetic as [Z] with its wrap-around
      written out ([wrap32], [add32]); range sums [rsum]; the counted
      loop [for_loop] with its fuel; a flat [int] memory [Mem] with
      buffers [buf], checked loads [ld] and stores [store]; the commuting
      actions of warps; the hint databases [scan] and [scan_wrap] and
      the tactics shared by the files.
    - [CpuScan]: [ScanExclusiveCPUPeriodic], [ScanInclusiveCPUPeriodic],
      [ScanCPU32], [ScanCPUBlock], [RandomArray] (lines 60-131), each a
      [for_loop] over the flat memory.
    - [WarpScan], [ZeroPad], [BlockScan], [BlockShuffle]: the warp and
      block scans of scanWarp.cuh, scanZeroPad.cuh, scanBlock.cuh and
      scanBlockShuffle.cuh.  These headers are not under src/, so their
      definitions follow the specification (sections 4.1-4.2): lock-step
      warps as synchronous updates, barrier intervals as per-warp actions
      run in any order.
    - [Grid]: the grid-stride loop that every kernel shares, for any
      kernel body (the class [SegmentKernel] with its [kernel_contract]);
      the step relation [gstep] interleaves the iterations of all blocks;
      [run_blocks]/[grid_seq] is the sequential schedule.
    - [Kernels]: the bodies of the kernels' loops (lines 133-387) as
      instances of [SegmentKernel], each proved to meet the contract,
      and the host wrappers ([ScanGPUBlock_host], ...: lines 152-402)
      as the launch they make ([KernelLaunch]).
    - [Launch]: each [__global__] function as one block runs it, and
      [run_launch], the launch a wrapper returns, run block by block.
    - [Harness]: [TestScanBlock] (lines 404-475) with its CUDA calls,
      the comparison loop, and [main] (lines 477-546) with its test
      vectors and exit status.

    ** The N-body host code (nbody.cu)

    - [NBody]: the host arrays as a store indexed by [HostArray] (so
      that distinct arrays never alias), [relError],
      [integrateGravitation_AOS] with its [int] indices, and
      [ComputeGravitation] (lines 348-541): the AOS -> SOA copy, the
      cross check, the upload, the [switch] on the algorithm
      ([dispatch]), the SOA -> AOS copy, the maximum relative error and
      the integration.  Single precision is the class [Float32]; the
      force routines, whose files are not under src/, are the class
      [NBodyRoutines], and [routines_contract] is what they promise.
    - [NBodyMain]: [main] (lines 569-758): the start-up [main_setup]
      from the device and the options, the key handler [key_step] and
      the loop [main_loop], one time step per iteration.

    ** The theorems

    - Functional correctness: the oracles compute the periodic prefix
      sums with 32-bit wrap-around; every kernel body meets its contract,
      so a finished grid holds the periodic scan that the oracle of the
      same period computes, and [TestScanBlock] of [ScanGPUBlock] passes;
      one time step of [ComputeGravitation] leaves the forces of the
      positions, whatever routine and layout computed them, and
      integrates the bodies as the specification [integrate_spec] says.
    - Invariants and safety: the grid invariant [ginv] in every reachable
      state (nothing outside the output is written, no state faults);
      [nb_wf] (the arrays' sizes) across the time steps of [main]'s
      loop, which never fails with a device present.
    - Termination and liveness: every interleaving of the grid ends,
      after exactly [gmeasure] steps; [main]'s loop over block sizes
      ends when [maxThreads < 2^30] and never ends beyond; the N-body
      loop stops at the first [q].
    - Refinement: the sequential schedule is one of the interleavings,
      and the wrappers' launches of the race-free kernels (the warp
      kernels and [ScanGPUBlock<Inclusive>]), computed block by block,
      give the scan.
    - Equivalence and round trips: [integrateGravitation_AOS] equals
      [integrate_spec]; the SOA -> AOS copy puts back the AOS forces.
    - Races and errors: [ScanGPUBlock<Exclusive>] and
      [ScanGPUBlockShuffle] read shared memory that the next iteration
      of the loop overwrites, with no barrier between (the theorems show
      an order of the warps that gives a wrong result), so the shuffle
      kernel is proved correct only on one segment, where its loop runs
      once; a failed comparison aborts the test ([assert(0)]); the
      overflow of [int] indices for more than 2^29 bodies and of
      [g_N = kParticles*1024]; the compiled-out [GPU_Atomic] case; the
      [--nocpu] test made before the option is read.

    ** Bounds and fuel

    [for_loop] takes a fuel argument; every theorem that a loop returns
    gives the fuel it needs (one more than the number of iterations,
    e.g. [S N] for [for (i = 0; i < N; i++)]), and [for_loop_fuel] shows
    that more fuel does not change the result, so the result is the
    loop's.  The grid's step relation needs no fuel: its termination is
    a theorem ([gmeasure] decreases).  [int]s are [Z]s kept in
    [INT_MIN, INT_MAX] by [wrap32]; [size_t] values are [nat]s.

    ** Not modelled

    - The host-device copies and allocations beyond their success or
      failure ([cudaMalloc], [cudaMemcpy], [cudaEvent*] timing), printing
      and timing: they do not change the data the theorems are about.
    - The warp-synchronous execution below the level of a lock-step
      warp: a warp's step is one synchronous update.
    - The interleaving of iterations of one block: [Grid]'s step is a
      whole iteration of a block.  This is exact for the kernels whose
      iterations are separated by barriers (the warp kernels, the
      inclusive block kernel); for the two racy kernels the overlap is
      modelled apart, on two iterations ([Kernels]).
    - scanWarp2 and the kernels that use it (testScanBlock.cu lines
      315-371): the header is neither under src/ nor described by the
      specification.
    - The force routines of nbody (nbody_CPU_*.h, the GPU and multi-GPU
      files), [randomUnitBodies] ([rand]) and the thread pools: not
      under src/ or pure set-up; the routines enter through their
      contract.
    - TimeSequentialKernelKernel.cuh (lines 1-142): a timing harness
      for [AddKernel], which is not under src/. *)

From Stdlib Require Import ZArith Lia.
From stdpp Require Import base list options.

Declare Scope scan_scope.
Delimit Scope scan_scope with scan.

Create HintDb scan discriminated.
Create Rewrite HintDb scan_wrap.

(* ================================================================= *)
(** ** 32-bit signed integers ([int] of the CUDA sources)              *)
(* ================================================================= *)

(** An [int] is a [Z] in [INT_MIN, INT_MAX]; the GPU and the usual
    host compilers add [int]s with two's-complement wrap-around, which
    [wrap32] writes out. *)
Definition INT_MIN : Z := (- 2 ^ 31)%Z.
Definition INT_MAX : Z := (2 ^ 31 - 1)%Z.

Definition in_int32 (z : Z) : Prop := (INT_MIN <= z <= INT_MAX)%Z.

#[export] Instance in_int32_dec z : Decision (in_int32 z).
Proof. unfold in_int32. apply _. Defined.

Definition wrap32 (z : Z) : Z := ((z + 2 ^ 31) mod 2 ^ 32 - 2 ^ 31)%Z.

(** [a += b] and [a - b] on [int]. *)
Definition add32 (a b : Z) : Z := wrap32 (a + b).
Definition sub32 (a b : Z) : Z := wrap32 (a - b).

Notation "a +ᵢ b" := (add32 a b) (at level 50, left associativity) : scan_scope.
Notation "a -ᵢ b" := (sub32 a b) (at level 50, left associativity) : scan_scope.

Ltac unfold_int32 := unfold in_int32, INT_MIN, INT_MAX in *.

Lemma wrap32_in_int32 z : in_int32 (wrap32 z).
Proof.
  unfold_int32. unfold wrap32.
  pose proof (Z.mod_pos_bound (z + 2 ^ 31) (2 ^ 32)). lia.
Qed.

Lemma wrap32_id z : in_int32 z -> wrap32 z = z.
Proof.
  unfold_int32. unfold wrap32. intros H.
  rewrite Z.mod_small by lia. lia.
Qed.

Lemma wrap32_add_l a b : wrap32 (wrap32 a + b) = wrap32 (a + b).
Proof.
  unfold wrap32.
  replace ((a + 2 ^ 31) mod 2 ^ 32 - 2 ^ 31 + b + 2 ^ 31)%Z
    with ((a + 2 ^ 31) mod 2 ^ 32 + b)%Z by lia.
  rewrite Z.add_mod_idemp_l by lia. f_equal. f_equal. lia.
Qed.

Lemma wrap32_add_r a b : wrap32 (a + wrap32 b) = wrap32 (a + b).
Proof.
  rewrite (Z.add_comm a (wrap32 b)), wrap32_add_l. f_equal. lia.
Qed.

Lemma wrap32_sub_l a b : wrap32 (wrap32 a - b) = wrap32 (a - b).
Proof. unfold Z.sub. apply wrap32_add_l. Qed.

Lemma wrap32_sub_r a b : wrap32 (a - wrap32 b) = wrap32 (a - b).
Proof.
  unfold wrap32.
  replace (a - ((b + 2 ^ 31) mod 2 ^ 32 - 2 ^ 31) + 2 ^ 31)%Z
    with (a + 2 ^ 31 + 2 ^ 31 - (b + 2 ^ 31) mod 2 ^ 32)%Z by lia.
  rewrite Zminus_mod_idemp_r. f_equal. f_equal. lia.
Qed.

Lemma add32_wrap a b : add32 (wrap32 a) (wrap32 b) = wrap32 (a + b).
Proof. unfold add32. rewrite wrap32_add_l, wrap32_add_r. reflexivity. Qed.

Lemma sub32_wrap a b : sub32 (wrap32 a) (wrap32 b) = wrap32 (a - b).
Proof. unfold sub32. rewrite wrap32_sub_l, wrap32_sub_r. reflexivity. Qed.

Lemma wrap32_0 : wrap32 0 = 0%Z.
Proof. reflexivity. Qed.

Lemma add32_in_int32 a b : in_int32 (add32 a b).
Proof. apply wrap32_in_int32. Qed.

#[export] Hint Resolve wrap32_in_int32 add32_in_int32 : scan.
#[export] Hint Rewrite wrap32_add_l wrap32_add_r wrap32_sub_l wrap32_sub_r
  add32_wrap sub32_wrap : scan_wrap.

(* ================================================================= *)
(** ** Sums over index ranges of an array                             *)
(* ================================================================= *)

(** [rsum xs lo n] is [xs[lo] + ... + xs[lo+n-1]] computed exactly in
    [Z]: the mathematical value the scans compute modulo 2^32. *)
Fixpoint rsum (xs : list Z) (lo n : nat) : Z :=
  match n with
  | O => 0%Z
  | S n' => (rsum xs lo n' + xs !!! (lo + n')%nat)%Z
  end.

Lemma rsum_split xs lo a b :
  rsum xs lo (a + b) = (rsum xs lo a + rsum xs (lo + a) b)%Z.
Proof.
  induction b as [|b IH]; simpl.
  - rewrite Nat.add_0_r. lia.
  - rewrite Nat.add_succ_r. simpl. rewrite IH, Nat.add_assoc. lia.
Qed.

Lemma rsum_S_front xs lo n :
  rsum xs lo (S n) = (xs !!! lo + rsum xs (S lo) n)%Z.
Proof.
  replace (S n) with (1 + n) by lia. rewrite rsum_split. simpl.
  rewrite Nat.add_0_r, Nat.add_1_r. lia.
Qed.

Lemma rsum_ext xs ys lo n :
  (forall i, lo <= i < lo + n -> xs !!! i = ys !!! i) ->
  rsum xs lo n = rsum ys lo n.
Proof.
  induction n as [|n IH]; intros H; simpl; [done|].
  rewrite IH by (intros; apply H; lia). rewrite H by lia. done.
Qed.

Lemma rsum_app_l xs ys lo n :
  lo + n <= length xs -> rsum (xs ++ ys) lo n = rsum xs lo n.
Proof. intros H. apply rsum_ext. intros i Hi. apply lookup_total_app_l. lia. Qed.

Lemma rsum_app_r xs ys a n : rsum (xs ++ ys) (length xs + a) n = rsum ys a n.
Proof.
  induction n as [|n IH]; simpl; [done|].
  rewrite IH, lookup_total_app_r by lia. do 3 f_equal. lia.
Qed.

(** Splitting a window [lo, lo+n) at an interior point [mid]. *)
Lemma rsum_split_at xs lo mid hi :
  lo <= mid <= hi ->
  rsum xs lo (hi - lo) = (rsum xs lo (mid - lo) + rsum xs mid (hi - mid))%Z.
Proof.
  intros H. replace (hi - lo) with ((mid - lo) + (hi - mid)) by lia.
  rewrite rsum_split. do 2 f_equal. lia.
Qed.

(** Lists compared through their total lookups. *)
Lemma list_eq_total {A} `{Inhabited A} (l1 l2 : list A) :
  length l1 = length l2 ->
  (forall i, i < length l1 -> l1 !!! i = l2 !!! i) -> l1 = l2.
Proof.
  intros Hl Hall. apply list_eq. intros i. destruct (decide (i < length l1)).
  - rewrite !list_lookup_lookup_total_lt by lia. f_equal. auto.
  - rewrite !lookup_ge_None_2 by lia. done.
Qed.

Lemma imap_lookup_total {A B} `{Inhabited A, Inhabited B} (f : nat -> A -> B) l i :
  i < length l -> imap f l !!! i = f i (l !!! i).
Proof. apply list_lookup_total_imap. Qed.

Lemma zip_with_lookup_total {A B C} `{Inhabited A, Inhabited B, Inhabited C}
    (f : A -> B -> C) l k i :
  i < length l -> i < length k -> zip_with f l k !!! i = f (l !!! i) (k !!! i).
Proof. apply lookup_total_zip_with. Qed.

(** Lists of [int]s. *)
Lemma int32_lookup_total l i : Forall in_int32 l -> in_int32 (l !!! i).
Proof.
  intros Hl. destruct (decide (i < length l)).
  - by apply Forall_lookup_total_1.
  - rewrite list_lookup_total_alt, lookup_ge_None_2 by lia. simpl.
    unfold_int32. lia.
Qed.

(** Beyond the end, a total lookup gives the type's default element
    (1 for [Z] in stdpp); the models only read in range. *)
Lemma lookup_total_ge {A} `{Inhabited A} (l : list A) i :
  length l <= i -> l !!! i = inhabitant.
Proof. intros. rewrite list_lookup_total_alt, lookup_ge_None_2 by lia. done. Qed.

Lemma Forall_int32_imap (f : nat -> Z -> Z) (l : list Z) :
  (forall i x, l !! i = Some x -> in_int32 (f i x)) -> Forall in_int32 (imap f l).
Proof.
  intros Hf. apply Forall_lookup_2. intros i y Hy.
  apply list_lookup_imap_Some in Hy as (x & Hx & ->). eauto.
Qed.

#[export] Hint Resolve int32_lookup_total : scan.

Lemma Forall_int32_repeat (z : Z) n : in_int32 z -> Forall in_int32 (repeat z n).
Proof. intros Hz. induction n; constructor; auto. Qed.

(** [lia] does not know [mod] and [/] on [nat]: state the division
    equation and the bound of every [a mod m] and [a / m] in sight
    (once each), then call it. *)
(** A decidable proposition about concrete data, by evaluation. *)
Ltac decide_vm := apply (bool_decide_unpack _); vm_compute; exact I.

Ltac divmod_facts m :=
  repeat match goal with
  | |- context [?a mod m] =>
      lazymatch goal with _ : a = m * (a / m) + a mod m |- _ => fail | _ => idtac end;
      pose proof (Nat.div_mod_eq a m); pose proof (Nat.mod_upper_bound a m ltac:(discriminate))
  | _ : context [?a mod m] |- _ =>
      lazymatch goal with _ : a = m * (a / m) + a mod m |- _ => fail | _ => idtac end;
      pose proof (Nat.div_mod_eq a m); pose proof (Nat.mod_upper_bound a m ltac:(discriminate))
  | |- context [?a / m] =>
      lazymatch goal with _ : a = m * (a / m) + a mod m |- _ => fail | _ => idtac end;
      pose proof (Nat.div_mod_eq a m); pose proof (Nat.mod_upper_bound a m ltac:(discriminate))
  | _ : context [?a / m] |- _ =>
      lazymatch goal with _ : a = m * (a / m) + a mod m |- _ => fail | _ => idtac end;
      pose proof (Nat.div_mod_eq a m); pose proof (Nat.mod_upper_bound a m ltac:(discriminate))
  end.

(* ================================================================= *)
(** ** Counted loops                                                  *)
(* ================================================================= *)

(** [for (i = start; i < bound; i += stride) body] over a state [S],
    where the body may fail ([None] models undefined behaviour such as
    an out-of-bounds access).  The recursion is on [fuel]; running out
    of fuel is also [None], and [for_loop_fuel] shows that any fuel
    above [bound - start] is enough when [stride > 0]. *)
Fixpoint for_loop {S} (fuel : nat) (i bound stride : nat)
    (body : nat -> S -> option S) (s : S) : option S :=
  match fuel with
  | O => None
  | S fuel' =>
      if decide (i < bound) then
        s' ← body i s; for_loop fuel' (i + stride) bound stride body s'
      else Some s
  end.

(** The indices the loop visits, in order. *)
Fixpoint loop_iters (fuel : nat) (i bound stride : nat) : list nat :=
  match fuel with
  | O => []
  | S fuel' =>
      if decide (i < bound) then i :: loop_iters fuel' (i + stride) bound stride
      else []
  end.

(** Running the body on a list of indices. *)
Fixpoint run_iters {S} (ixs : list nat) (body : nat -> S -> option S) (s : S)
    : option S :=
  match ixs with
  | [] => Some s
  | i :: ixs' => s' ← body i s; run_iters ixs' body s'
  end.

Lemma for_loop_fuel {S} fuel i bound stride (body : nat -> S -> option S) s :
  0 < stride -> bound - i < fuel ->
  for_loop fuel i bound stride body s
  = run_iters (loop_iters fuel i bound stride) body s.
Proof.
  revert i s. induction fuel as [|fuel IH]; intros i s Hst Hf; [lia|].
  simpl. case_decide; [|done]. simpl.
  destruct (body i s) as [s'|]; simpl; [apply IH; lia|done].
Qed.

Lemma loop_iters_fuel fuel1 fuel2 i bound stride :
  0 < stride -> bound - i < fuel1 -> bound - i < fuel2 ->
  loop_iters fuel1 i bound stride = loop_iters fuel2 i bound stride.
Proof.
  revert fuel2 i. induction fuel1 as [|f1 IH]; intros [|f2] i Hs H1 H2; try lia.
  simpl. case_decide; [|done]. f_equal. apply IH; lia.
Qed.

Lemma run_iters_app {S} ix1 ix2 (body : nat -> S -> option S) s :
  run_iters (ix1 ++ ix2) body s = (s' ← run_iters ix1 body s; run_iters ix2 body s').
Proof.
  revert s. induction ix1 as [|i ix1 IH]; intros s; simpl; [done|].
  destruct (body i s); simpl; [apply IH|done].
Qed.

(** [for (j = 0; j < n; j++)] visits [0 .. n-1]. *)
Lemma loop_iters_seq fuel lo n :
  n < fuel -> loop_iters fuel lo (lo + n) 1 = seq lo n.
Proof.
  revert fuel lo. induction n as [|n IH]; intros [|fuel] lo Hf; try lia.
  - simpl. case_decide; [lia|done].
  - simpl. case_decide; [|lia]. f_equal.
    replace (lo + S n) with (lo + 1 + n) by lia. rewrite Nat.add_1_r. apply IH; lia.
Qed.

(** A stride loop [for (i = b*B; i < N; i += B)] visits the multiples. *)
Lemma loop_iters_stride fuel k n stride :
  0 < stride -> n - k < fuel ->
  loop_iters fuel (k * stride) (n * stride) stride
  = map (fun t => t * stride) (seq k (n - k)).
Proof.
  revert k. induction fuel as [|fuel IH]; intros k Hs Hf; [lia|].
  simpl. case_decide as Hlt.
  - assert (k < n) by nia.
    replace (n - k) with (S (n - S k)) by lia. simpl. f_equal.
    replace (k * stride + stride) with (S k * stride) by lia. apply IH; lia.
  - assert (n <= k) by nia. replace (n - k) with 0 by lia. done.
Qed.

(* ================================================================= *)
(** ** A flat memory of [int]s and buffers in it                       *)
(* ================================================================= *)

(** Device or host memory as one array of [int] cells; a buffer is a
    base address and a length in elements.  [ld] and [st] fail on an
    index outside the buffer (undefined behaviour in C). *)
Record buf := Buf { base : nat; len : nat }.

#[export] Instance buf_eq_dec : EqDecision buf.
Proof. solve_decision. Defined.

Abbreviation Mem := (list Z).

Definition ld (m : Mem) (b : buf) (k : nat) : option Z :=
  if decide (k < len b) then m !! (base b + k) else None.

Definition store (m : Mem) (b : buf) (k : nat) (v : Z) : option Mem :=
  if decide (k < len b /\ base b + k < length m) then Some (<[base b + k := v]> m)
  else None.

(** The buffer lies inside the memory. *)
Definition buf_valid (m : Mem) (b : buf) : Prop := base b + len b <= length m.

Definition buf_disjoint (b1 b2 : buf) : Prop :=
  base b1 + len b1 <= base b2 \/ base b2 + len b2 <= base b1.

(** The aliasing the scan routines allow: the output either is the
    input ("in case we are doing this in place") or does not overlap. *)
Definition alias_ok (out inb : buf) : Prop := out = inb \/ buf_disjoint out inb.

(** The elements of a buffer. *)
Definition contents (m : Mem) (b : buf) : list Z := take (len b) (drop (base b) m).

Definition in_buf (b : buf) (a : nat) : Prop := base b <= a < base b + len b.

#[export] Instance buf_valid_dec m b : Decision (buf_valid m b).
Proof. unfold buf_valid. apply _. Defined.
#[export] Instance buf_disjoint_dec b1 b2 : Decision (buf_disjoint b1 b2).
Proof. unfold buf_disjoint. apply _. Defined.

Lemma ld_Some m b k :
  buf_valid m b -> k < len b -> ld m b k = Some (m !!! (base b + k)).
Proof.
  unfold ld, buf_valid. intros Hv Hk. case_decide; [|lia].
  apply list_lookup_lookup_total_lt. lia.
Qed.

Lemma store_Some m b k v :
  buf_valid m b -> k < len b -> store m b k v = Some (<[base b + k := v]> m).
Proof. unfold store, buf_valid. intros. case_decide; [done|lia]. Qed.

Lemma ld_None m b k : len b <= k -> ld m b k = None.
Proof. unfold ld. intros. case_decide; [lia|done]. Qed.

Lemma contents_lookup m b k :
  buf_valid m b -> k < len b -> contents m b !!! k = m !!! (base b + k).
Proof.
  unfold contents, buf_valid. intros Hv Hk.
  rewrite !list_lookup_total_alt, lookup_take_lt, lookup_drop by lia. done.
Qed.

Lemma length_contents m b : buf_valid m b -> length (contents m b) = len b.
Proof. unfold contents, buf_valid. intros. rewrite length_take, length_drop. lia. Qed.

#[export] Hint Resolve ld_Some store_Some : scan.

(** A memory that agrees with [m] on the cells of a non-empty valid
    buffer holds the buffer too, with the same contents. *)
Lemma buf_valid_frame m m' b :
  buf_valid m b -> 0 < len b -> (forall a, in_buf b a -> m' !! a = m !! a) -> buf_valid m' b.
Proof.
  unfold buf_valid, in_buf. intros Hv Hl Hf.
  destruct (lookup_lt_is_Some_2 m (base b + len b - 1)) as [x Hx]; [lia|].
  rewrite <- Hf in Hx by lia. apply lookup_lt_Some in Hx. lia.
Qed.

Lemma contents_frame m m' b :
  buf_valid m b -> buf_valid m' b -> (forall a, in_buf b a -> m' !! a = m !! a) ->
  contents m' b = contents m b.
Proof.
  intros Hv Hv' Hf. apply list_eq_total; [by rewrite !length_contents|].
  intros k Hk. rewrite length_contents in Hk by done.
  rewrite !contents_lookup by done. rewrite !list_lookup_total_alt, Hf; [done|].
  unfold in_buf. lia.
Qed.

Lemma bind_Some_l {A B} (x : A) (f : A -> option B) : (Some x ≫= f) = f x.
Proof. done. Qed.

Lemma run_iters_fail {S} ixs i (body : nat -> S -> option S) s :
  i ∈ ixs -> (forall s', body i s' = None) -> run_iters ixs body s = None.
Proof.
  revert s. induction ixs as [|i' ixs IH]; intros s Hin Hb; [inversion Hin|].
  simpl. apply elem_of_cons in Hin as [->|Hin].
  - by rewrite Hb.
  - destruct (body i' s); simpl; [by apply IH|done].
Qed.

(** A counted loop [for (i = 0; i < n; i++)] with an invariant [P i]
    that each iteration keeps: the loop returns a state of [P n]. *)
Lemma for_loop_inv {St} (P : nat -> St -> Prop) (body : nat -> St -> option St) n s0 :
  P 0 s0 -> (forall i s, i < n -> P i s -> exists s', body i s = Some s' /\ P (S i) s') ->
  exists s', for_loop (S n) 0 n 1 body s0 = Some s' /\ P n s'.
Proof.
  intros H0 Hstep. rewrite for_loop_fuel by lia.
  replace (loop_iters (S n) 0 n 1) with (seq 0 n) by (symmetry; apply (loop_iters_seq (S n) 0 n); lia).
  assert (Hgen : forall m j s, j + m = n -> P j s -> exists s', run_iters (seq j m) body s = Some s' /\ P n s').
  { induction m as [|m IH]; intros j s Hjm Hs; cbn [seq run_iters].
    - exists s. rewrite Nat.add_0_r in Hjm. by subst.
    - destruct (Hstep j s ltac:(lia) Hs) as (s' & -> & Hs'). cbn [mbind option_bind].
      apply (IH (S j)); [lia|done]. }
  by apply (Hgen n 0).
Qed.

(** The [t]-th index of a stride loop is visited. *)
Lemma loop_iters_elem fuel i bound stride t :
  0 < stride -> i + t * stride < bound -> bound - i < fuel ->
  i + t * stride ∈ loop_iters fuel i bound stride.
Proof.
  revert fuel i. induction t as [|t IH]; intros [|fuel] i Hs Hb Hf; try lia.
  - simpl. case_decide; [|lia]. rewrite Nat.add_0_r. apply list_elem_of_here.
  - replace (i + S t * stride) with (i + stride + t * stride) by lia.
    simpl. case_decide; [|lia]. apply list_elem_of_further.
    apply IH; lia.
Qed.

(** Index arithmetic inside a period. *)
(** The least index at which a decidable property of [nat] holds,
    below one where it holds. *)
Lemma least_nat (P : nat -> Prop) `{forall n, Decision (P n)} n :
  P n -> exists K, K <= n /\ P K /\ forall k, k < K -> ~ P k.
Proof.
  revert P H. induction n as [|n IH]; intros P HP Hn.
  - exists 0. split_and!; [lia|done|lia].
  - destruct (decide (P 0)) as [H0|H0]; [exists 0; split_and!; [lia|done|lia]|].
    destruct (IH (fun k => P (S k)) _ Hn) as (K & HK & HPK & Hlt).
    exists (S K). split_and!; [lia|done|]. intros [|k] Hk; [done|apply Hlt; lia].
Qed.

Lemma period_mod k p j : j < p -> (k * p + j) mod p = j.
Proof.
  intros Hj. rewrite Nat.add_comm, Nat.Div0.mod_add. by apply Nat.mod_small.
Qed.

Lemma period_base k p j : j < p -> k * p + j - (k * p + j) mod p = k * p.
Proof. intros Hj. rewrite period_mod by done. lia. Qed.

(* ================================================================= *)
(** ** Actions that commute, run in any order                         *)
(* ================================================================= *)

(** Per-worker actions [act w] that keep a well-formedness predicate and
    commute for distinct workers give the same final state for every
    order of a set of distinct workers. *)
Section CommutingActions.
  Local Unset Default Proof Using.
  Context {S : Type} (wf : S -> Prop) (act : nat -> S -> S).
  Hypothesis act_wf : forall w s, wf s -> wf (act w s).
  Hypothesis act_comm :
    forall w1 w2 s, w1 <> w2 -> wf s -> act w1 (act w2 s) = act w2 (act w1 s).

Lemma fold_act_wf ws s : wf s -> wf (fold_left (fun s w => act w s) ws s).
Proof. revert s. induction ws as [|w ws IH]; intros s Hs; simpl; auto. Qed.

Lemma fold_act_perm ws1 ws2 s :
  NoDup ws1 -> Permutation ws1 ws2 -> wf s ->
  fold_left (fun s w => act w s) ws1 s = fold_left (fun s w => act w s) ws2 s.
Proof.
  intros Hnd Hp. revert s. induction Hp as [|w l1 l2 Hp IH|w1 w2 l|l1 l2 l3 Hp1 IH1 Hp2 IH2];
    intros s Hs; simpl.
  - done.
  - apply NoDup_cons in Hnd as [_ Hnd]. apply IH; auto.
  - apply NoDup_cons in Hnd as [Hn1 _]. rewrite act_comm; [done| |done].
    intros ->. apply Hn1. left.
  - rewrite IH1 by done. apply IH2; [|done]. by rewrite <- Hp1.
Qed.
End CommutingActions.
