(* ===== verification/CpuScan.v ===== *)
(** * CpuScan: the CPU reference (oracle) scans of testScanBlock.cu

    [ScanExclusiveCPUPeriodic], [ScanInclusiveCPUPeriodic] and their
    dispatchers [ScanCPU32] and [ScanCPUBlock] (src/scan/warp/
    testScanBlock.cu, lines 60-123), and [RandomArray] (lines 125-131),
    over the flat memory of [Prelude]: the loops are [for_loop]s, the
    local [sum] is threaded through the inner loop, and the input and
    output buffers may be the same buffer.  The theorems give the result
    of each routine on every input (the periodic prefix sums with
    32-bit wrap-around), the failure when [N] is not a multiple of the
    period, the frame, and the structure of the periodic scan. *)

From Stdlib Require Import ZArith Lia.
From stdpp Require Import base list options.
From S2P Require Import Prelude.

Module CpuScan.

(** [enum ScanType { Inclusive, Exclusive };] *)
Inductive ScanType := Inclusive | Exclusive.

#[export] Instance ScanType_eq_dec : EqDecision ScanType.
Proof. solve_decision. Defined.

(* ----------------------------------------------------------------- *)
(** ** The routines                                                   *)
(* ----------------------------------------------------------------- *)

(** Inner loop body of [ScanExclusiveCPUPeriodic]:
    [int next = in[i+j]; out[i+j] = sum; sum += next;] *)
Definition excl_body (out inb : buf) (i j : nat) (s : Mem * Z) : option (Mem * Z) :=
  let '(m, sum) := s in
  next ← ld m inb (i + j);
  m' ← store m out (i + j) sum;
  Some (m', add32 sum next).

(** Inner loop body of [ScanInclusiveCPUPeriodic]:
    [sum += in[i+j]; out[i+j] = sum;] *)
Definition incl_body (out inb : buf) (i j : nat) (s : Mem * Z) : option (Mem * Z) :=
  let '(m, sum) := s in
  x ← ld m inb (i + j);
  let sum' := add32 sum x in
  m' ← store m out (i + j) sum';
  Some (m', sum').

(** [for (i = 0; i < N; i += period) { int sum = 0;
        for (j = 0; j < period; j++) body }] *)
Definition periodic_loop (body : nat -> nat -> Mem * Z -> option (Mem * Z))
    (period N : nat) (m : Mem) : option Mem :=
  for_loop (S N) 0 N period
    (fun i m =>
       '(m', _) ← for_loop (S period) 0 period 1 (body i) (m, 0%Z);
       Some m') m.

Definition ScanExclusiveCPUPeriodic (period : nat) (out inb : buf) (N : nat)
    (m : Mem) : option Mem :=
  periodic_loop (excl_body out inb) period N m.

Definition ScanInclusiveCPUPeriodic (period : nat) (out inb : buf) (N : nat)
    (m : Mem) : option Mem :=
  periodic_loop (incl_body out inb) period N m.

(** [ScanCPU32<scantype>]: the period-32 oracle of the warp tests. *)
Definition ScanCPU32 (scantype : ScanType) (out inb : buf) (N : nat) (m : Mem)
    : option Mem :=
  match scantype with
  | Exclusive => ScanExclusiveCPUPeriodic 32 out inb N m
  | Inclusive => ScanInclusiveCPUPeriodic 32 out inb N m
  end.

(** [ScanCPUBlock<scantype>(out, in, N, numThreads)]: a [switch] on
    [numThreads] with cases 256, 512 and 1024; any other value takes the
    [default: return;] branch and leaves the output untouched. *)
Definition ScanCPUBlock (scantype : ScanType) (out inb : buf) (N : nat)
    (numThreads : nat) (m : Mem) : option Mem :=
  let run p := match scantype with
               | Exclusive => ScanExclusiveCPUPeriodic p out inb N m
               | Inclusive => ScanInclusiveCPUPeriodic p out inb N m
               end in
  if decide (numThreads = 256) then run 256
  else if decide (numThreads = 512) then run 512
  else if decide (numThreads = 1024) then run 1024
  else Some m.

(** [RandomArray]: [out[i] = rand() % modulus] for [i < N], with the
    successive results of [rand()] given as the sequence [rand].  C's
    [%] truncates toward zero, which is [Z.rem]. *)
Definition RandomArray (rand : nat -> Z) (out : buf) (N : nat) (modulus : Z)
    (m : Mem) : option Mem :=
  for_loop (S N) 0 N 1 (fun i m => store m out i (Z.rem (rand i) modulus)) m.

(* ----------------------------------------------------------------- *)
(** ** The periodic scan, as a specification                          *)
(* ----------------------------------------------------------------- *)

(** Number of elements of the current period that position [k]'s
    result adds up. *)
Definition scan_count (scantype : ScanType) (p k : nat) : nat :=
  match scantype with
  | Inclusive => S (k mod p)
  | Exclusive => k mod p
  end.

(** Position [k] of the periodic scan: the sum, wrapped to 32 bits, of
    the inputs from the start of [k]'s period, [k - k mod p], up to [k]
    (included or not). *)
Definition periodic_scan (scantype : ScanType) (p : nat) (xs : list Z) : list Z :=
  imap (fun k _ => wrap32 (rsum xs (k - k mod p) (scan_count scantype p k))) xs.

Lemma length_periodic_scan st p xs : length (periodic_scan st p xs) = length xs.
Proof. apply length_imap. Qed.


(* ----------------------------------------------------------------- *)
(** ** Loop invariants                                                *)
(* ----------------------------------------------------------------- *)

(** [written m0 out f w m]: [m] is [m0] except that the first [w]
    cells of [out] hold [f 0 .. f (w-1)]. *)
Definition written (m0 : Mem) (out : buf) (f : nat -> Z) (w : nat) (m : Mem) : Prop :=
  length m = length m0 /\
  forall a, m !! a = if decide (base out <= a < base out + w)
                     then Some (f (a - base out)) else m0 !! a.

Lemma written_frame m0 out f w m a :
  written m0 out f w m -> ~ (base out <= a < base out + w) -> m !! a = m0 !! a.
Proof. intros [_ Hm] Ha. rewrite Hm. case_decide; [lia|done]. Qed.

Lemma written_init m0 out f : written m0 out f 0 m0.
Proof. split; [done|]. intros a. case_decide; [lia|done]. Qed.

Lemma written_store m0 out f w m :
  buf_valid m0 out -> w < len out -> written m0 out f w m ->
  store m out w (f w) = Some (<[base out + w := f w]> m) /\
  written m0 out f (S w) (<[base out + w := f w]> m).
Proof.
  intros Hvo Hw [Hl Hm]. unfold buf_valid in Hvo. split.
  - apply store_Some; unfold buf_valid; lia.
  - split; [by rewrite length_insert|]. intros a.
    destruct (decide (a = base out + w)) as [->|Hne].
    + rewrite list_lookup_insert_eq by lia. case_decide; [|lia].
      do 2 f_equal. lia.
    + rewrite list_lookup_insert_ne by lia. rewrite Hm.
      repeat case_decide; done || lia.
Qed.

(** [for (i = 0; i < N; i++) out[i] = f(i);] over a buffer of [N]
    cells: the first [N] cells of [out] hold [f]. *)
Lemma fill_loop_written out N (f : nat -> Z) m :
  len out = N -> buf_valid m out ->
  exists m', for_loop (S N) 0 N 1 (fun i m => store m out i (f i)) m = Some m'
    /\ written m out f N m'.
Proof.
  intros Hl Hv.
  assert (Hloop : forall j m1, j <= N -> written m out f j m1 ->
            exists m', run_iters (seq j (N - j)) (fun i m => store m out i (f i)) m1 = Some m'
                       /\ written m out f N m').
  { intros j m1. remember (N - j) as r eqn:Hrj. revert j m1 Hrj.
    induction r as [|r IH]; intros j m1 Hrj Hj Hw.
    - assert (j = N) as -> by lia. eauto.
    - simpl. destruct (written_store m out f j m1 Hv ltac:(lia) Hw) as [-> Hw'].
      apply (IH (S j)); [lia|lia|done]. }
  destruct (Hloop 0 m ltac:(lia) (written_init m out f)) as (m' & Hrun & Hw).
  exists m'. split; [|done].
  rewrite for_loop_fuel by lia.
  replace (loop_iters (S N) 0 N 1) with (seq 0 N) by (symmetry; apply (loop_iters_seq (S N) 0 N); lia).
  by rewrite Nat.sub_0_r in Hrun.
Qed.

Lemma written_contents_all m0 out f N m :
  len out = N -> buf_valid m0 out -> written m0 out f N m ->
  contents m out = map f (seq 0 N).
Proof.
  intros Hl Hv [Hlen Hm]. assert (Hv' : buf_valid m out) by (unfold buf_valid in *; lia).
  apply list_eq_total; [by rewrite length_contents, length_map, length_seq|].
  intros k Hk. rewrite length_contents in Hk by done. rewrite contents_lookup by (done || lia).
  rewrite (list_lookup_total_correct _ _ (f k)); [|rewrite Hm; case_decide; [do 2 f_equal|]; lia].
  rewrite list_lookup_total_alt, list_lookup_fmap, lookup_seq_lt by lia. done.
Qed.

(** Both inner-loop bodies read [in[i+j]], store [h sum x] to
    [out[i+j]] and continue with [sum + x]. *)
Definition body_shape (out inb : buf) (body : nat -> nat -> Mem * Z -> option (Mem * Z))
    (h : Z -> Z -> Z) : Prop :=
  forall i j m sum,
    body i j (m, sum)
    = (x ← ld m inb (i + j); m' ← store m out (i + j) (h sum x); Some (m', add32 sum x)).

Lemma excl_body_shape out inb : body_shape out inb (excl_body out inb) (fun sum _ => sum).
Proof. intros i j m sum. reflexivity. Qed.

Lemma incl_body_shape out inb : body_shape out inb (incl_body out inb) add32.
Proof. intros i j m sum. reflexivity. Qed.

Section PeriodicLoop.
Local Unset Default Proof Using.
Context (p N : nat) (out inb : buf) (m0 : Mem).
Hypothesis Hp : 0 < p.
Hypothesis HN : N mod p = 0.
Hypothesis Hout : len out = N.
Hypothesis Hin : len inb = N.
Hypothesis Hvo : buf_valid m0 out.
Hypothesis Hvi : buf_valid m0 inb.
Hypothesis Halias : alias_ok out inb.

Local Abbreviation xs := (contents m0 inb).



(** Reading [in[k]] at or beyond the written prefix sees the input:
    the in-place case reads a cell not yet overwritten. *)
Lemma written_ld f w m k :
  written m0 out f w m -> w <= k < N -> ld m inb k = Some (xs !!! k).
Proof.
  intros [Hl Hm] Hk. unfold ld. case_decide; [|lia].
  rewrite Hm. case_decide as Hc.
  - exfalso. destruct Halias as [Heq|Hd].
    + rewrite Heq in Hc. lia.
    + unfold buf_disjoint in Hd. lia.
  - rewrite contents_lookup by (done || lia).
    apply list_lookup_lookup_total_lt. unfold buf_valid in Hvi. lia.
Qed.



(** The inner loop from [j] to [period] over the period starting at [i]. *)
Lemma inner_loop body h f i j m :
  body_shape out inb body h -> i + p <= N -> j <= p ->
  (forall j', j' < p -> h (wrap32 (rsum xs i j')) (xs !!! (i + j')) = f (i + j')) ->
  written m0 out f (i + j) m ->
  exists m', run_iters (seq j (p - j)) (body i) (m, wrap32 (rsum xs i j))
             = Some (m', wrap32 (rsum xs i p))
             /\ written m0 out f (i + p) m'.
Proof.
  intros Hb Hi. remember (p - j) as r eqn:Hr. revert j m Hr.
  induction r as [|r IH]; intros j m Hr Hj Hh Hw.
  - assert (j = p) as -> by lia. exists m. done.
  - simpl. rewrite Hb, (written_ld _ _ _ _ Hw) by lia. simpl.
    rewrite Hh by lia.
    destruct (written_store m0 out f (i + j) m Hvo ltac:(lia) Hw) as [-> Hw']. simpl.
    unfold add32. rewrite wrap32_add_l.
    apply (IH (S j)); [lia|lia|done|].
    by replace (i + S j) with (S (i + j)) by lia.
Qed.

Definition outer_body body (i : nat) (m : Mem) : option Mem :=
  '(m', _) ← for_loop (S p) 0 p 1 (body i) (m, 0%Z); Some m'.

Lemma outer_step body h f k m :
  body_shape out inb body h ->
  (forall j, j < p ->
     h (wrap32 (rsum xs (k * p) j)) (xs !!! (k * p + j)) = f (k * p + j)) ->
  k * p + p <= N -> written m0 out f (k * p) m ->
  exists m1, outer_body body (k * p) m = Some m1 /\ written m0 out f (k * p + p) m1.
Proof.
  intros Hb Hh Hk Hw. unfold outer_body.
  rewrite for_loop_fuel by lia.
  replace (loop_iters (S p) 0 p 1) with (seq 0 p)
    by (symmetry; apply (loop_iters_seq (S p) 0 p); lia).
  change 0%Z with (wrap32 (rsum xs (k * p) 0)).
  rewrite <- (Nat.add_0_r (k * p)) in Hw.
  destruct (inner_loop body h f (k * p) 0 m Hb Hk ltac:(lia) Hh Hw)
    as (m1 & Hrun & Hw1).
  rewrite Nat.sub_0_r in Hrun. rewrite Hrun. eauto.
Qed.

Lemma outer_loop body h f k m :
  body_shape out inb body h ->
  (forall k' j, k' * p + p <= N -> j < p ->
     h (wrap32 (rsum xs (k' * p) j)) (xs !!! (k' * p + j)) = f (k' * p + j)) ->
  k <= N / p -> written m0 out f (k * p) m ->
  exists m', run_iters (map (fun t => t * p) (seq k (N / p - k))) (outer_body body) m
             = Some m' /\ written m0 out f N m'.
Proof.
  intros Hb Hh. assert (HNp : N = N / p * p).
  { rewrite (Nat.div_mod_eq N p) at 1. rewrite HN. lia. }
  remember (N / p - k) as r eqn:Hr. revert k m Hr.
  induction r as [|r IH]; intros k m Hr Hk Hw.
  - exists m. split; [done|]. replace N with (k * p); [done|].
    assert (k = N / p) as -> by lia. done.
  - cbn [seq map run_iters].
    assert (Hkp : k * p + p <= N).
    { assert (S k <= N / p) by lia. rewrite HNp. nia. }
    destruct (outer_step body h f k m Hb (fun j Hj => Hh k j Hkp Hj) Hkp Hw)
      as (m1 & -> & Hw1).
    rewrite bind_Some_l.
    apply (IH (S k)); [lia|lia|]. by replace (S k * p) with (k * p + p) by lia.
Qed.

Lemma periodic_loop_written body h f :
  body_shape out inb body h ->
  (forall k' j, k' * p + p <= N -> j < p ->
     h (wrap32 (rsum xs (k' * p) j)) (xs !!! (k' * p + j)) = f (k' * p + j)) ->
  exists m', periodic_loop body p N m0 = Some m' /\ written m0 out f N m'.
Proof.
  intros Hb Hh. unfold periodic_loop.
  rewrite for_loop_fuel by lia.
  assert (HNp : N = N / p * p).
  { rewrite (Nat.div_mod_eq N p) at 1. rewrite HN. lia. }
  replace (loop_iters (S N) 0 N p) with (loop_iters (S N) (0 * p) (N / p * p) p)
    by (rewrite <- HNp; done).
  rewrite loop_iters_stride by nia.
  apply (outer_loop body h f 0 m0 Hb Hh ltac:(lia)). apply written_init.
Qed.

Lemma written_contents f m :
  written m0 out f N m -> contents m out = imap (fun k _ => f k) xs.
Proof.
  intros [Hl Hm]. apply list_eq. intros k.
  rewrite list_lookup_imap.
  assert (length xs = N) by (rewrite length_contents; done).
  unfold contents at 1.
  destruct (decide (k < N)).
  - rewrite lookup_take_lt, lookup_drop, Hm by lia. case_decide; [|lia].
    destruct (lookup_lt_is_Some_2 xs k) as [x ->]; [lia|]. simpl.
    do 2 f_equal. lia.
  - rewrite lookup_take_ge by lia. rewrite lookup_ge_None_2 by lia. done.
Qed.



(** The value each routine writes at position [i + j] of a period. *)
Lemma scan_step_excl k j :
  j < p ->
  wrap32 (rsum xs (k * p) j)
  = wrap32 (rsum xs ((k * p + j) - (k * p + j) mod p) (scan_count Exclusive p (k * p + j))).
Proof. intros Hj. simpl. rewrite period_base, period_mod by done. done. Qed.

Lemma scan_step_incl k j :
  j < p ->
  add32 (wrap32 (rsum xs (k * p) j)) (xs !!! (k * p + j))
  = wrap32 (rsum xs ((k * p + j) - (k * p + j) mod p) (scan_count Inclusive p (k * p + j))).
Proof.
  intros Hj. simpl. rewrite period_base, period_mod by done.
  unfold add32. rewrite wrap32_add_l. done.
Qed.
End PeriodicLoop.

Lemma periodic_loop_correct st body h p N out inb m :
  0 < p -> N mod p = 0 -> len out = N -> len inb = N ->
  buf_valid m out -> buf_valid m inb -> alias_ok out inb ->
  body_shape out inb body h ->
  (forall k j, j < p ->
     h (wrap32 (rsum (contents m inb) (k * p) j)) (contents m inb !!! (k * p + j))
     = wrap32 (rsum (contents m inb) ((k * p + j) - (k * p + j) mod p)
                    (scan_count st p (k * p + j)))) ->
  exists m', periodic_loop body p N m = Some m'
    /\ contents m' out = periodic_scan st p (contents m inb)
    /\ (forall a, ~ in_buf out a -> m' !! a = m !! a) /\ length m' = length m.
Proof.
  intros Hp HN Ho Hi Hvo Hvi Ha Hb Hh.
  destruct (periodic_loop_written p N out inb m Hp HN Ho Hi Hvo Hvi Ha body h
              (fun k => wrap32 (rsum (contents m inb) (k - k mod p) (scan_count st p k)))
              Hb (fun k j _ Hj => Hh k j Hj)) as (m' & Hrun & Hw).
  exists m'. split; [done|]. split_and!.
  - by erewrite written_contents.
  - intros a Hnot. apply (written_frame _ _ _ _ _ _ Hw). by rewrite <- Ho.
  - apply Hw.
Qed.

Lemma periodic_loop_not_multiple body h p N out inb m :
  0 < p -> N mod p <> 0 -> len inb = N -> body_shape out inb body h ->
  periodic_loop body p N m = None.
Proof.
  intros Hp HN Hi Hb. unfold periodic_loop. rewrite for_loop_fuel by lia.
  (* the last, partial period starts at (N / p) * p and reads in[N] *)
  apply (run_iters_fail _ (0 + N / p * p)).
  { apply loop_iters_elem; [done| |lia].
    pose proof (Nat.div_mod_eq N p). pose proof (Nat.mod_upper_bound N p). lia. }
  intros m1. rewrite for_loop_fuel by lia.
  rewrite (run_iters_fail _ (N - N / p * p)); [done| |].
  - replace (loop_iters (S p) 0 p 1) with (seq 0 p)
      by (symmetry; apply (loop_iters_seq (S p) 0 p); lia).
    apply list_elem_of_In, in_seq.
    pose proof (Nat.div_mod_eq N p). pose proof (Nat.mod_upper_bound N p). lia.
  - intros [m2 sum]. rewrite Hb, ld_None; [done|].
    pose proof (Nat.div_mod_eq N p). lia.
Qed.

(* ----------------------------------------------------------------- *)
(** ** The oracle's results                                           *)
(* ----------------------------------------------------------------- *)

(** C18: ScanExclusiveCPUPeriodic(out, in, N) with a period dividing N and
    the output either equal to the input (in place) or disjoint from it
    returns normally; the output buffer then holds at position k the
    32-bit wrapped sum of the inputs from the start of k's period up to,
    not including, k; no other cell of memory changes. *)
Theorem ScanExclusiveCPUPeriodic_correct p N out inb m :
  0 < p -> N mod p = 0 -> len out = N -> len inb = N ->
  buf_valid m out -> buf_valid m inb -> alias_ok out inb ->
  exists m', ScanExclusiveCPUPeriodic p out inb N m = Some m'
    /\ contents m' out = periodic_scan Exclusive p (contents m inb)
    /\ (forall a, ~ in_buf out a -> m' !! a = m !! a) /\ length m' = length m.
Proof.
  intros. eapply periodic_loop_correct; eauto using excl_body_shape.
  intros k j Hj. by apply scan_step_excl.
Qed.

(** C17: ScanInclusiveCPUPeriodic(out, in, N) under the same conditions holds
    at position k the wrapped sum from the start of k's period up to and
    including k, in place or out of place, and changes nothing else. *)
Theorem ScanInclusiveCPUPeriodic_correct p N out inb m :
  0 < p -> N mod p = 0 -> len out = N -> len inb = N ->
  buf_valid m out -> buf_valid m inb -> alias_ok out inb ->
  exists m', ScanInclusiveCPUPeriodic p out inb N m = Some m'
    /\ contents m' out = periodic_scan Inclusive p (contents m inb)
    /\ (forall a, ~ in_buf out a -> m' !! a = m !! a) /\ length m' = length m.
Proof.
  intros. eapply periodic_loop_correct; eauto using incl_body_shape.
  intros k j Hj. by apply scan_step_incl.
Qed.

(** C29: When N is not a multiple of the period, both oracles read in[N],
    one element past the input array, whatever the memory: the run is
    undefined behaviour, modelled as None. *)
Theorem ScanCPUPeriodic_not_multiple p N out inb m :
  0 < p -> N mod p <> 0 -> len inb = N ->
  ScanExclusiveCPUPeriodic p out inb N m = None
  /\ ScanInclusiveCPUPeriodic p out inb N m = None.
Proof.
  intros. split; eapply periodic_loop_not_multiple; eauto using excl_body_shape, incl_body_shape.
Qed.

(** The periodic scan has no state that crosses a period boundary: the
    scan of a concatenation whose first part is a whole number of
    periods is the concatenation of the scans. *)
Theorem periodic_scan_app st p xs ys :
  0 < p -> length xs mod p = 0 ->
  periodic_scan st p (xs ++ ys) = periodic_scan st p xs ++ periodic_scan st p ys.
Proof.
  intros Hp HL. unfold periodic_scan. rewrite imap_app. f_equal.
  - apply imap_ext. intros k x Hk. apply lookup_lt_Some in Hk.
    rewrite rsum_app_l; [done|].
    pose proof (Nat.Div0.mod_le k p). destruct st; simpl; lia.
  - apply imap_ext. intros k x _.
    assert (Hm : (length xs + k) mod p = k mod p).
    { rewrite (Nat.div_mod_eq (length xs) p), HL, Nat.add_0_r,
        (Nat.mul_comm p), (Nat.add_comm _ k). apply Nat.Div0.mod_add. }
    pose proof (Nat.Div0.mod_le k p).
    replace (length xs + k - (length xs + k) mod p) with (length xs + (k - k mod p))
      by (rewrite Hm; lia).
    rewrite rsum_app_r. destruct st; simpl; by rewrite Hm.
Qed.


(** Any other block size, 128 included, falls into [default: return;]:
    the output buffer keeps whatever it held. *)
Theorem ScanCPUBlock_unsupported st N out inb numThreads m :
  numThreads <> 256 -> numThreads <> 512 -> numThreads <> 1024 ->
  ScanCPUBlock st out inb N numThreads m = Some m.
Proof. unfold ScanCPUBlock. intros. repeat case_decide; done || lia. Qed.

(** C30: RandomArray fills the first N cells of out with rand() % modulus,
    so with a positive modulus and rand() >= 0 every element lies in
    [0, modulus); nothing outside those cells changes. *)
Theorem RandomArray_range rand out N modulus m :
  (0 < modulus)%Z -> (forall i, 0 <= rand i)%Z -> len out = N -> buf_valid m out ->
  exists m', RandomArray rand out N modulus m = Some m'
    /\ (forall k, k < N -> (0 <= contents m' out !!! k < modulus)%Z)
    /\ (forall a, ~ in_buf out a -> m' !! a = m !! a) /\ length m' = length m.
Proof.
  intros Hmod Hr Hl Hv. set (f := fun i => Z.rem (rand i) modulus).
  destruct (fill_loop_written out N f m Hl Hv) as (m' & Hrun & Hw).
  exists m'. split; [done|].
  split_and!; [| |apply Hw].
  - intros k Hk. destruct Hw as [Hlen Hm].
    assert (Hv' : buf_valid m' out) by (unfold buf_valid in *; lia).
    rewrite contents_lookup by (done || lia).
    rewrite (list_lookup_total_correct _ _ (f k)); [|rewrite Hm; case_decide; [do 2 f_equal|]; lia].
    unfold f. pose proof (Hr k). split; [apply Z.rem_nonneg|apply Z.rem_bound_pos]; lia.
  - intros a Hnot. apply (written_frame _ _ _ _ _ _ Hw). by rewrite <- Hl.
Qed.

(* ----------------------------------------------------------------- *)
(** ** Concrete runs                                                  *)
(* ----------------------------------------------------------------- *)

(** The scenarios of the specification, on the routines themselves.
    Input [0, 1, ..., 255] with period 256: the inclusive scan is the
    triangular numbers and the exclusive scan is shifted by one. *)
Definition iota_mem (n : nat) : Mem := map Z.of_nat (seq 0 n).

Example cpu_triangular_inclusive :
  ScanInclusiveCPUPeriodic 256 (Buf 256 256) (Buf 0 256) 256 (iota_mem 256 ++ repeat 0%Z 256)
  = Some (iota_mem 256 ++ map (fun k => Z.of_nat (k * (k + 1) / 2)) (seq 0 256)).
Proof. vm_compute. reflexivity. Qed.

Example cpu_triangular_exclusive :
  ScanExclusiveCPUPeriodic 256 (Buf 256 256) (Buf 0 256) 256 (iota_mem 256 ++ repeat 0%Z 256)
  = Some (iota_mem 256 ++ map (fun k => Z.of_nat (k * (k - 1) / 2)) (seq 0 256)).
Proof. vm_compute. reflexivity. Qed.

(** All ones, 1024 elements, period 256, in place: [1 .. 256] four times. *)
Example cpu_ones_inplace :
  ScanInclusiveCPUPeriodic 256 (Buf 0 1024) (Buf 0 1024) 1024 (repeat 1%Z 1024)
  = Some (concat (repeat (map (fun k => Z.of_nat (S k)) (seq 0 256)) 4)).
Proof. vm_compute. reflexivity. Qed.

(** Witnesses: the theorems applied where their hypotheses hold. *)
Lemma ScanExclusiveCPUPeriodic_correct_witness :
  exists m', ScanExclusiveCPUPeriodic 4 (Buf 2 8) (Buf 2 8) 8 (iota_mem 12) = Some m'
    /\ contents m' (Buf 2 8) = periodic_scan Exclusive 4 (contents (iota_mem 12) (Buf 2 8))
    /\ (forall a, ~ in_buf (Buf 2 8) a -> m' !! a = iota_mem 12 !! a)
    /\ length m' = length (iota_mem 12).
Proof.
  apply (ScanExclusiveCPUPeriodic_correct 4 8 (Buf 2 8) (Buf 2 8) (iota_mem 12));
    try (unfold buf_valid; simpl; lia); try reflexivity. left. reflexivity.
Defined.

Lemma ScanInclusiveCPUPeriodic_correct_witness :
  exists m', ScanInclusiveCPUPeriodic 4 (Buf 8 8) (Buf 0 8) 8 (iota_mem 16) = Some m'
    /\ contents m' (Buf 8 8) = periodic_scan Inclusive 4 (contents (iota_mem 16) (Buf 0 8))
    /\ (forall a, ~ in_buf (Buf 8 8) a -> m' !! a = iota_mem 16 !! a)
    /\ length m' = length (iota_mem 16).
Proof.
  apply (ScanInclusiveCPUPeriodic_correct 4 8 (Buf 8 8) (Buf 0 8) (iota_mem 16));
    try (unfold buf_valid; simpl; lia); try reflexivity.
  right. unfold buf_disjoint. simpl. lia.
Defined.

Lemma ScanCPUPeriodic_not_multiple_witness :
  ScanExclusiveCPUPeriodic 4 (Buf 6 6) (Buf 0 6) 6 (iota_mem 12) = None
  /\ ScanInclusiveCPUPeriodic 4 (Buf 6 6) (Buf 0 6) 6 (iota_mem 12) = None.
Proof. apply ScanCPUPeriodic_not_multiple; simpl; lia. Defined.



Lemma ScanCPUBlock_unsupported_witness :
  ScanCPUBlock Exclusive (Buf 128 128) (Buf 0 128) 128 128 (repeat 1%Z 256)
  = Some (repeat 1%Z 256).
Proof. apply ScanCPUBlock_unsupported; lia. Defined.

Lemma RandomArray_range_witness :
  exists m', RandomArray (fun i => Z.of_nat (7 * i + 3)) (Buf 0 5) 5 256 (repeat 0%Z 5) = Some m'
    /\ (forall k, k < 5 -> (0 <= contents m' (Buf 0 5) !!! k < 256)%Z)
    /\ (forall a, ~ in_buf (Buf 0 5) a -> m' !! a = repeat 0%Z 5 !! a)
    /\ length m' = length (repeat 0%Z 5).
Proof.
  apply RandomArray_range; [lia | intros; lia | reflexivity | unfold buf_valid; simpl; lia].
Defined.

End CpuScan.
