(* ===== verification/WarpScan.v ===== *)
(** * WarpScan: the warp-level scan primitives

    The warp scans that testScanBlock.cu includes from scanWarp.cuh,
    scanWarpShuffle.cuh and scanZeroPad.cuh.  Those headers are not part
    of the sources under src/, so these definitions follow the
    specification (section 4.1): a Hillis-Steele scan of log2(32) = 5
    lockstep steps, in which at step k every lane whose lane index is at
    least 2^k adds the value held by the lane 2^k to its left.

    - [scanWarp_step] and [scanWarp]: the shared-memory strategy with an
      explicit bounds check ([if (lane >= d) { t += s[-d]; s[0] = t; }]),
      run by all threads of a block at once, each on its own slot; the
      lockstep of a warp is the synchronous update of [imap].
    - [scanWarpExclusive]: lane 0 returns 0, lane l the slot of lane l-1.
    - [shfl_up], [scan_warp_shfl_step], [inclusive_scan_warp_shfl] and
      [exclusive_scan_warp_shfl]: the register-exchange strategy
      (inclusive scan minus the lane's own value for the exclusive one).
    (The zero-padded strategy of scanZeroPad.cuh is in [ZeroPad].)

    The theorems: the Hillis-Steele invariant after each step, hence the
    inclusive and exclusive warp prefix sums; the equality of the
    shared-memory and register-exchange strategies. *)

From Stdlib Require Import ZArith Lia.
From stdpp Require Import base list options.
From S2P Require Import Prelude.

Module WarpScan.

Definition WARP_SIZE : nat := 32.
Definition LOG_WARP_SIZE : nat := 5.

(** [lane = tid & 31] and [warp = tid >> 5]. *)
Definition laneid (tid : nat) : nat := Nat.land tid 31.
Definition warpid (tid : nat) : nat := Nat.shiftr tid 5.

(** The offsets of the five steps, [1, 2, 4, 8, 16], and in general
    those of a [levels]-step scan ([inclusive_scan_warp_shfl<levels>]). *)
Definition scan_offsets (levels : nat) : list nat := map (fun k => 2 ^ k) (seq 0 levels).

(* ----------------------------------------------------------------- *)
(** ** Shared-memory strategy, bounds-checked ([bZeroPadded = false])  *)
(* ----------------------------------------------------------------- *)

(** One lockstep step of [scanWarp<int,false>] over the block's
    [sPartials], called by the threads [tid] with [act tid] (whole
    warps): every calling thread with [lane >= d] loads
    [sPartials[tid-d]], adds it to its own value and stores the sum.
    All loads of a step precede all stores (warp lockstep). *)
Definition scanWarp_step_on (act : nat -> bool) (d : nat) (s : list Z) : list Z :=
  imap (fun tid v => if act tid && bool_decide (d <= laneid tid)
                     then add32 v (s !!! (tid - d)) else v) s.

Definition scanWarp_levels_on (act : nat -> bool) (levels : nat) (s : list Z) : list Z :=
  fold_left (fun s d => scanWarp_step_on act d s) (scan_offsets levels) s.

(** [scanWarp<int,false>(sPartials+tid)] called by the threads in [act];
    a calling thread [tid] returns (and leaves in its slot) entry [tid]
    of the result. *)
Definition scanWarp_on (act : nat -> bool) (s : list Z) : list Z :=
  scanWarp_levels_on act LOG_WARP_SIZE s.

(** Called by every thread of the block. *)
Definition scanWarp (s : list Z) : list Z := scanWarp_on (fun _ => true) s.

(** [scanWarpExclusive<int,false>]: after the inclusive pass, lane 0
    returns 0 and lane [l > 0] the slot of lane [l-1]. *)
Definition scanWarpExclusive (s : list Z) : list Z :=
  let s' := scanWarp s in
  imap (fun tid _ => if decide (laneid tid = 0) then 0%Z else s' !!! (tid - 1)) s'.

(* ----------------------------------------------------------------- *)
(** ** Shuffle strategy                                               *)
(* ----------------------------------------------------------------- *)

(** [__shfl_up(v, d)] read by lane [tid]: the register of lane [tid-d]
    of the same warp, or the caller's own register when [lane < d]. *)
Definition shfl_up (regs : list Z) (d tid : nat) : Z :=
  if decide (d <= laneid tid) then regs !!! (tid - d) else regs !!! tid.

(** [n = __shfl_up(sum, d); if (lane >= d) sum += n;] *)
Definition scan_warp_shfl_step (d : nat) (regs : list Z) : list Z :=
  imap (fun tid v => let n := shfl_up regs d tid in
                     if decide (d <= laneid tid) then add32 v n else v) regs.

(** [inclusive_scan_warp_shfl<levels>(value)] for all threads. *)
Definition inclusive_scan_warp_shfl (levels : nat) (regs : list Z) : list Z :=
  fold_left (fun r d => scan_warp_shfl_step d r) (scan_offsets levels) regs.

(** [exclusive_scan_warp_shfl<levels>(value)]: the inclusive scan minus
    the thread's own value. *)
Definition exclusive_scan_warp_shfl (levels : nat) (regs : list Z) : list Z :=
  zip_with sub32 (inclusive_scan_warp_shfl levels regs) regs.

(* ----------------------------------------------------------------- *)
(** ** The specification: warp-local prefix sums                      *)
(* ----------------------------------------------------------------- *)

(** Entry [tid]: the wrapped sum of the values of the lanes of [tid]'s
    warp from lane 0 to [tid]'s lane, included or not. *)
Definition warp_inclusive_spec (xs : list Z) : list Z :=
  imap (fun tid _ => wrap32 (rsum xs (tid - laneid tid) (S (laneid tid)))) xs.

Definition warp_exclusive_spec (xs : list Z) : list Z :=
  imap (fun tid _ => wrap32 (rsum xs (tid - laneid tid) (laneid tid))) xs.

(* ----------------------------------------------------------------- *)
(** ** Lane arithmetic                                                *)
(* ----------------------------------------------------------------- *)

Lemma laneid_mod tid : laneid tid = tid mod 32.
Proof. unfold laneid. change 31 with (Nat.ones 5). by rewrite Nat.land_ones. Qed.

Lemma warpid_div tid : warpid tid = tid / 32.
Proof. unfold warpid. by rewrite Nat.shiftr_div_pow2. Qed.

Ltac mod32_facts := divmod_facts 32.

Ltac lane_arith := rewrite ?laneid_mod, ?warpid_div in *; mod32_facts; lia.

Lemma laneid_lt tid : laneid tid < 32.
Proof. lane_arith. Qed.

Lemma laneid_sub tid d : d <= laneid tid -> laneid (tid - d) = laneid tid - d.
Proof. intros. lane_arith. Qed.

Lemma laneid_le tid : laneid tid <= tid.
Proof. lane_arith. Qed.

#[export] Hint Resolve laneid_lt laneid_le : scan.

(* ----------------------------------------------------------------- *)
(** ** The Hillis-Steele invariant                                    *)
(* ----------------------------------------------------------------- *)

(** The callers of a warp primitive are whole warps. *)
Definition warp_closed (act : nat -> bool) : Prop :=
  forall t1 t2, warpid t1 = warpid t2 -> act t1 = act t2.

(** After [k] steps, a calling thread [tid] holds the sum of the [w+1]
    values ending at [tid], with [w = min(lane, 2^k - 1)]; the other
    slots are untouched. *)
Definition hs_window (k tid : nat) : nat := Nat.min (laneid tid) (2 ^ k - 1).

Definition hs_inv (act : nat -> bool) (xs : list Z) (k : nat) (s : list Z) : Prop :=
  length s = length xs /\
  forall tid, tid < length xs ->
    s !!! tid = if act tid
                then wrap32 (rsum xs (tid - hs_window k tid) (S (hs_window k tid)))
                else xs !!! tid.

Lemma hs_inv_0 act xs : Forall in_int32 xs -> hs_inv act xs 0 xs.
Proof.
  intros Hx. split; [done|]. intros tid Htid. destruct (act tid); [|done].
  unfold hs_window. simpl. rewrite Nat.min_0_r, Nat.sub_0_r, Nat.add_0_r.
  rewrite wrap32_id; [done|]. by apply Forall_lookup_total_1.
Qed.

(** The two windows that step [d = 2^k] adds up make the window of
    step [k+1]. *)
Lemma hs_window_join xs tid d m' :
  1 <= d -> d + m' <= tid ->
  (rsum xs (tid - (d - 1)) d + rsum xs (tid - d - m') (S m'))%Z
  = rsum xs (tid - (d + m')) (S (d + m')).
Proof.
  intros Hd Ht.
  replace (S (d + m')) with (S m' + d) by lia.
  replace (tid - (d + m')) with (tid - d - m') by lia.
  rewrite rsum_split. replace (tid - d - m' + S m') with (tid - (d - 1)) by lia. lia.
Qed.

Lemma warpid_sub tid d : d <= laneid tid -> warpid (tid - d) = warpid tid.
Proof. intros. lane_arith. Qed.

Lemma hs_inv_step act xs k s :
  warp_closed act -> hs_inv act xs k s -> hs_inv act xs (S k) (scanWarp_step_on act (2 ^ k) s).
Proof.
  intros Hact [Hl Hs]. pose proof (Nat.pow_succ_r' 2 k) as Hpow.
  assert (Hd : 1 <= 2 ^ k) by (apply Nat.pow_le_mono_r with (a := 2) (b := 0); lia).
  unfold scanWarp_step_on. split; [by rewrite length_imap|]. intros tid Htid.
  rewrite imap_lookup_total by lia. unfold hs_window in *.
  destruct (act tid) eqn:Ha; cbn [andb]; [|by rewrite Hs, Ha by lia].
  case_bool_decide as Hc.
  - rewrite Hs, Hs, Ha by lia.
    rewrite (Hact (tid - 2 ^ k) tid), Ha by (by apply warpid_sub).
    rewrite add32_wrap, laneid_sub by done.
    pose proof (laneid_le tid).
    replace (Nat.min (laneid tid) (2 ^ k - 1)) with (2 ^ k - 1) by lia.
    replace (Nat.min (laneid tid) (2 ^ S k - 1))
      with (2 ^ k + Nat.min (laneid tid - 2 ^ k) (2 ^ k - 1)) by lia.
    replace (S (2 ^ k - 1)) with (2 ^ k) by lia.
    rewrite hs_window_join; [done|lia|lia].
  - rewrite Hs, Ha by lia.
    replace (Nat.min (laneid tid) (2 ^ S k - 1)) with (Nat.min (laneid tid) (2 ^ k - 1))
      by lia. done.
Qed.

Lemma scanWarp_levels_inv act xs k :
  warp_closed act -> Forall in_int32 xs -> hs_inv act xs k (scanWarp_levels_on act k xs).
Proof.
  intros Hact Hx. induction k as [|k IH]; [by apply hs_inv_0|].
  unfold scanWarp_levels_on, scan_offsets in *.
  rewrite seq_S, map_app, fold_left_app. simpl. by apply hs_inv_step.
Qed.

(** A calling lane whose index is below [2^k] holds its full warp
    prefix after [k] steps. *)
Lemma scanWarp_levels_lane act xs k tid :
  warp_closed act -> Forall in_int32 xs -> tid < length xs -> act tid = true ->
  laneid tid < 2 ^ k ->
  scanWarp_levels_on act k xs !!! tid = wrap32 (rsum xs (tid - laneid tid) (S (laneid tid))).
Proof.
  intros Hact Hx Ht Ha Hlt. destruct (scanWarp_levels_inv act xs k Hact Hx) as [_ Hs].
  rewrite Hs, Ha by done. unfold hs_window.
  by replace (Nat.min (laneid tid) (2 ^ k - 1)) with (laneid tid) by lia.
Qed.

Lemma length_scanWarp_levels act k xs : length (scanWarp_levels_on act k xs) = length xs.
Proof.
  unfold scanWarp_levels_on. generalize xs.
  induction (scan_offsets k) as [|d ds IH]; intros ys; simpl; [done|].
  rewrite IH. apply length_imap.
Qed.

Lemma length_scanWarp_on act xs : length (scanWarp_on act xs) = length xs.
Proof. apply length_scanWarp_levels. Qed.

Lemma length_scanWarp xs : length (scanWarp xs) = length xs.
Proof. apply length_scanWarp_levels. Qed.

(** The full five-step scan called by warps [act]: a closed form. *)
Lemma scanWarp_on_spec act xs :
  warp_closed act -> Forall in_int32 xs ->
  scanWarp_on act xs
  = imap (fun tid v => if act tid then wrap32 (rsum xs (tid - laneid tid) (S (laneid tid)))
                       else v) xs.
Proof.
  intros Hact Hx. unfold scanWarp_on. apply list_eq_total.
  - by rewrite length_scanWarp_levels, length_imap.
  - intros tid Ht. rewrite length_scanWarp_levels in Ht.
    rewrite imap_lookup_total by done.
    destruct (act tid) eqn:Ha.
    + apply scanWarp_levels_lane; [done|done|done|done|].
      pose proof (laneid_lt tid). simpl. lia.
    + destruct (scanWarp_levels_inv act xs LOG_WARP_SIZE Hact Hx) as [_ Hs].
      by rewrite Hs, Ha.
Qed.

Lemma warp_closed_all : warp_closed (fun _ => true).
Proof. done. Qed.

Lemma warp_closed_warp w : warp_closed (fun tid => bool_decide (warpid tid = w)).
Proof. intros t1 t2 H. by rewrite H. Qed.

#[export] Hint Resolve warp_closed_all warp_closed_warp : scan.

(* ----------------------------------------------------------------- *)
(** ** The warp scans compute warp prefix sums                        *)
(* ----------------------------------------------------------------- *)

(** scanWarp<int,false>, run by every thread of a block on its own slot
    of sPartials, leaves in slot tid (and returns to thread tid) the
    32-bit wrapped sum of the slots of tid's warp from lane 0 up to and
    including tid's lane, for int inputs. *)
Theorem scanWarp_correct xs :
  Forall in_int32 xs -> scanWarp xs = warp_inclusive_spec xs.
Proof. intros Hx. unfold scanWarp. by rewrite scanWarp_on_spec by auto with scan. Qed.

(** scanWarpExclusive returns 0 to lane 0 of each warp and to every
    other lane the wrapped sum of the slots of the lanes before it in
    its warp. *)
Theorem scanWarpExclusive_correct xs :
  Forall in_int32 xs -> scanWarpExclusive xs = warp_exclusive_spec xs.
Proof.
  intros Hx. unfold scanWarpExclusive. rewrite scanWarp_correct by done.
  unfold warp_inclusive_spec, warp_exclusive_spec.
  apply list_eq_total; [by rewrite !length_imap|]. intros tid Ht.
  rewrite !length_imap in Ht. rewrite !imap_lookup_total by (rewrite ?length_imap; lia).
  case_decide as Hl0.
  - by rewrite Hl0.
  - rewrite laneid_sub by lia. pose proof (laneid_le tid).
    do 2 f_equal; lia.
Qed.

Lemma scan_step_int32 d s :
  Forall in_int32 s -> Forall in_int32 (scanWarp_step_on (fun _ => true) d s).
Proof.
  intros Hs. apply Forall_int32_imap. intros i x Hi.
  case_match; [apply add32_in_int32|]. exact (Forall_lookup_1 _ _ _ _ Hs Hi).
Qed.

Lemma scanWarp_levels_int32 levels s :
  Forall in_int32 s -> Forall in_int32 (scanWarp_levels_on (fun _ => true) levels s).
Proof.
  unfold scanWarp_levels_on. revert s.
  induction (scan_offsets levels) as [|d ds IH]; intros s Hs; [done|]. cbn [fold_left].
  by apply IH, scan_step_int32.
Qed.

(** The shuffle scan of [levels] steps is the shared-memory scan of
    [levels] steps run by every thread. *)
Lemma shfl_levels levels xs :
  inclusive_scan_warp_shfl levels xs = scanWarp_levels_on (fun _ => true) levels xs.
Proof.
  assert (Hstep : forall d r, scan_warp_shfl_step d r = scanWarp_step_on (fun _ => true) d r).
  { intros d r. apply imap_ext. intros tid v _. unfold shfl_up. simpl.
    by case_decide; case_bool_decide. }
  unfold inclusive_scan_warp_shfl, scanWarp_levels_on.
  generalize xs. induction (scan_offsets levels) as [|d ds IH]; intros ys; simpl; [done|].
  by rewrite Hstep, IH.
Qed.

(** On a list of at most [2^levels <= 32] lanes (warp 0), the shuffle
    scan of [levels] steps gives every lane its prefix sum. *)
Lemma shfl_levels_prefix levels xs k :
  Forall in_int32 xs -> k < length xs -> k < 32 -> k < 2 ^ levels ->
  inclusive_scan_warp_shfl levels xs !!! k = wrap32 (rsum xs 0 (S k)).
Proof.
  intros Hx Hk H32 Hl. rewrite shfl_levels.
  rewrite scanWarp_levels_lane by (done || lane_arith).
  replace (laneid k) with k by lane_arith. by rewrite Nat.sub_diag.
Qed.

(** The shuffle strategy and the shared-memory strategy compute the same
    values, step by step: inclusive_scan_warp_shfl<5> equals scanWarp on
    every input, and exclusive_scan_warp_shfl<5> (inclusive minus own
    value) equals scanWarpExclusive on int inputs. *)
Theorem shuffle_equals_shared xs :
  inclusive_scan_warp_shfl LOG_WARP_SIZE xs = scanWarp xs
  /\ (Forall in_int32 xs -> exclusive_scan_warp_shfl LOG_WARP_SIZE xs = scanWarpExclusive xs).
Proof.
  assert (Hincl : inclusive_scan_warp_shfl LOG_WARP_SIZE xs = scanWarp xs)
    by apply shfl_levels.
  split; [done|]. intros Hx.
  rewrite scanWarpExclusive_correct by done. unfold exclusive_scan_warp_shfl.
  rewrite Hincl, scanWarp_correct by done.
  unfold warp_inclusive_spec, warp_exclusive_spec.
  apply list_eq_total.
  - rewrite length_zip_with, !length_imap. lia.
  - intros tid Ht. rewrite length_zip_with, length_imap in Ht.
    rewrite zip_with_lookup_total by (rewrite ?length_imap; lia).
    rewrite !imap_lookup_total by lia.
    rewrite <- (wrap32_id (xs !!! tid)) at 1
      by (apply Forall_lookup_total_1; [exact Hx|lia]).
    rewrite sub32_wrap. f_equal. simpl.
    replace (tid - laneid tid + laneid tid) with tid by (pose proof (laneid_le tid); lia).
    lia.
Qed.


End WarpScan.
