(* ===== verification/ZeroPad.v ===== *)
(** * ZeroPad: the zero-padded warp scan [scanWarp<int,true>]

    The kernels [ScanInclusiveGPUWarp_0] and [ScanExclusiveGPUWarp_0] of
    src/scan/warp/testScanBlock.cu (lines 251-264 and 284-298) use the
    zero-padded warp scan of scanZeroPad.cuh, which is not under src/;
    it follows the specification (section 4.1, edge-case policy): the
    slots of each warp follow 16 slots that hold zero, so that the
    unconditional read [s[-d]] of a lane below [d] reads the identity.

    - [sIndex]: [scanSharedIndex<true>(tid)], the slot of thread [tid]:
      warp [w] owns the 48 slots from [48 w], the first 16 of them the
      padding.  The kernels' [sPartials[sIndex-16] = 0] fixes the
      padding at 16 slots before lane 0.
    - [zp_clear]: the kernels' prologue [sPartials[sIndex-16] = 0];
      [zp_store]: [sPartials[sIndex] = in[i+threadIdx.x]].
    - [scanWarpZP_step], [scanWarpZP]: the five lockstep steps
      [t = s[0] + s[-d]; s[0] = t] of every thread, without a bounds
      check.
    - [zp_gather]: the slots of the threads, in thread order.

    The theorems: the padding stays zero, and the gathered slots after
    each step are those of the bounds-checked [scanWarp_step_on] of
    [WarpScan]: the zero-padded scan refines the bounds-checked one. *)

From Stdlib Require Import ZArith Lia.
From stdpp Require Import base list options.
From S2P Require Import Prelude WarpScan.

Module ZeroPad.
Import WarpScan.

(** [scanSharedIndex<true>(tid)]. *)
Definition sIndex (tid : nat) : nat := 48 * warpid tid + 16 + laneid tid.

(** The thread whose slot is [a], when [a] is a slot and not padding. *)
Definition zp_tid (a : nat) : nat := 32 * (a / 48) + (a mod 48 - 16).

(** [a] is the slot of one of the [n] threads. *)
Definition zp_slot (n a : nat) : bool := bool_decide (16 <= a mod 48 /\ zp_tid a < n).

(** The prologue [sPartials[sIndex-16] = 0] of the [n] threads: the
    cell [sIndex tid - 16 = 48 w + lane] is cleared. *)
Definition zp_clear (n : nat) (sh : list Z) : list Z :=
  imap (fun a v => if bool_decide (a mod 48 < 32 /\ 32 * (a / 48) + a mod 48 < n) then 0%Z else v)
    sh.

(** [sPartials[sIndex] = in[i+threadIdx.x]] for every thread. *)
Definition zp_store (xs : list Z) (sh : list Z) : list Z :=
  imap (fun a v => if zp_slot (length xs) a then xs !!! zp_tid a else v) sh.

(** One lockstep step of [scanWarp<int,true>] over the [n] threads:
    every slot adds the cell [d] below it, padding or not. *)
Definition scanWarpZP_step (n d : nat) (sh : list Z) : list Z :=
  imap (fun a v => if zp_slot n a then add32 v (sh !!! (a - d)) else v) sh.

Definition scanWarpZP (n : nat) (sh : list Z) : list Z :=
  fold_left (fun s d => scanWarpZP_step n d s) (scan_offsets LOG_WARP_SIZE) sh.

(** The threads' slots, in thread order. *)
Definition zp_gather (n : nat) (sh : list Z) : list Z := map (fun tid => sh !!! sIndex tid) (seq 0 n).

(** A padded array of [nw] warps: [48 nw] cells, the padding zero. *)
Definition zp_wf (nw : nat) (sh : list Z) : Prop :=
  length sh = 48 * nw /\ forall a, a < 48 * nw -> a mod 48 < 16 -> sh !!! a = 0%Z.

(* ----------------------------------------------------------------- *)
(** ** Slot arithmetic                                                *)
(* ----------------------------------------------------------------- *)

Ltac zp_arith :=
  unfold sIndex, zp_tid in *; rewrite ?laneid_mod, ?warpid_div in *;
  divmod_facts 32; divmod_facts 48; lia.

Lemma sIndex_lt nw tid : tid < 32 * nw -> sIndex tid < 48 * nw.
Proof. intros. zp_arith. Qed.

Lemma zp_slot_sIndex n tid : tid < n -> zp_slot n (sIndex tid) = true.
Proof. intros. unfold zp_slot. apply bool_decide_eq_true. zp_arith. Qed.

Lemma zp_tid_sIndex tid : zp_tid (sIndex tid) = tid.
Proof. zp_arith. Qed.

Lemma sIndex_sub tid d : d <= laneid tid -> sIndex tid - d = sIndex (tid - d).
Proof. intros. zp_arith. Qed.

Lemma sIndex_pad tid d : laneid tid < d <= 16 -> (sIndex tid - d) mod 48 < 16.
Proof. intros. zp_arith. Qed.

Lemma sIndex_pad_1 tid : laneid tid = 0 -> (sIndex tid - 1) mod 48 < 16.
Proof. intros. zp_arith. Qed.

Lemma zp_slot_pad n a : a mod 48 < 16 -> zp_slot n a = false.
Proof. intros. unfold zp_slot. apply bool_decide_eq_false. lia. Qed.

Lemma zp_gather_lookup n sh tid : tid < n -> zp_gather n sh !!! tid = sh !!! sIndex tid.
Proof.
  intros. unfold zp_gather. by rewrite list_lookup_total_alt, list_lookup_fmap, lookup_seq_lt.
Qed.

Lemma length_zp_gather n sh : length (zp_gather n sh) = n.
Proof. unfold zp_gather. by rewrite length_map, length_seq. Qed.

(* ----------------------------------------------------------------- *)
(** ** The padding, and the refinement of the bounds-checked scan     *)
(* ----------------------------------------------------------------- *)

Section Padded.
Local Unset Default Proof Using.
Context (nw : nat).

(** A map that changes only the threads' slots keeps the padding. *)
Lemma zp_wf_imap (f : nat -> Z -> Z) sh :
  zp_wf nw sh -> (forall a v, a mod 48 < 16 -> f a v = v) -> zp_wf nw (imap f sh).
Proof.
  intros [Hl Hp] Hf. split; [by rewrite length_imap|]. intros a Ha Hm.
  rewrite imap_lookup_total by lia. rewrite Hf by done. auto.
Qed.

Lemma zp_clear_wf sh : length sh = 48 * nw -> zp_wf nw (zp_clear (32 * nw) sh).
Proof.
  intros Hl. split; [unfold zp_clear; by rewrite length_imap|]. intros a Ha Hm.
  unfold zp_clear. rewrite imap_lookup_total by lia.
  rewrite bool_decide_eq_true_2; [done|]. divmod_facts 48. lia.
Qed.

Lemma zp_step_wf n d sh : zp_wf nw sh -> zp_wf nw (scanWarpZP_step n d sh).
Proof. intros Hw. apply zp_wf_imap; [done|]. intros a v Hm. by rewrite zp_slot_pad. Qed.

Lemma zp_store_wf xs sh : zp_wf nw sh -> zp_wf nw (zp_store xs sh).
Proof. intros Hw. apply zp_wf_imap; [done|]. intros a v Hm. by rewrite zp_slot_pad. Qed.

Lemma zp_gather_store xs sh :
  zp_wf nw sh -> length xs = 32 * nw -> zp_gather (32 * nw) (zp_store xs sh) = xs.
Proof.
  intros [Hl _] Hx. apply list_eq_total; [by rewrite length_zp_gather|].
  intros tid Ht. rewrite length_zp_gather in Ht. rewrite zp_gather_lookup by done.
  unfold zp_store. rewrite imap_lookup_total by (pose proof (sIndex_lt nw tid); lia).
  by rewrite Hx, zp_slot_sIndex, zp_tid_sIndex.
Qed.

(** One step on the padded array, seen on the threads' slots, is one
    step of the bounds-checked scan: a lane below [d] reads a zero of
    the padding, which adds nothing to an [int]. *)
Lemma zp_gather_step d sh :
  zp_wf nw sh -> 1 <= d <= 16 -> Forall in_int32 (zp_gather (32 * nw) sh) ->
  zp_gather (32 * nw) (scanWarpZP_step (32 * nw) d sh)
  = scanWarp_step_on (fun _ => true) d (zp_gather (32 * nw) sh).
Proof.
  intros [Hl Hp] Hd Hx. unfold scanWarp_step_on.
  apply list_eq_total; [by rewrite length_imap, !length_zp_gather|].
  intros tid Ht. rewrite length_zp_gather in Ht. pose proof (sIndex_lt nw tid Ht).
  rewrite zp_gather_lookup, imap_lookup_total by (rewrite ?length_zp_gather; lia).
  unfold scanWarpZP_step. rewrite imap_lookup_total by lia.
  rewrite zp_slot_sIndex by done. cbn [andb]. rewrite zp_gather_lookup by done.
  case_bool_decide as Hlane.
  - rewrite sIndex_sub by done. by rewrite zp_gather_lookup by lia.
  - rewrite (Hp (sIndex tid - d)); [|lia|apply sIndex_pad; lia].
    rewrite <- (zp_gather_lookup (32 * nw) sh tid) by done.
    unfold add32. rewrite Z.add_0_r. apply wrap32_id.
    by apply int32_lookup_total.
Qed.


(** The five steps: the gathered slots are [scanWarp] of the gathered
    inputs, and the padding is still zero. *)
Lemma zp_gather_scan sh :
  zp_wf nw sh -> Forall in_int32 (zp_gather (32 * nw) sh) ->
  zp_wf nw (scanWarpZP (32 * nw) sh)
  /\ zp_gather (32 * nw) (scanWarpZP (32 * nw) sh) = scanWarp (zp_gather (32 * nw) sh).
Proof.
  unfold scanWarpZP, scanWarp, scanWarp_on, scanWarp_levels_on.
  assert (Hds : Forall (fun d => 1 <= d <= 16) (scan_offsets LOG_WARP_SIZE)) by (repeat constructor; lia).
  revert sh. induction Hds as [|d ds Hd _ IH]; intros sh Hw Hx; [done|]. cbn [fold_left].
  rewrite <- zp_gather_step by done.
  apply IH; [by apply zp_step_wf|]. rewrite zp_gather_step by done. by apply scan_step_int32.
Qed.

End Padded.

End ZeroPad.
