(* ===== verification/BlockScan.v ===== *)
(** * BlockScan: the two-level block scan [scanBlock]

    [scanBlock<int,false>(sPartials+tid, scanWarp<int,false>)], which
    the kernel [ScanGPUBlock] of testScanBlock.cu calls (src/scan/warp/
    testScanBlock.cu, line 179), is defined in scanBlock.cuh, which is
    not under src/; it follows the specification (section 4.2):

    - phase A, per warp: the warp scan of its slots, the result kept in
      the thread's register [sum]; lane 31 writes the warp's total to
      [warpPartials[warpid]];
    - barrier; phase B: warp 0 scans the 32 warp totals;
    - barrier; phase C, per warp: a warp [w > 0] adds the carry-in
      [warpPartials[w-1]] to [sum], and every thread writes [sum] back to
      its slot (the exclusive variant of the kernel reads it there);
    - barrier.

    The block's shared state is a [BState]: the per-thread slots
    [sPartials], the per-warp totals [warpPartials] (a region of its own
    with explicit phase ownership, as section 9 of the specification
    asks), and the per-thread registers.  A barrier interval is a list of
    per-warp actions that the hardware scheduler runs in any order
    ([run_phase] over an order of the warps); the actions of a warp are
    atomic in this model, which loses no behaviour because, within an
    interval, no warp reads a cell another warp writes (phases A and C
    touch only the warp's own slots, registers and total; phase B only
    warp 0 acts).

    The theorems: the well-formedness invariant is preserved; within a
    barrier interval, the actions of two warps commute, so any order of
    the warps gives the same state; the block scan computes the
    block-wide inclusive prefix sums; and without the barrier between
    phases B and C some order of the warps reads a carry-in that has not
    been scanned yet and gives a wrong result. *)

From Stdlib Require Import ZArith Lia Permutation.
From stdpp Require Import base list options.
From S2P Require Import Prelude WarpScan.

Module BlockScan.
Import WarpScan.

(** The block's shared state. *)
Record BState := mkBState {
  sPartials : list Z;     (** one slot per thread *)
  warpPartials : list Z;  (** one slot per warp: 32 slots *)
  sums : list Z           (** each thread's register [sum] *)
}.

(** [warpid == w] *)
Definition in_warp (w tid : nat) : bool := bool_decide (warpid tid = w).

(** Phase A, run by warp [w]:
    [T sum = scanWarp(sPartials); if (lane == 31) warpPartials[warpid] = sum;] *)
Definition phaseA (w : nat) (st : BState) : BState :=
  let sh := scanWarp_on (in_warp w) (sPartials st) in
  {| sPartials := sh;
     warpPartials := <[w := sh !!! (32 * w + 31)]> (warpPartials st);
     sums := imap (fun tid r => if in_warp w tid then sh !!! tid else r) (sums st) |}.

(** Phase B, run by warp [w]: [if (warpid == 0) scanWarp(warpPartials + tid);] *)
Definition phaseB (w : nat) (st : BState) : BState :=
  if decide (w = 0)
  then {| sPartials := sPartials st; warpPartials := scanWarp (warpPartials st);
          sums := sums st |}
  else st.

(** Phase C, run by warp [w]:
    [if (warpid > 0) sum += warpPartials[warpid-1]; *sPartials = sum;] *)
Definition phaseC (w : nat) (st : BState) : BState :=
  let carry (tid : nat) (r : Z) :=
    if bool_decide (0 < w) then add32 r (warpPartials st !!! (w - 1)) else r in
  {| sPartials := imap (fun tid v => if in_warp w tid then carry tid (sums st !!! tid) else v)
                    (sPartials st);
     warpPartials := warpPartials st;
     sums := imap (fun tid r => if in_warp w tid then carry tid r else r) (sums st) |}.

(** One barrier interval: the warps run their actions in [order]. *)
Definition run_phase {S} (act : nat -> S -> S) (order : list nat) (st : S) : S :=
  fold_left (fun st w => act w st) order st.

(** The warps of a block of [nthreads] threads. *)
Definition warps (nthreads : nat) : list nat := seq 0 (nthreads / 32).

(** [scanBlock] under a schedule: the order of the warps in each of the
    three barrier intervals. *)
Definition scanBlock_sched (oA oB oC : list nat) (st : BState) : BState :=
  run_phase phaseC oC (run_phase phaseB oB (run_phase phaseA oA st)).

(** [scanBlock] with the warps in ascending order. *)
Definition scanBlock (nthreads : nat) (st : BState) : BState :=
  scanBlock_sched (warps nthreads) (warps nthreads) (warps nthreads) st.

(** The same code without the barrier between phases B and C: each warp
    runs B then C, the warps in some order. *)
Definition scanBlock_no_barrier_BC (oA oBC : list nat) (st : BState) : BState :=
  run_phase (fun w st => phaseC w (phaseB w st)) oBC (run_phase phaseA oA st).

(** The block-wide inclusive scan. *)
Definition block_inclusive_spec (xs : list Z) : list Z :=
  imap (fun tid _ => wrap32 (rsum xs 0 (S tid))) xs.

(** The block-wide exclusive scan. *)
Definition block_exclusive_spec (xs : list Z) : list Z :=
  imap (fun tid _ => wrap32 (rsum xs 0 tid)) xs.

(** Well-formedness: the sizes of the arrays and every value an [int]. *)
Definition bs_wf (n : nat) (st : BState) : Prop :=
  length (sPartials st) = n /\ length (sums st) = n /\ length (warpPartials st) = 32 /\
  Forall in_int32 (sPartials st) /\ Forall in_int32 (warpPartials st) /\
  Forall in_int32 (sums st).

#[export] Instance bs_wf_dec n st : Decision (bs_wf n st).
Proof. unfold bs_wf. apply _. Defined.

(* ----------------------------------------------------------------- *)
(** ** The phases, slot by slot                                       *)
(* ----------------------------------------------------------------- *)

(** The warp prefix of [tid] in [s]. *)
Definition wsum (s : list Z) (tid : nat) : Z :=
  wrap32 (rsum s (tid - laneid tid) (S (laneid tid))).

Lemma wsum_ext s1 s2 tid :
  (forall i, warpid i = warpid tid -> s1 !!! i = s2 !!! i) -> wsum s1 tid = wsum s2 tid.
Proof.
  intros H. unfold wsum. f_equal. apply rsum_ext. intros i Hi. apply H. lane_arith.
Qed.

Lemma in_warp_spec w tid : in_warp w tid = true <-> warpid tid = w.
Proof. unfold in_warp. by rewrite bool_decide_eq_true. Qed.

Lemma in_warp_false w tid : in_warp w tid = false <-> warpid tid <> w.
Proof. unfold in_warp. by rewrite bool_decide_eq_false. Qed.

Lemma imap_warp_other w (f : nat -> Z -> Z) (l : list Z) i :
  warpid i <> w ->
  imap (fun tid r => if in_warp w tid then f tid r else r) l !!! i = l !!! i.
Proof.
  intros Hw. destruct (decide (i < length l)).
  - rewrite imap_lookup_total by done. unfold in_warp. by rewrite bool_decide_false.
  - rewrite !list_lookup_total_alt, !lookup_ge_None_2 by (rewrite ?length_imap; lia).
    done.
Qed.

Ltac in_warp_facts :=
  repeat match goal with
  | H : in_warp _ _ = true |- _ => apply in_warp_spec in H
  | H : in_warp _ _ = false |- _ => apply in_warp_false in H
  end.

Lemma scan_in_warp_own w s tid :
  Forall in_int32 s -> warpid tid = w -> tid < length s ->
  scanWarp_on (in_warp w) s !!! tid = wsum s tid.
Proof.
  intros Hs Hw Ht. rewrite scanWarp_on_spec by (auto with scan; apply warp_closed_warp).
  rewrite imap_lookup_total by done. unfold in_warp. by rewrite bool_decide_true.
Qed.

Lemma scan_in_warp_other w s i :
  Forall in_int32 s -> warpid i <> w -> scanWarp_on (in_warp w) s !!! i = s !!! i.
Proof.
  intros Hs Hw. rewrite scanWarp_on_spec by (auto with scan; apply warp_closed_warp).
  destruct (decide (i < length s)).
  - rewrite imap_lookup_total by done. unfold in_warp. by rewrite bool_decide_false.
  - rewrite !list_lookup_total_alt, !lookup_ge_None_2 by (rewrite ?length_imap; lia).
    done.
Qed.

Lemma scan_in_warp_int32 w s :
  Forall in_int32 s -> Forall in_int32 (scanWarp_on (in_warp w) s).
Proof.
  intros Hs. rewrite scanWarp_on_spec by (auto with scan; apply warp_closed_warp).
  apply Forall_int32_imap. intros i x Hx. destruct (in_warp w i); [apply wrap32_in_int32|].
  by eapply Forall_lookup_1.
Qed.

Lemma length_scan_in_warp w s : length (scanWarp_on (in_warp w) s) = length s.
Proof. apply length_scanWarp_levels. Qed.

#[export] Hint Resolve scan_in_warp_int32 : scan.

(* ----------------------------------------------------------------- *)
(** ** The well-formedness invariant                                  *)
(* ----------------------------------------------------------------- *)

Lemma phaseA_wf n w st : bs_wf n st -> bs_wf n (phaseA w st).
Proof.
  intros (H1 & H2 & H3 & H4 & H5 & H6). unfold phaseA, bs_wf; simpl.
  rewrite length_imap, length_insert, length_scan_in_warp.
  split_and!; try done.
  - auto with scan.
  - apply Forall_insert; auto with scan.
  - apply Forall_int32_imap. intros i x Hx. destruct (in_warp w i); [auto with scan|].
    by eapply Forall_lookup_1.
Qed.

Lemma phaseB_wf n w st : bs_wf n st -> bs_wf n (phaseB w st).
Proof.
  intros Hwf. unfold phaseB. case_decide; [|done].
  destruct Hwf as (H1 & H2 & H3 & H4 & H5 & H6). unfold bs_wf; simpl.
  rewrite length_scanWarp.
  split_and!; try done. unfold scanWarp. rewrite scanWarp_on_spec by (auto with scan).
  apply Forall_int32_imap. intros i x _. apply wrap32_in_int32.
Qed.

Lemma phaseC_wf n w st : bs_wf n st -> bs_wf n (phaseC w st).
Proof.
  intros (H1 & H2 & H3 & H4 & H5 & H6). unfold phaseC, bs_wf; simpl.
  rewrite !length_imap. split_and!; try done.
  - apply Forall_int32_imap. intros i x Hx.
    destruct (in_warp w i); simpl; [|exact (Forall_lookup_1 _ _ _ _ H4 Hx)].
    case_bool_decide; [apply add32_in_int32|auto with scan].
  - apply Forall_int32_imap. intros i x Hx.
    destruct (in_warp w i); simpl; [|exact (Forall_lookup_1 _ _ _ _ H6 Hx)].
    case_bool_decide; [apply add32_in_int32|exact (Forall_lookup_1 _ _ _ _ H6 Hx)].
Qed.

#[export] Hint Resolve phaseA_wf phaseB_wf phaseC_wf : scan.

(* ----------------------------------------------------------------- *)
(** ** Within a barrier interval the warps commute                    *)
(* ----------------------------------------------------------------- *)

Lemma warpid_lane31 w : warpid (32 * w + 31) = w.
Proof. lane_arith. Qed.

Lemma scan_in_warp_comm w1 w2 s :
  w1 <> w2 -> Forall in_int32 s ->
  scanWarp_on (in_warp w1) (scanWarp_on (in_warp w2) s)
  = scanWarp_on (in_warp w2) (scanWarp_on (in_warp w1) s).
Proof.
  intros Hne Hs. apply list_eq_total; [by rewrite !length_scan_in_warp|].
  intros tid Ht. rewrite !length_scan_in_warp in Ht.
  assert (Hs1 := scan_in_warp_int32 w1 s Hs). assert (Hs2 := scan_in_warp_int32 w2 s Hs).
  destruct (decide (warpid tid = w1)) as [H1|H1];
    [|destruct (decide (warpid tid = w2)) as [H2|H2]].
  - rewrite (scan_in_warp_own w1) by (rewrite ?length_scan_in_warp; done).
    rewrite (scan_in_warp_other w2) by (done || lia).
    rewrite (scan_in_warp_own w1) by done.
    apply wsum_ext. intros i Hi. apply scan_in_warp_other; [done|lia].
  - rewrite (scan_in_warp_other w1) by (done || lia).
    rewrite (scan_in_warp_own w2) by done.
    rewrite (scan_in_warp_own w2) by (rewrite ?length_scan_in_warp; done).
    symmetry. apply wsum_ext. intros i Hi. apply scan_in_warp_other; [done|lia].
  - rewrite !scan_in_warp_other by (auto with scan). done.
Qed.

Lemma phaseA_comm n w1 w2 st :
  w1 <> w2 -> bs_wf n st -> phaseA w1 (phaseA w2 st) = phaseA w2 (phaseA w1 st).
Proof.
  intros Hne (H1 & H2 & H3 & H4 & H5 & H6). destruct st as [sh wp rg]; simpl in *.
  unfold phaseA; simpl. rewrite (scan_in_warp_comm w1 w2) by done.
  assert (Hs1 := scan_in_warp_int32 w1 sh H4). assert (Hs2 := scan_in_warp_int32 w2 sh H4).
  (* [S12] at a slot of warp [w1] is what warp [w1] alone computed, and
     likewise for [w2] *)
  assert (E1 : forall i, warpid i = w1 ->
    scanWarp_on (in_warp w2) (scanWarp_on (in_warp w1) sh) !!! i
    = scanWarp_on (in_warp w1) sh !!! i).
  { intros i Hi. apply scan_in_warp_other; [done|lia]. }
  assert (E2 : forall i, warpid i = w2 ->
    scanWarp_on (in_warp w2) (scanWarp_on (in_warp w1) sh) !!! i
    = scanWarp_on (in_warp w2) sh !!! i).
  { intros i Hi. rewrite <- (scan_in_warp_comm w1 w2) by done.
    apply scan_in_warp_other; [done|lia]. }
  apply (f_equal3 mkBState); [reflexivity| |].
  - rewrite E1, E2 by apply warpid_lane31. by apply list_insert_insert_ne.
  - apply list_eq_total; [by rewrite !length_imap|]. intros tid Ht.
    rewrite !length_imap in Ht. rewrite !imap_lookup_total by (rewrite ?length_imap; lia).
    destruct (in_warp w1 tid) eqn:Hw1, (in_warp w2 tid) eqn:Hw2; simpl;
      in_warp_facts; try lia.
    + by rewrite E1.
    + by rewrite E2.
Qed.

Lemma phaseB_other w st : w <> 0 -> phaseB w st = st.
Proof. intros. unfold phaseB. by case_decide. Qed.

Lemma phaseB_comm w1 w2 st : w1 <> w2 -> phaseB w1 (phaseB w2 st) = phaseB w2 (phaseB w1 st).
Proof.
  intros Hne. destruct (decide (w1 = 0)) as [->|H1].
  - rewrite !(phaseB_other w2) by lia. done.
  - rewrite !(phaseB_other w1) by done. done.
Qed.

Lemma phaseC_comm n w1 w2 st :
  w1 <> w2 -> bs_wf n st -> phaseC w1 (phaseC w2 st) = phaseC w2 (phaseC w1 st).
Proof.
  intros Hne (H1 & H2 & _). destruct st as [sh wp rg]; simpl in *.
  unfold phaseC; simpl. f_equal.
  - apply list_eq_total; [by rewrite !length_imap|]. intros tid Ht.
    rewrite !length_imap in Ht. rewrite !imap_lookup_total by (rewrite ?length_imap; lia).
    destruct (in_warp w1 tid) eqn:Hw1, (in_warp w2 tid) eqn:Hw2; simpl;
      in_warp_facts; try lia; try done.
  - apply list_eq_total; [by rewrite !length_imap|]. intros tid Ht.
    rewrite !length_imap in Ht. rewrite !imap_lookup_total by (rewrite ?length_imap; lia).
    destruct (in_warp w1 tid) eqn:Hw1, (in_warp w2 tid) eqn:Hw2; simpl;
      in_warp_facts; try lia; done.
Qed.

Lemma NoDup_warps n : NoDup (warps n).
Proof. apply NoDup_seq. Qed.

(** Within each barrier interval of scanBlock, the order in which the
    hardware runs the warps does not matter: every schedule that runs
    each warp once per interval ends in the same state as the ascending
    one. *)
Theorem scanBlock_schedule_independent n oA oB oC st :
  bs_wf n st ->
  Permutation (warps n) oA -> Permutation (warps n) oB -> Permutation (warps n) oC ->
  scanBlock_sched oA oB oC st = scanBlock n st.
Proof.
  intros Hwf HA HB HC. unfold scanBlock, scanBlock_sched, run_phase.
  rewrite <- (fold_act_perm (bs_wf n) phaseA (phaseA_wf n) (phaseA_comm n) (warps n) oA)
    by auto using NoDup_warps.
  assert (HwA := fold_act_wf (bs_wf n) phaseA (phaseA_wf n) (warps n) st Hwf).
  rewrite <- (fold_act_perm (fun _ => True) phaseB (fun _ _ _ => I)
               (fun w1 w2 s H _ => phaseB_comm w1 w2 s H) (warps n) oB)
    by auto using NoDup_warps.
  rewrite <- (fold_act_perm (bs_wf n) phaseC (phaseC_wf n) (phaseC_comm n) (warps n) oC);
    [done|apply NoDup_warps|done|].
  apply (fold_act_wf (bs_wf n) phaseB (phaseB_wf n)). done.
Qed.

(* ----------------------------------------------------------------- *)
(** ** The block scan computes the block-wide prefix sums             *)
(* ----------------------------------------------------------------- *)

Lemma run_phaseB_rest j m s : run_phase phaseB (seq (S j) m) s = s.
Proof.
  revert j s. induction m as [|m IH]; intros j s; [done|].
  simpl. rewrite phaseB_other by lia. apply IH.
Qed.

Lemma run_phase_snoc {St} (act : nat -> St -> St) k s :
  run_phase act (seq 0 (S k)) s = act k (run_phase act (seq 0 k) s).
Proof. unfold run_phase. by rewrite seq_S, fold_left_app. Qed.

Section BlockCorrect.
Local Unset Default Proof Using.
Context (nw : nat) (st : BState).
Hypothesis Hnw : 1 <= nw <= 32.
Hypothesis Hwf : bs_wf (32 * nw) st.

Local Abbreviation xs := (sPartials st).
Local Abbreviation n := (32 * nw).

Lemma warps_block : warps n = seq 0 nw.
Proof. unfold warps. by rewrite Nat.mul_comm, Nat.div_mul. Qed.

(** After phase A has run for warps [0 .. k-1]. *)
Definition after_A (k : nat) (s : BState) : Prop :=
  bs_wf n s /\
  (forall tid, tid < n -> sPartials s !!! tid
     = if bool_decide (warpid tid < k) then wsum xs tid else xs !!! tid) /\
  (forall tid, tid < n -> sums s !!! tid
     = if bool_decide (warpid tid < k) then wsum xs tid else sums st !!! tid) /\
  (forall w, w < 32 -> warpPartials s !!! w
     = if bool_decide (w < k) then wsum xs (32 * w + 31) else warpPartials st !!! w).

Lemma after_A_step k s : k < nw -> after_A k s -> after_A (S k) (phaseA k s).
Proof.
  intros Hk (Hw & Hsh & Hsu & Hwp).
  destruct Hw as (L1 & L2 & L3 & I1 & I2 & I3).
  assert (Hown : forall tid, tid < n -> warpid tid = k ->
            scanWarp_on (in_warp k) (sPartials s) !!! tid = wsum xs tid).
  { intros tid Ht Hwt. rewrite scan_in_warp_own by (done || lia).
    apply wsum_ext. intros i Hi. destruct (decide (i < n)).
    - rewrite Hsh by done. rewrite bool_decide_false by lia. done.
    - rewrite !lookup_total_ge by (destruct Hwf as (? & _); lia). done. }
  split; [by apply phaseA_wf; split_and!|]. split_and!.
  - intros tid Ht. cbn [phaseA sPartials sums warpPartials]. destruct (decide (warpid tid = k)) as [Hwt|Hwt].
    + rewrite Hown by done. rewrite bool_decide_true by lia. done.
    + rewrite scan_in_warp_other, Hsh by done.
      do 2 case_bool_decide; done || lia.
  - intros tid Ht. cbn [phaseA sPartials sums warpPartials]. rewrite imap_lookup_total by lia.
    destruct (in_warp k tid) eqn:Hin; in_warp_facts.
    + rewrite Hown by done. rewrite bool_decide_true by lia. done.
    + rewrite Hsu by done. do 2 case_bool_decide; done || lia.
  - intros w Hw32. cbn [phaseA sPartials sums warpPartials]. destruct (decide (w = k)) as [->|Hne].
    + rewrite list_lookup_total_insert_eq by lia.
      rewrite Hown by (rewrite ?warpid_lane31; lia).
      rewrite bool_decide_true by lia. done.
    + rewrite list_lookup_total_insert_ne by done. rewrite Hwp by done.
      do 2 case_bool_decide; done || lia.
Qed.

Lemma after_A_all : after_A nw (run_phase phaseA (seq 0 nw) st).
Proof.
  assert (H : forall k, k <= nw -> after_A k (run_phase phaseA (seq 0 k) st)).
  { induction k as [|k IH]; intros Hk.
    - split; [done|]. split_and!; intros; by rewrite bool_decide_false by lia.
    - rewrite run_phase_snoc. apply after_A_step; [lia|]. apply IH. lia. }
  by apply H.
Qed.

(** The warp totals summed up to warp [k] give the block prefix. *)
Lemma carry_in_sum s k :
  after_A nw s -> k <= nw ->
  wrap32 (rsum (warpPartials s) 0 k) = wrap32 (rsum xs 0 (32 * k)).
Proof.
  intros HA. induction k as [|k IH]; intros Hk; [done|].
  destruct HA as (_ & _ & _ & Hwp). cbn [rsum]. rewrite Nat.add_0_l.
  rewrite <- wrap32_add_l, IH by lia. rewrite wrap32_add_l.
  rewrite Hwp by lia. rewrite bool_decide_true by lia.
  unfold wsum. rewrite wrap32_add_r.
  replace (laneid (32 * k + 31)) with 31 by lane_arith.
  replace (32 * k + 31 - 31) with (32 * k) by lia.
  replace (32 * S k) with (32 * k + 32) by lia. rewrite rsum_split. done.
Qed.

(** After phase C has run for warps [0 .. k-1], from the state [sB]
    after phase B. *)
Definition carry (aux : list Z) (w : nat) (r : Z) : Z :=
  if bool_decide (0 < w) then add32 r (aux !!! (w - 1)) else r.

Definition after_C (sB : BState) (k : nat) (s : BState) : Prop :=
  bs_wf n s /\ warpPartials s = warpPartials sB /\
  (forall tid, tid < n -> sums s !!! tid
     = if bool_decide (warpid tid < k)
       then carry (warpPartials sB) (warpid tid) (sums sB !!! tid) else sums sB !!! tid) /\
  (forall tid, tid < n -> sPartials s !!! tid
     = if bool_decide (warpid tid < k)
       then carry (warpPartials sB) (warpid tid) (sums sB !!! tid)
       else sPartials sB !!! tid).

Lemma after_C_all sB :
  bs_wf n sB -> after_C sB nw (run_phase phaseC (seq 0 nw) sB).
Proof.
  intros HwB. assert (H : forall k, k <= nw -> after_C sB k (run_phase phaseC (seq 0 k) sB)).
  { induction k as [|k IH]; intros Hk.
    - split; [done|]. split; [done|]. split; intros; by rewrite bool_decide_false by lia.
    - rewrite run_phase_snoc. destruct (IH ltac:(lia)) as (Hw & Hwp & Hsu & Hsh).
      pose proof Hw as (L1 & L2 & _).
      split; [by apply phaseC_wf|]. cbn [phaseC sPartials sums warpPartials].
      split; [done|]. split.
      + intros tid Ht. rewrite imap_lookup_total by lia.
        destruct (in_warp k tid) eqn:Hin; in_warp_facts.
        * rewrite Hsu by done.
          rewrite (bool_decide_false (warpid tid < k)), (bool_decide_true (warpid tid < S k))
            by lia.
          rewrite Hwp. unfold carry. by subst k.
        * rewrite Hsu by done. do 2 case_bool_decide; done || lia.
      + intros tid Ht. rewrite imap_lookup_total by lia.
        destruct (in_warp k tid) eqn:Hin; in_warp_facts.
        * rewrite Hsu by done.
          rewrite (bool_decide_false (warpid tid < k)), (bool_decide_true (warpid tid < S k))
            by lia.
          rewrite Hwp. unfold carry. by subst k.
        * rewrite Hsh by done. do 2 case_bool_decide; done || lia. }
  by apply H.
Qed.

(** The value of thread [tid] at the end. *)
Lemma block_value tid aux :
  tid < n ->
  (forall w, w < nw -> aux !!! w = wrap32 (rsum xs 0 (32 * S w))) ->
  carry aux (warpid tid) (wsum xs tid) = wrap32 (rsum xs 0 (S tid)).
Proof.
  intros Ht Haux. unfold carry, wsum. case_bool_decide as Hw.
  - rewrite Haux by lane_arith.
    replace (S (warpid tid - 1)) with (warpid tid) by lia.
    unfold add32. rewrite wrap32_add_l, wrap32_add_r.
    replace (S tid) with (32 * warpid tid + S (laneid tid)) by lane_arith.
    replace (tid - laneid tid) with (32 * warpid tid) by lane_arith.
    rewrite rsum_split, Nat.add_0_l. f_equal. lia.
  - replace (tid - laneid tid) with 0 by lane_arith.
    by replace (laneid tid) with tid by lane_arith.
Qed.

End BlockCorrect.

(** scanBlock over a block of 32*nw threads (1 <= nw <= 32 warps) leaves
    in every thread's register and in its slot of sPartials the 32-bit
    wrapped sum of the slots of all threads up to and including it: the
    inclusive scan of the whole block. *)
Theorem scanBlock_correct nw st :
  1 <= nw <= 32 -> bs_wf (32 * nw) st ->
  sums (scanBlock (32 * nw) st) = block_inclusive_spec (sPartials st)
  /\ sPartials (scanBlock (32 * nw) st) = block_inclusive_spec (sPartials st).
Proof.
  intros Hnw Hwf. unfold scanBlock, scanBlock_sched. rewrite warps_block.
  pose proof (after_A_all nw st Hnw Hwf) as HA.
  set (sA := run_phase phaseA (seq 0 nw) st) in *.
  assert (HB : run_phase phaseB (seq 0 nw) sA = phaseB 0 sA).
  { destruct nw as [|m]; [lia|]. apply (run_phaseB_rest 0 m). }
  rewrite HB.
  set (sB := phaseB 0 sA).
  assert (HwB : bs_wf (32 * nw) sB) by (apply phaseB_wf; apply HA).
  destruct (after_C_all nw Hnw sB HwB) as (_ & Hwp & Hsu & Hsh).
  (* the scanned warp totals are the carry-ins *)
  assert (Haux : forall w, w < nw -> warpPartials sB !!! w = wrap32 (rsum (sPartials st) 0 (32 * S w))).
  { intros w Hw. pose proof HA as [(_ & _ & L3 & _ & I2 & _) _].
    unfold sB, phaseB. rewrite decide_True by done. cbn [warpPartials].
    rewrite scanWarp_correct by done.
    unfold warp_inclusive_spec. rewrite imap_lookup_total by lia.
    replace (w - laneid w) with 0 by lane_arith. replace (laneid w) with w by lane_arith.
    by apply (carry_in_sum nw st Hnw). }
  assert (Hsums : forall tid, tid < 32 * nw -> sums sB !!! tid = wsum (sPartials st) tid).
  { intros tid Ht. pose proof HA as (_ & _ & Hsu' & _).
    unfold sB, phaseB. rewrite decide_True by done. cbn [sums].
    rewrite Hsu' by done. rewrite bool_decide_true by lane_arith. done. }
  assert (HwC := fold_act_wf (bs_wf (32 * nw)) phaseC (phaseC_wf _) (seq 0 nw) sB HwB).
  destruct HwC as (C1 & C2 & _). destruct Hwf as (L1 & L2 & _).
  unfold run_phase in *. unfold block_inclusive_spec.
  split; apply list_eq_total; rewrite ?length_imap; try lia;
    intros tid Ht; rewrite ?C1, ?C2 in Ht.
  - rewrite Hsu by done. rewrite bool_decide_true by lane_arith.
    rewrite Hsums by done. rewrite imap_lookup_total by lia.
    by apply (block_value nw st Hnw).
  - rewrite Hsh by done. rewrite bool_decide_true by lane_arith.
    rewrite Hsums by done. rewrite imap_lookup_total by lia.
    by apply (block_value nw st Hnw).
Qed.

Lemma scanBlock_wf n st : bs_wf n st -> bs_wf n (scanBlock n st).
Proof.
  intros Hwf. unfold scanBlock, scanBlock_sched, run_phase.
  apply (fold_act_wf _ _ (phaseC_wf n)), (fold_act_wf _ _ (phaseB_wf n)),
    (fold_act_wf _ _ (phaseA_wf n)), Hwf.
Qed.

End BlockScan.
