(* ===== verification/BlockShuffle.v ===== *)
(** * BlockShuffle: the register-exchange block scan

    [ScanGPUBlockShuffle<scantype, logBlockSize>] (src/scan/warp/
    testScanBlock.cu, lines 206-220) calls [inclusive_scan_block] and
    [exclusive_scan_block] of scanBlockShuffle.cuh, which is not under
    src/; they follow the specification (section 4.2) with the shuffle
    warp scan of section 4.1 as the primitive:

    - [shflA], per warp: [val = inclusive_scan_warp_shfl<5>(val)];
      lane 31 writes the warp's total to the block's static array
      [sPartials[warpid]];
    - barrier; [shflB]: warp 0 scans the totals,
      [inclusive_scan_warp_shfl<logBlockSize-5>];
    - barrier; [shflC], per warp [w > 0]: [val += sPartials[w-1]].

    There is no shared slot per thread: the state [SBState] is the
    threads' registers [sval] and the static array [saux].  The
    exclusive scan is the inclusive one minus the thread's own value
    (the first of the two derivations of section 4.2).

    The proof maps a state to a [BlockScan.BState] ([beta]: the register
    file in the place of both the slots and the registers) on which
    [shflA] and [shflC] are [phaseA] and [phaseC]; phase B differs (the
    shuffle scan of [log2 nw] steps instead of the five-step scan of 32
    totals) but agrees on the [nw] totals that phase C reads. *)

From Stdlib Require Import ZArith Lia.
From stdpp Require Import base list options.
From S2P Require Import Prelude WarpScan BlockScan.

Module BlockShuffle.
Import WarpScan BlockScan.

Record SBState := mkSB { sval : list Z; saux : list Z }.

(** Phase A of warp [w]. *)
Definition shflA (w : nat) (st : SBState) : SBState :=
  let r := inclusive_scan_warp_shfl LOG_WARP_SIZE (sval st) in
  mkSB (imap (fun tid v => if in_warp w tid then r !!! tid else v) (sval st))
    (<[w := r !!! (32 * w + 31)]> (saux st)).

(** Phase B of warp [w]: warp 0 scans the totals in [levels] steps. *)
Definition shflB (levels w : nat) (st : SBState) : SBState :=
  if decide (w = 0) then mkSB (sval st) (inclusive_scan_warp_shfl levels (saux st)) else st.

(** Phase C of warp [w]: [if (warpid > 0) val += sPartials[warpid-1];] *)
Definition shflC (w : nat) (st : SBState) : SBState :=
  mkSB (imap (fun tid v => if in_warp w tid
                           then if bool_decide (0 < w) then add32 v (saux st !!! (w - 1)) else v
                           else v) (sval st))
    (saux st).

(** [inclusive_scan_block<logBlockSize>(val, tid)] on a block of [n]
    threads, [levels = logBlockSize - 5], the warps in ascending order in
    each barrier interval. *)
Definition inclusive_scan_block (levels n : nat) (st : SBState) : SBState :=
  run_phase shflC (warps n) (run_phase (shflB levels) (warps n) (run_phase shflA (warps n) st)).

(** [exclusive_scan_block]: the inclusive scan minus the own value. *)
Definition exclusive_scan_block (levels n : nat) (st : SBState) : list Z :=
  zip_with sub32 (sval (inclusive_scan_block levels n st)) (sval st).

(** The register file as the slots and the registers of [BlockScan]. *)
Definition beta (st : SBState) : BState := mkBState (sval st) (saux st) (sval st).

Definition sb_wf (n : nat) (st : SBState) : Prop :=
  length (sval st) = n /\ length (saux st) = 32
  /\ Forall in_int32 (sval st) /\ Forall in_int32 (saux st).

(* ----------------------------------------------------------------- *)
(** ** Phases A and C are those of [BlockScan]                        *)
(* ----------------------------------------------------------------- *)

Lemma bs_wf_beta n st : bs_wf n (beta st) <-> sb_wf n st.
Proof.
  unfold bs_wf, sb_wf, beta; cbn. split.
  - intros (? & _ & ? & ? & ? & _). by split_and!.
  - intros (? & ? & ? & ?). by split_and!.
Qed.

Lemma shflA_beta w st :
  Forall in_int32 (sval st) -> beta (shflA w st) = phaseA w (beta st).
Proof.
  intros Hx. unfold shflA, phaseA, beta. cbn [sval saux sPartials warpPartials sums].
  rewrite (proj1 (shuffle_equals_shared _)), scanWarp_correct by done.
  rewrite scanWarp_on_spec by (done || apply warp_closed_warp).
  assert (E : imap (fun tid v => if in_warp w tid then warp_inclusive_spec (sval st) !!! tid else v)
                (sval st)
            = imap (fun tid v => if in_warp w tid
                                 then wrap32 (rsum (sval st) (tid - laneid tid) (S (laneid tid)))
                                 else v) (sval st)).
  { apply imap_ext. intros tid v Hv. case_match; [|done].
    unfold warp_inclusive_spec. rewrite imap_lookup_total; [done|].
    by apply lookup_lt_Some in Hv. }
  rewrite E. f_equal.
  - f_equal. destruct (decide (32 * w + 31 < length (sval st))) as [Hl|Hl].
    + unfold warp_inclusive_spec. rewrite !imap_lookup_total by (rewrite ?length_imap; lia).
      rewrite (proj2 (in_warp_spec w (32 * w + 31)) (warpid_lane31 w)). done.
    + unfold warp_inclusive_spec. rewrite !lookup_total_ge by (rewrite ?length_imap; lia). done.
  - apply imap_ext. intros tid v Hv. case_match; [|done].
    rewrite imap_lookup_total by (by apply lookup_lt_Some in Hv). by case_match.
Qed.

Lemma shflC_beta w st : beta (shflC w st) = phaseC w (beta st).
Proof.
  unfold shflC, phaseC, beta. cbn [sval saux sPartials warpPartials sums]. f_equal.
  apply imap_ext. intros tid v Hv. case_match; [|done].
  rewrite (list_lookup_total_alt (sval st) tid), Hv. done.
Qed.

Lemma shflA_wf n w st : sb_wf n st -> sb_wf n (shflA w st).
Proof.
  intros Hw. apply bs_wf_beta. rewrite shflA_beta by apply Hw.
  apply phaseA_wf, bs_wf_beta, Hw.
Qed.

Lemma shflC_wf n w st : sb_wf n st -> sb_wf n (shflC w st).
Proof. intros Hw. apply bs_wf_beta. rewrite shflC_beta. apply phaseC_wf, bs_wf_beta, Hw. Qed.

(** A run of a phase maps to a run of the [BlockScan] phase. *)
Lemma run_beta n (f : nat -> SBState -> SBState) (g : nat -> BState -> BState) ws st :
  (forall w s, sb_wf n s -> sb_wf n (f w s)) ->
  (forall w s, sb_wf n s -> beta (f w s) = g w (beta s)) ->
  sb_wf n st ->
  sb_wf n (run_phase f ws st) /\ beta (run_phase f ws st) = run_phase g ws (beta st).
Proof.
  intros Hf Hfg. unfold run_phase. revert st.
  induction ws as [|w ws IH]; intros st Hw; [done|]. cbn [fold_left].
  rewrite <- Hfg by done. by apply IH, Hf.
Qed.

Lemma run_shflB_rest levels j m s : run_phase (shflB levels) (seq (S j) m) s = s.
Proof.
  unfold run_phase. revert j s. induction m as [|m IH]; intros j s; [done|].
  cbn [seq fold_left]. unfold shflB at 2. rewrite decide_False by lia. apply IH.
Qed.

(* ----------------------------------------------------------------- *)
(** ** The block scan                                                 *)
(* ----------------------------------------------------------------- *)

(** inclusive_scan_block<logBlockSize> with levels = logBlockSize - 5 on
    a block of nw = 2^levels warps (1 <= nw <= 32) leaves in every
    thread's register the 32-bit wrapped sum of the values of all
    threads up to and including it: the same block-wide inclusive scan
    as scanBlock. *)
Theorem inclusive_scan_block_correct levels nw st :
  nw = 2 ^ levels -> 1 <= nw <= 32 -> sb_wf (32 * nw) st ->
  sval (inclusive_scan_block levels (32 * nw) st) = block_inclusive_spec (sval st).
Proof.
  intros Hlev Hnw Hwf. unfold inclusive_scan_block. rewrite warps_block by done.
  pose proof (proj2 (bs_wf_beta _ _) Hwf) as Hwb.
  destruct (run_beta (32 * nw) shflA phaseA (seq 0 nw) st (shflA_wf _)
              (fun w s Hs => shflA_beta w s (proj1 (proj2 (proj2 Hs)))) Hwf) as [HwA HA'].
  set (sA := run_phase shflA (seq 0 nw) st) in *.
  pose proof (after_A_all nw (beta st) Hnw Hwb) as HA. rewrite <- HA' in HA.
  assert (HB : run_phase (shflB levels) (seq 0 nw) sA = shflB levels 0 sA).
  { destruct nw as [|m]; [lia|]. apply (run_shflB_rest levels 0 m). }
  rewrite HB. set (sB := shflB levels 0 sA).
  destruct HwA as (L1 & L2 & I1 & I2).
  assert (HwB : sb_wf (32 * nw) sB).
  { unfold sB, shflB. rewrite decide_True by done. split_and!; cbn; try done.
    - by rewrite shfl_levels, length_scanWarp_levels.
    - rewrite shfl_levels. by apply scanWarp_levels_int32. }
  destruct (run_beta (32 * nw) shflC phaseC (seq 0 nw) sB (shflC_wf _)
              (fun w s _ => shflC_beta w s) HwB) as [HwC HC'].
  pose proof (after_C_all nw Hnw (beta sB) (proj2 (bs_wf_beta _ _) HwB)) as (_ & _ & Hsu & _).
  rewrite <- HC' in Hsu. cbn [beta sums] in Hsu.
  destruct HwC as (C1 & _). destruct Hwf as (W1 & _).
  apply list_eq_total; [unfold block_inclusive_spec; rewrite length_imap; lia|].
  intros tid Ht. rewrite C1 in Ht. unfold run_phase in Hsu. rewrite Hsu by done.
  rewrite bool_decide_true by lane_arith.
  destruct HA as (_ & _ & HAs & _). cbn [beta sums sPartials] in HAs.
  unfold sB at 2, shflB. rewrite decide_True by done. cbn [sval saux].
  rewrite HAs by done. rewrite bool_decide_true by lane_arith.
  unfold block_inclusive_spec. rewrite imap_lookup_total by lia.
  apply (block_value nw (beta st) Hnw); [done|]. intros w Hw.
  unfold sB, shflB, beta. rewrite decide_True by done. cbn [warpPartials saux sPartials].
  rewrite shfl_levels_prefix by (done || lia).
  pose proof (after_A_all nw (beta st) Hnw Hwb) as HA2. rewrite <- HA' in HA2.
  exact (carry_in_sum nw (beta st) Hnw (beta sA) (S w) HA2 ltac:(lia)).
Qed.

Lemma shflB_wf n levels w st : sb_wf n st -> sb_wf n (shflB levels w st).
Proof.
  intros (L1 & L2 & I1 & I2). unfold shflB. case_decide; [|by split_and!].
  split_and!; cbn; try done.
  - by rewrite shfl_levels, length_scanWarp_levels.
  - rewrite shfl_levels. by apply scanWarp_levels_int32.
Qed.

Lemma inclusive_scan_block_wf levels n st : sb_wf n st -> sb_wf n (inclusive_scan_block levels n st).
Proof.
  intros Hw. unfold inclusive_scan_block, run_phase.
  assert (Hf : forall f : nat -> SBState -> SBState, (forall w s, sb_wf n s -> sb_wf n (f w s)) ->
            forall ws s, sb_wf n s -> sb_wf n (fold_left (fun s w => f w s) ws s)).
  { intros f Hf ws. induction ws as [|w ws IH]; intros s Hs; [done|]. apply IH, Hf, Hs. }
  apply Hf; [apply shflC_wf|]. apply Hf; [apply shflB_wf|]. apply Hf; [apply shflA_wf|done].
Qed.

(** exclusive_scan_block, the inclusive block scan minus the thread's own
    value, leaves in every thread the wrapped sum of the values of the
    threads strictly before it: the block-wide exclusive scan. *)
Theorem exclusive_scan_block_correct levels nw st :
  nw = 2 ^ levels -> 1 <= nw <= 32 -> sb_wf (32 * nw) st ->
  exclusive_scan_block levels (32 * nw) st = block_exclusive_spec (sval st).
Proof.
  intros Hlev Hnw Hwf. unfold exclusive_scan_block.
  rewrite inclusive_scan_block_correct by done.
  unfold block_inclusive_spec, block_exclusive_spec.
  apply list_eq_total; [by rewrite length_zip_with, !length_imap; lia|].
  intros tid Ht. rewrite length_zip_with, length_imap in Ht.
  rewrite zip_with_lookup_total by (rewrite ?length_imap; lia).
  rewrite !imap_lookup_total by lia.
  rewrite <- (wrap32_id (sval st !!! tid)) by (apply int32_lookup_total, Hwf).
  rewrite sub32_wrap. cbn [rsum]. rewrite Nat.add_0_l. f_equal. lia.
Qed.

End BlockShuffle.
