(* ===== verification/Grid.v ===== *)
(** * Grid: the grid-stride loop of the scan kernels and their launch

    Every kernel of src/scan/warp/testScanBlock.cu has the same outer
    shape (lines 138-149, 174-185, 208-220, 259-264, 292-297, 320-327,
    348-355, 377-386; the scanWarp2 kernels of lines 320-327 and 348-355
    are not modelled):

      for (size_t i = blockIdx.x*blockDim.x; i < N; i += blockDim.x) {
          <load in[i+threadIdx.x]> ... out[i+threadIdx.x] = <value>;
      }

    and every host wrapper launches it on
    [cBlocks = min((int)(N/150), 150)] blocks.  This file models that
    shape once, for any kernel body:

    - [SegmentKernel] is the interface a kernel body provides: one
      iteration of the loop for one block, from the block's shared state
      and the loaded inputs to the new shared state and the values the
      threads store; [kernel_contract] is what the body promises (the
      per-segment result [spec]), which the files of the kernels
      discharge;
    - [block_iter] is one iteration on memory (the loads, the body, the
      stores, each failing on an out-of-bounds index), [block_loop] the
      whole loop of one block, [launch_cBlocks] the host's block count;
    - [gstep] is the step relation of the whole grid: the hardware runs
      the blocks' iterations interleaved in any order, one iteration of
      one block per step.
    - [run_blocks] and [grid_seq]: the blocks one after the other, each
      through its whole loop, an executable schedule.

    The theorems: every reachable state keeps the invariant [ginv]
    (nothing outside the output changes, every output cell holds its
    initial or its final value, the segments a block has passed hold
    their final values); a reachable state never faults and, unless all
    blocks are done, can step; every run terminates, after exactly
    [sum_b (N/B - b)] iterations; a finished run holds [grid_out]: each
    segment of B elements replaced by the kernel's result on it; the
    sequential schedule is one of the runs of [gstep], so it returns and
    computes the same. *)

From Stdlib Require Import ZArith Lia.
From stdpp Require Import base list options relations.
From S2P Require Import Prelude.

Module Grid.

(** The per-iteration work of one block: from the block's shared state
    and the inputs its threads loaded ([in[i+threadIdx.x]] for thread
    [threadIdx.x]), the new shared state and the value each thread
    stores to [out[i+threadIdx.x]]. *)
Class SegmentKernel (L : Type) := seg_iter : L -> list Z -> L * list Z.

(** What a kernel body promises for a block of [B] threads: it keeps the
    well-formedness [wf] of the shared state and computes [spec] of the
    segment it loaded. *)
Record kernel_contract {L} `{SegmentKernel L} (B : nat) (wf : L -> Prop)
    (spec : list Z -> list Z) : Prop := {
  kc_wf : forall l xs, wf l -> length xs = B -> Forall in_int32 xs -> wf (seg_iter l xs).1;
  kc_out : forall l xs, wf l -> length xs = B -> Forall in_int32 xs -> (seg_iter l xs).2 = spec xs;
  kc_len : forall xs, length xs = B -> length (spec xs) = B
}.

(** [in[i+threadIdx.x]] for every thread of the block. *)
Definition seg_load (m : Mem) (inb : buf) (B i : nat) : option (list Z) :=
  mapM (fun tid => ld m inb (i + tid)) (seq 0 B).

(** [out[i+threadIdx.x] = ys[threadIdx.x]] for every thread. *)
Definition seg_store (m : Mem) (out : buf) (i : nat) (ys : list Z) : option Mem :=
  run_iters (seq 0 (length ys)) (fun tid m => store m out (i + tid) (ys !!! tid)) m.

(** One iteration of the loop body of one block at offset [i]. *)
Definition block_iter {L} `{SegmentKernel L} (out inb : buf) (B i : nat) (s : Mem * L)
    : option (Mem * L) :=
  let '(m, l) := s in
  xs ← seg_load m inb B i;
  let '(l', ys) := seg_iter l xs in
  m' ← seg_store m out i ys;
  Some (m', l').

(** The whole loop of block [b]:
    [for (i = blockIdx.x*blockDim.x; i < N; i += blockDim.x)].  The fuel
    [S N] is enough for any [B > 0] ([for_loop_fuel]). *)
Definition block_loop {L} `{SegmentKernel L} (out inb : buf) (B N b : nat) (s : Mem * L)
    : option (Mem * L) :=
  for_loop (S N) (b * B) N B (block_iter out inb B) s.

(** The host wrappers' block count, [N] a [size_t]:
    [int cBlocks = (int) (N/150); if (cBlocks > 150) cBlocks = 150;]
    The conversion to [int] keeps the low 32 bits. *)
Definition launch_cBlocks (N : Z) : Z :=
  let c := wrap32 (N / 150) in if Z.gtb c 150 then 150 else c.

(** The grid: memory, each block's next offset [i], each block's shared
    memory. *)
Record GState (L : Type) := GS { gmem : Mem; gpc : list nat; gsh : list L }.
Arguments GS {L} _ _ _.
Arguments gmem {L} _.
Arguments gpc {L} _.
Arguments gsh {L} _.

(** The launch: block [b] starts at [b * blockDim.x]. *)
Definition grid_init {L} (B cBlocks : nat) (m : Mem) (shs : list L) : GState L :=
  GS m (map (fun b => b * B) (seq 0 cBlocks)) shs.

Section Steps.
Context {L : Type} `{SegmentKernel L} (out inb : buf) (B N : nat).

(** One iteration of one block whose loop has not finished. *)
Inductive gstep : GState L -> GState L -> Prop :=
| gstep_iter g b i l m' l' :
    gpc g !! b = Some i -> gsh g !! b = Some l -> i < N ->
    block_iter out inb B i (gmem g, l) = Some (m', l') ->
    gstep g (GS m' (<[b := i + B]> (gpc g)) (<[b := l']> (gsh g))).

(** Some block's next iteration is undefined behaviour. *)
Definition gfault (g : GState L) : Prop :=
  exists b i l, gpc g !! b = Some i /\ gsh g !! b = Some l /\ i < N
    /\ block_iter out inb B i (gmem g, l) = None.

(** Every block has left its loop. *)
Definition gdone (g : GState L) : Prop := Forall (fun i => N <= i) (gpc g).

(** What is left to do: the sum over the blocks of [N - i]. *)
Definition gmeasure (g : GState L) : nat := sum_list (map (fun i => N - i) (gpc g)).

End Steps.

(** A launch whose blocks run one after the other, block [b] the whole
    of [kernel b] from its shared memory [shs !! b]: one of the
    schedules the hardware may choose, and an executable one. *)
Definition run_blocks {L} (kernel : nat -> Mem * L -> option (Mem * L)) (shs : list L)
    (m : Mem) : option Mem :=
  run_iters (seq 0 (length shs)) (fun b m => l ← shs !! b; '(m', _) ← kernel b (m, l); Some m') m.

Definition grid_seq {L} `{SegmentKernel L} (out inb : buf) (B N : nat) (shs : list L)
    (m : Mem) : option Mem :=
  run_blocks (block_loop out inb B N) shs m.

(** The result the driver promises: the segment of [k], [B] elements
    from [k - k mod B], through the kernel's [spec], at [k mod B]. *)
Definition seg_of (B : nat) (xs : list Z) (i : nat) : list Z :=
  map (fun t => xs !!! (i + t)) (seq 0 B).

Definition grid_out (B : nat) (spec : list Z -> list Z) (xs : list Z) : list Z :=
  imap (fun k _ => spec (seg_of B xs (k - k mod B)) !!! (k mod B)) xs.

(** The block count of a size [N] whose [N/150] fits in an [int]. *)
Lemma launch_cBlocks_min N :
  (0 <= N -> N / 150 <= INT_MAX -> launch_cBlocks N = Z.min (N / 150) 150)%Z.
Proof.
  intros HN Hd. assert (Hq : (0 <= N / 150)%Z) by (apply Z.div_pos; lia).
  unfold launch_cBlocks. rewrite wrap32_id by (unfold_int32; lia).
  destruct (Z.gtb_spec (N / 150) 150); lia.
Qed.

Lemma launch_cBlocks_pos N : (150 <= N -> N / 150 <= INT_MAX -> 0 < launch_cBlocks N)%Z.
Proof.
  intros HN Hd. rewrite launch_cBlocks_min by lia.
  assert (1 <= N / 150)%Z by (apply Z.div_le_lower_bound; lia). lia.
Qed.

Lemma length_seg_of B xs i : length (seg_of B xs i) = B.
Proof. unfold seg_of. by rewrite length_map, length_seq. Qed.

Lemma seg_of_lookup B xs i t : t < B -> seg_of B xs i !!! t = xs !!! (i + t).
Proof.
  intros Ht. unfold seg_of. rewrite list_lookup_total_alt, list_lookup_fmap, lookup_seq_lt by done.
  done.
Qed.

(** The sums over a segment are sums over the array. *)
Lemma rsum_seg_of B xs i lo n :
  lo + n <= B -> rsum (seg_of B xs i) lo n = rsum xs (i + lo) n.
Proof.
  induction n as [|n IH]; intros Hn; [done|]. cbn [rsum].
  rewrite IH, seg_of_lookup by lia. do 2 f_equal. lia.
Qed.

(** [grid_out] at [k]: the kernel's result on [k]'s segment. *)
Lemma grid_out_lookup B spec xs k :
  k < length xs -> grid_out B spec xs !!! k = spec (seg_of B xs (k - k mod B)) !!! (k mod B).
Proof. intros Hk. unfold grid_out. by rewrite imap_lookup_total. Qed.

(* ----------------------------------------------------------------- *)
(** ** Loads and stores of a whole segment                            *)
(* ----------------------------------------------------------------- *)

Lemma mapM_Some_map {A B} (f : A -> option B) (g : A -> B) (l : list A) :
  (forall x, x ∈ l -> f x = Some (g x)) -> mapM f l = Some (map g l).
Proof.
  induction l as [|x l IH]; intros Hf; [done|]. cbn [mapM map].
  rewrite Hf by apply list_elem_of_here. rewrite IH; [done|].
  intros y Hy. apply Hf. by apply list_elem_of_further.
Qed.

Lemma seg_load_Some m inb B i :
  buf_valid m inb -> i + B <= len inb ->
  seg_load m inb B i = Some (map (fun t => m !!! (base inb + (i + t))) (seq 0 B)).
Proof.
  intros Hv Hi. apply mapM_Some_map. intros t Ht%elem_of_seq.
  apply ld_Some; [done|lia].
Qed.

Lemma seg_stores m out i (ys : list Z) j n :
  buf_valid m out -> i + j + n <= len out ->
  exists m', run_iters (seq j n) (fun tid m => store m out (i + tid) (ys !!! tid)) m = Some m'
    /\ length m' = length m
    /\ forall a, m' !! a = if decide (base out + i + j <= a < base out + i + j + n)
                           then Some (ys !!! (a - base out - i)) else m !! a.
Proof.
  revert j m. induction n as [|n IH]; intros j m Hv Hn.
  - exists m. split_and!; [done|done|]. intros a. case_decide; [lia|done].
  - cbn [seq run_iters]. rewrite store_Some by (done || lia).
    rewrite bind_Some_l.
    destruct (IH (S j) (<[base out + (i + j) := ys !!! j]> m)) as (m' & Hr & Hl & Ha).
    { unfold buf_valid in *. rewrite length_insert. done. } { lia. }
    exists m'. unfold buf_valid in Hv. split_and!; [done|by rewrite Hl, length_insert|].
    intros a. rewrite Ha. repeat case_decide; try lia.
    + done.
    + assert (a = base out + (i + j)) as -> by lia.
      rewrite list_lookup_insert_eq by lia. do 2 f_equal. lia.
    + rewrite list_lookup_insert_ne by lia. done.
Qed.

Lemma seg_store_Some m out i (ys : list Z) :
  buf_valid m out -> i + length ys <= len out ->
  exists m', seg_store m out i ys = Some m' /\ length m' = length m
    /\ forall a, m' !! a = if decide (base out + i <= a < base out + i + length ys)
                           then Some (ys !!! (a - base out - i)) else m !! a.
Proof.
  intros Hv Hn. destruct (seg_stores m out i ys 0 (length ys)) as (m' & ?&?& Ha); [done|lia|].
  exists m'. split_and!; [done|done|]. intros a. rewrite Ha. repeat case_decide; done || lia.
Qed.

Lemma sum_list_insert (l : list nat) b x y :
  l !! b = Some y -> sum_list (<[b := x]> l) + y = sum_list l + x.
Proof.
  revert b. induction l as [|z l IH]; intros [|b] Hb; simplify_eq/=; [lia|].
  specialize (IH b Hb). lia.
Qed.

Lemma length_gpc_rtc {L} `{SegmentKernel L} out inb B N (g1 g2 : GState L) :
  rtc (gstep out inb B N) g1 g2 -> length (gpc g2) = length (gpc g1).
Proof. induction 1 as [|? ? ? [] _ IH]; [done|]. rewrite IH. apply length_insert. Qed.

(** A segment that starts at a multiple of [B] below [N], [N] itself a
    multiple of [B], ends at or before [N]. *)
Lemma seg_fits B N i : 0 < B -> N mod B = 0 -> i mod B = 0 -> i < N -> i + B <= N.
Proof.
  intros HB HN Hi HiN.
  pose proof (Nat.div_mod_eq i B). pose proof (Nat.div_mod_eq N B).
  assert (i / B < N / B) by nia. nia.
Qed.

Lemma seg_mod B i t : i mod B = 0 -> t < B -> (i + t) mod B = t /\ i + t - (i + t) mod B = i.
Proof.
  intros Hi Ht. pose proof (Nat.div_mod_eq i B) as Hd. rewrite Hi, Nat.add_0_r in Hd.
  rewrite Hd, Nat.add_comm, Nat.mul_comm, Nat.Div0.mod_add, Nat.mod_small by done. lia.
Qed.

(** A whole buffer written from its start. *)
Lemma seg_store_whole m out (ys : list Z) :
  buf_valid m out -> length ys = len out ->
  exists m', seg_store m out 0 ys = Some m' /\ length m' = length m
    /\ contents m' out = ys /\ forall a, ~ in_buf out a -> m' !! a = m !! a.
Proof.
  intros Hv Hl. destruct (seg_store_Some m out 0 ys) as (m' & Hs & Hl' & Ha); [done|lia|].
  assert (Hv' : buf_valid m' out) by (unfold buf_valid in *; lia).
  exists m'. split_and!; [done|done| |].
  - apply list_eq_total; [rewrite length_contents by done; lia|]. intros k Hk.
    rewrite length_contents in Hk by done. rewrite contents_lookup by done.
    rewrite list_lookup_total_alt, Ha. case_decide; [|lia]. cbn. f_equal. lia.
  - intros a Ha'. rewrite Ha. unfold in_buf in Ha'. case_decide; [lia|done].
Qed.

(* ----------------------------------------------------------------- *)
(** ** The invariant of the grid                                      *)
(* ----------------------------------------------------------------- *)

Section GridCorrect.
Local Unset Default Proof Using.
Context {L : Type} `{SegmentKernel L} (out inb : buf) (B N : nat) (m0 : Mem)
  (wf : L -> Prop) (spec : list Z -> list Z).
Hypothesis HK : kernel_contract B wf spec.
Hypothesis HB : 0 < B.
Hypothesis HN : N mod B = 0.
Hypothesis Hin : len inb = N.
Hypothesis Hout : len out = N.
Hypothesis Hvi : buf_valid m0 inb.
Hypothesis Hvo : buf_valid m0 out.
Hypothesis Hdis : buf_disjoint out inb.
Hypothesis Hint : Forall in_int32 (contents m0 inb).

(** The final value of output cell [k]. *)
Definition expected (k : nat) : Z := grid_out B spec (contents m0 inb) !!! k.

Definition ginv (g : GState L) : Prop :=
  length (gmem g) = length m0
  /\ (forall a, ~ in_buf out a -> gmem g !! a = m0 !! a)
  /\ (forall k, k < N -> gmem g !!! (base out + k) = m0 !!! (base out + k)
                      \/ gmem g !!! (base out + k) = expected k)
  /\ Forall (fun i => i mod B = 0) (gpc g)
  /\ length (gsh g) = length (gpc g)
  /\ Forall wf (gsh g)
  /\ (forall b i, gpc g !! b = Some i ->
        forall k, b * B <= k < i -> k < N -> gmem g !!! (base out + k) = expected k).

Lemma expected_seg i t :
  i mod B = 0 -> t < B -> i + t < N -> expected (i + t) = spec (seg_of B (contents m0 inb) i) !!! t.
Proof.
  intros Hi Ht Hk. unfold expected, grid_out.
  rewrite imap_lookup_total by (rewrite length_contents by done; lia).
  destruct (seg_mod B i t) as [-> ->]; done.
Qed.

(** One iteration at an aligned offset below [N], from a memory whose
    cells outside the output are the initial ones, succeeds and writes
    the segment's final values. *)
Lemma iter_spec (m : Mem) i l :
  length m = length m0 -> (forall a, ~ in_buf out a -> m !! a = m0 !! a) ->
  i mod B = 0 -> i < N -> wf l ->
  exists m' l', block_iter out inb B i (m, l) = Some (m', l') /\ wf l'
    /\ length m' = length m
    /\ forall a, m' !! a = if decide (base out + i <= a < base out + i + B)
                          then Some (expected (a - base out)) else m !! a.
Proof.
  intros Hlen Hframe Hi HiN Hl. pose proof (seg_fits B N i HB HN Hi HiN) as Hfit.
  unfold buf_valid, buf_disjoint, in_buf in *.
  assert (Hld : seg_load m inb B i = Some (seg_of B (contents m0 inb) i)).
  { rewrite seg_load_Some by (unfold buf_valid; lia). f_equal. apply map_ext_in.
    intros t Ht%in_seq. rewrite contents_lookup by (unfold buf_valid; lia).
    rewrite !list_lookup_total_alt, Hframe by lia. done. }
  assert (Hsl : length (seg_of B (contents m0 inb) i) = B) by (unfold seg_of; by rewrite length_map, length_seq).
  assert (Hs32 : Forall in_int32 (seg_of B (contents m0 inb) i)).
  { apply Forall_forall. intros z (t & -> & _)%list_elem_of_fmap. by apply int32_lookup_total. }
  unfold block_iter. rewrite Hld, bind_Some_l.
  destruct (seg_iter l (seg_of B (contents m0 inb) i)) as [l' ys] eqn:E.
  assert (Hys : ys = spec (seg_of B (contents m0 inb) i)).
  { rewrite <- (kc_out _ _ _ HK l) by done. by rewrite E. }
  assert (Hwf : wf l') by (change l' with (l', ys).1; rewrite <- E; by apply (kc_wf _ _ _ HK)).
  assert (Hly : length ys = B) by (rewrite Hys; by apply (kc_len _ _ _ HK)).
  destruct (seg_store_Some m out i ys) as (m' & Hst & Hl' & Ha); [unfold buf_valid; lia|lia|].
  rewrite Hst. exists m', l'. split_and!; [done|done|done|].
  intros a. rewrite Ha, Hly. destruct (decide _); [|done].
  replace (a - base out) with (i + (a - base out - i)) by lia.
  rewrite expected_seg by lia. rewrite Hys. do 2 f_equal. lia.
Qed.

Lemma ginv_init cBlocks shs :
  length shs = cBlocks -> Forall wf shs -> ginv (grid_init B cBlocks m0 shs).
Proof.
  intros Hl Hw. unfold grid_init. split_and!; cbn [gmem gpc gsh]; auto.
  - rewrite Forall_map. apply Forall_forall. intros b _. apply Nat.Div0.mod_mul.
  - by rewrite length_map, length_seq.
  - intros b i Hb k Hk. apply list_lookup_fmap_Some_1 in Hb as (b' & -> & Hb').
    apply lookup_seq in Hb' as [-> _]. lia.
Qed.

(** The write of one iteration, on the cells of the output. *)
Lemma iter_cell (m m' : Mem) i k :
  (forall a, m' !! a = if decide (base out + i <= a < base out + i + B)
                      then Some (expected (a - base out)) else m !! a) ->
  m' !!! (base out + k) = if decide (i <= k < i + B) then expected k else m !!! (base out + k).
Proof.
  intros Ha. rewrite !list_lookup_total_alt, Ha.
  repeat case_decide; try lia; try done. cbn. f_equal. lia.
Qed.

Lemma ginv_step g g' : ginv g -> gstep out inb B N g g' -> ginv g'.
Proof.
  intros (Hl & Hfr & Hcell & Hal & Hls & Hwf & Hdone) Hs.
  destruct Hs as [g b i l m' l' Hb Hl0 HiN Hit].
  pose proof (Forall_lookup_1 _ _ _ _ Hal Hb) as Hi. cbn in Hi.
  pose proof (Forall_lookup_1 _ _ _ _ Hwf Hl0) as Hwl. cbn in Hwl.
  destruct (iter_spec (gmem g) i l) as (m'' & l'' & Hit' & Hwf' & Hlen' & Ha); auto.
  rewrite Hit in Hit'. injection Hit' as <- <-.
  pose proof (seg_fits B N i HB HN Hi HiN).
  unfold in_buf in *. split_and!; cbn [gmem gpc gsh].
  - lia.
  - intros a Ha'. unfold in_buf in Ha'. rewrite Ha. case_decide; [lia|auto].
  - intros k Hk. rewrite (iter_cell (gmem g) m' i k Ha). case_decide; auto.
  - apply Forall_insert; [done|]. cbn. rewrite <- (Nat.mul_1_l B) at 1. by rewrite Nat.Div0.mod_add.
  - by rewrite !length_insert.
  - by apply Forall_insert.
  - intros b' i' Hb' k Hk HkN. rewrite (iter_cell (gmem g) m' i k Ha).
    case_decide; [done|].
    destruct (decide (b' = b)) as [->|Hne].
    + rewrite list_lookup_insert_eq in Hb' by (eapply lookup_lt_Some; eauto).
      injection Hb' as <-. apply (Hdone b i Hb); lia.
    + rewrite list_lookup_insert_ne in Hb' by done. by apply (Hdone b' i').
Qed.

Lemma ginv_rtc g g' : ginv g -> rtc (gstep out inb B N) g g' -> ginv g'.
Proof. intros Hg Hr. induction Hr; eauto using ginv_step. Qed.

Lemma ginv_no_fault g : ginv g -> ~ gfault out inb B N g.
Proof.
  intros (Hl & Hfr & _ & Hal & _ & Hwf & _) (b & i & l & Hb & Hl0 & HiN & Hit).
  destruct (iter_spec (gmem g) i l) as (m' & l' & Hit' & _); auto.
  - exact (Forall_lookup_1 _ _ _ _ Hal Hb).
  - exact (Forall_lookup_1 _ _ _ _ Hwf Hl0).
  - congruence.
Qed.

Lemma ginv_progress g b i :
  ginv g -> gpc g !! b = Some i -> i < N -> exists g', gstep out inb B N g g'.
Proof.
  intros (Hl & Hfr & _ & Hal & Hls & Hwf & _) Hb HiN.
  destruct (lookup_lt_is_Some_2 (gsh g) b) as [l Hl0].
  { rewrite Hls. eapply lookup_lt_Some; eauto. }
  destruct (iter_spec (gmem g) i l) as (m' & l' & Hit & _); auto.
  - exact (Forall_lookup_1 _ _ _ _ Hal Hb).
  - exact (Forall_lookup_1 _ _ _ _ Hwf Hl0).
  - eexists. eapply gstep_iter; eauto.
Qed.

(** Each step takes exactly [B] off the measure. *)
Lemma gmeasure_step g g' :
  ginv g -> gstep out inb B N g g' -> gmeasure N g' + B = gmeasure N g.
Proof.
  intros (_ & _ & _ & Hal & _) Hs. destruct Hs as [g b i l m' l' Hb _ HiN _].
  pose proof (seg_fits B N i HB HN (Forall_lookup_1 _ _ _ _ Hal Hb) HiN).
  unfold gmeasure. cbn [gpc]. change (map ?f ?l) with (f <$> l).
  rewrite list_fmap_insert.
  pose proof (sum_list_insert (fmap (fun i => N - i) (gpc g)) b (N - (i + B)) (N - i)) as Hsum.
  rewrite list_lookup_fmap, Hb in Hsum. specialize (Hsum eq_refl). lia.
Qed.

Lemma gmeasure_nsteps n g g' :
  ginv g -> nsteps (gstep out inb B N) n g g' -> gmeasure N g' + n * B = gmeasure N g.
Proof.
  intros Hg Hn. induction Hn as [|n g1 g2 g3 Hs _ IH]; [lia|].
  pose proof (gmeasure_step _ _ Hg Hs). specialize (IH (ginv_step _ _ Hg Hs)). lia.
Qed.

Lemma gmeasure_done (g : GState L) : gdone N g -> gmeasure N g = 0.
Proof.
  unfold gdone, gmeasure. induction (gpc g) as [|i l IH]; intros Hd; [done|].
  apply Forall_cons in Hd as [Hi Hd]. cbn. rewrite IH by done. lia.
Qed.

Lemma gmeasure_init cBlocks (shs : list L) :
  gmeasure N (grid_init B cBlocks m0 shs) = B * sum_list (map (fun b => N / B - b) (seq 0 cBlocks)).
Proof.
  unfold gmeasure, grid_init. cbn [gpc]. rewrite map_map.
  pose proof (Nat.div_mod_eq N B) as HNd. rewrite HN, Nat.add_0_r in HNd.
  generalize 0 as b0. induction cBlocks as [|c IH]; intros b0; cbn; [lia|].
  rewrite IH. nia.
Qed.

(** The final memory of a finished run. *)
Lemma ginv_done g :
  ginv g -> gdone N g -> (exists i, gpc g !! 0 = Some i) ->
  contents (gmem g) out = grid_out B spec (contents m0 inb)
  /\ forall a, ~ in_buf out a -> gmem g !! a = m0 !! a.
Proof.
  intros (Hl & Hfr & _ & _ & _ & _ & Hdone) Hd [i Hi]. split; [|done].
  pose proof (Forall_lookup_1 _ _ _ _ Hd Hi) as HiN. cbn in HiN.
  assert (Hv : buf_valid (gmem g) out) by (unfold buf_valid in *; lia).
  apply list_eq_total.
  - unfold grid_out. rewrite length_imap, !length_contents by done. lia.
  - intros k Hk. rewrite length_contents in Hk by done.
    rewrite contents_lookup by done. apply (Hdone 0 i Hi); lia.
Qed.

(** One block's whole loop, run alone from a state of the invariant in
    which the block is at offset [i]: the loop returns, and its run is
    a sequence of steps of the grid that takes the block past [N]. *)
Lemma block_loop_steps fuel g b i l :
  ginv g -> gpc g !! b = Some i -> gsh g !! b = Some l -> N - i < fuel ->
  exists m' l' j, for_loop fuel i N B (block_iter out inb B) (gmem g, l) = Some (m', l')
    /\ N <= j /\ rtc (gstep out inb B N) g (GS m' (<[b := j]> (gpc g)) (<[b := l']> (gsh g))).
Proof.
  revert g i l. induction fuel as [|fuel IH]; intros g i l Hg Hb Hl Hf; [lia|].
  cbn [for_loop]. case_decide as Hi.
  - pose proof Hg as (Hlen & Hfr & _ & Hal & _ & Hwf & _).
    destruct (iter_spec (gmem g) i l) as (m1 & l1 & Hit & _);
      [exact Hlen|exact Hfr|exact (Forall_lookup_1 _ _ _ _ Hal Hb)|exact Hi
      |exact (Forall_lookup_1 _ _ _ _ Hwf Hl)|].
    rewrite Hit, bind_Some_l.
    assert (Hs : gstep out inb B N g (GS m1 (<[b := i + B]> (gpc g)) (<[b := l1]> (gsh g))))
      by (eapply gstep_iter; [exact Hb|exact Hl|exact Hi|exact Hit]).
    destruct (IH (GS m1 (<[b := i + B]> (gpc g)) (<[b := l1]> (gsh g))) (i + B) l1)
      as (m' & l' & j & Hrun & Hj & Hr); cbn [gpc gsh].
    { exact (ginv_step _ _ Hg Hs). }
    { apply list_lookup_insert_eq. eapply lookup_lt_Some; exact Hb. }
    { apply list_lookup_insert_eq. eapply lookup_lt_Some; exact Hl. }
    { lia. }
    exists m', l', j. split_and!; [exact Hrun|exact Hj|]. eapply rtc_l; [exact Hs|].
    cbn [gpc gsh] in Hr. rewrite !list_insert_insert_eq in Hr. exact Hr.
  - exists (gmem g), l, i. split_and!; [reflexivity|lia|].
    rewrite (list_insert_id (gpc g) b i Hb), (list_insert_id (gsh g) b l Hl).
    destruct g. apply rtc_refl.
Qed.

(** The blocks from [k] on, run one after the other from a state in
    which the blocks below [k] are done and the others have not
    started: [run_blocks] returns the memory of a finished run. *)
Lemma blocks_seq_steps (shs : list L) n k g :
  ginv g -> length (gpc g) = k + n ->
  (forall b, k <= b < k + n -> gpc g !! b = Some (b * B) /\ gsh g !! b = shs !! b) ->
  (forall b i, b < k -> gpc g !! b = Some i -> N <= i) ->
  exists g', rtc (gstep out inb B N) g g' /\ gdone N g'
    /\ run_iters (seq k n)
         (fun b m => l ← shs !! b; '(m', _) ← block_loop out inb B N b (m, l); Some m') (gmem g)
       = Some (gmem g').
Proof.
  revert k g. induction n as [|n IH]; intros k g Hg Hlen Hnext Hprev.
  - exists g. split_and!; [apply rtc_refl| |done].
    apply Forall_lookup. intros b i Hb. apply (Hprev b i); [|done].
    apply lookup_lt_Some in Hb. lia.
  - destruct (Hnext k ltac:(lia)) as [Hb Hl].
    pose proof Hg as (_ & _ & _ & _ & Hls & _).
    destruct (lookup_lt_is_Some_2 (gsh g) k) as [l Hl0]; [lia|].
    destruct (block_loop_steps (S N) g k (k * B) l Hg Hb Hl0 ltac:(lia))
      as (m' & l' & j & Hrun & Hj & Hr).
    set (g1 := GS m' (<[k := j]> (gpc g)) (<[k := l']> (gsh g))).
    destruct (IH (S k) g1) as (g' & Hr' & Hd & Hseq).
    + eapply ginv_rtc; eauto.
    + cbn. rewrite length_insert. lia.
    + intros b Hbk. cbn [gpc gsh g1]. rewrite !list_lookup_insert_ne by lia. apply Hnext. lia.
    + intros b i Hbk. cbn [gpc g1]. destruct (decide (b = k)) as [->|Hne].
      * rewrite list_lookup_insert_eq by lia. intros [= <-]. done.
      * rewrite list_lookup_insert_ne by done. apply Hprev. lia.
    + exists g'. split_and!; [eapply rtc_trans; [exact Hr|exact Hr']|done|].
      cbn [seq run_iters]. rewrite <- Hl, Hl0, bind_Some_l. unfold block_loop.
      rewrite Hrun. exact Hseq.
Qed.

End GridCorrect.

(* ----------------------------------------------------------------- *)
(** ** The grid's theorems                                            *)
(* ----------------------------------------------------------------- *)

(** The conditions of a launch: [B > 0] threads per block, [N] a
    multiple of [B], input and output arrays of [N] [int]s, valid and
    apart. *)
Definition grid_pre (out inb : buf) (B N : nat) (m0 : Mem) : Prop :=
  0 < B /\ N mod B = 0 /\ len inb = N /\ len out = N /\ buf_valid m0 inb
  /\ buf_valid m0 out /\ buf_disjoint out inb /\ Forall in_int32 (contents m0 inb).

#[export] Instance grid_pre_dec out inb B N m0 : Decision (grid_pre out inb B N m0).
Proof. unfold grid_pre, buf_valid, buf_disjoint. apply _. Defined.

Lemma grid_reach_inv {L} `{SegmentKernel L} out inb B N m0 wf spec cBlocks (shs : list L) g :
  kernel_contract B wf spec -> grid_pre out inb B N m0 ->
  length shs = cBlocks -> Forall wf shs ->
  rtc (gstep out inb B N) (grid_init B cBlocks m0 shs) g ->
  ginv out inb B N m0 wf spec g.
Proof.
  intros HK (?&?&?&?&?&?&?&?) Hl Hw Hr. eapply ginv_rtc; eauto. by apply ginv_init.
Qed.

Lemma gdone_or_step {L} `{SegmentKernel L} out inb B N m0 wf spec (g : GState L) :
  kernel_contract B wf spec -> grid_pre out inb B N m0 -> ginv out inb B N m0 wf spec g ->
  gdone N g \/ exists g', gstep out inb B N g g'.
Proof.
  intros HK (?&?&?&?&?&?&?&?) Hg. unfold gdone.
  destruct (decide (Forall (fun i => N <= i) (gpc g))) as [|Hn]; [by left|right].
  apply not_Forall_Exists in Hn; [|apply _].
  apply Exists_exists in Hn as (i & Hi & HiN). apply list_elem_of_lookup_1 in Hi as [b Hb].
  eapply ginv_progress; eauto. cbn in HiN. lia.
Qed.

Lemma ginv_finish {L} `{SegmentKernel L} out inb B N m0 wf spec (g : GState L) :
  kernel_contract B wf spec -> grid_pre out inb B N m0 -> ginv out inb B N m0 wf spec g ->
  exists g', rtc (gstep out inb B N) g g' /\ gdone N g'.
Proof.
  intros HK Hpre. remember (gmeasure N g) as n eqn:Hn. revert g Hn.
  induction (lt_wf n) as [n _ IH]. intros g -> Hg.
  destruct (gdone_or_step _ _ _ _ _ _ _ g HK Hpre Hg) as [Hd|[g' Hs]]; [by exists g|].
  pose proof Hpre as (?&?&?&?&?&?&?&?).
  assert (gmeasure N g' + B = gmeasure N g) by (eapply (gmeasure_step out inb B N m0 wf spec); eauto).
  destruct (IH (gmeasure N g') ltac:(lia) g' eq_refl) as (g'' & Hr & Hd).
  { eapply ginv_step; eauto. }
  exists g''. split; [eapply rtc_l; eauto|done].
Qed.

Lemma grid_run_sound {L} `{SegmentKernel L} out inb B N m0 wf spec cBlocks
    (shs : list L) g :
  kernel_contract B wf spec -> grid_pre out inb B N m0 ->
  0 < cBlocks -> length shs = cBlocks -> Forall wf shs ->
  rtc (gstep out inb B N) (grid_init B cBlocks m0 shs) g ->
  ~ gfault out inb B N g
  /\ (gdone N g -> contents (gmem g) out = grid_out B spec (contents m0 inb)
                  /\ forall a, ~ in_buf out a -> gmem g !! a = m0 !! a).
Proof.
  intros HK Hpre Hc Hl Hw Hr. pose proof (grid_reach_inv _ _ _ _ _ _ _ _ _ g HK Hpre Hl Hw Hr) as Hg.
  pose proof Hpre as (?&?&?&?&?&?&?&?). split.
  - eapply ginv_no_fault; eauto.
  - intros Hd. eapply ginv_done; eauto.
    assert (Hlen := length_gpc_rtc _ _ _ _ _ _ Hr). cbn in Hlen.
    rewrite length_map, length_seq in Hlen.
    apply lookup_lt_is_Some_2. lia.
Qed.

(** C7: A grid launch of any kernel body that meets its contract, on
    [cBlocks > 0] blocks of [B] threads and [N] a multiple of [B]: in
    every interleaving of the blocks' iterations, no iteration is
    undefined behaviour, and once every block has left its loop the
    output holds [grid_out] (each segment of [B] inputs through the
    kernel's [spec]) and no other cell has changed; the concurrent
    writes of two blocks to one segment are benign because every write
    to a cell writes its final value. *)
Theorem grid_run_correct {L} `{SegmentKernel L} out inb B N m0 wf spec cBlocks
    (shs : list L) g :
  kernel_contract B wf spec -> grid_pre out inb B N m0 ->
  0 < cBlocks -> length shs = cBlocks -> Forall wf shs ->
  rtc (gstep out inb B N) (grid_init B cBlocks m0 shs) g ->
  ~ gfault out inb B N g
  /\ (gdone N g -> contents (gmem g) out = grid_out B spec (contents m0 inb)
                  /\ forall a, ~ in_buf out a -> gmem g !! a = m0 !! a).
Proof. apply grid_run_sound. Qed.

(** C9: The invariant of the grid, in every state reachable from a launch
    of any kernel body that meets its contract: each output cell holds
    either its value before the launch or its final value, so the
    writes of two blocks that run the same segment (blocks b and b' > b
    both reach the segments from b' on) never leave a third value; and
    nothing outside the output has changed. *)
Theorem grid_writes_benign {L} `{SegmentKernel L} out inb B N m0 wf spec cBlocks
    (shs : list L) g :
  kernel_contract B wf spec -> grid_pre out inb B N m0 ->
  length shs = cBlocks -> Forall wf shs ->
  rtc (gstep out inb B N) (grid_init B cBlocks m0 shs) g ->
  (forall k, k < N -> gmem g !!! (base out + k) = m0 !!! (base out + k)
                   \/ gmem g !!! (base out + k) = grid_out B spec (contents m0 inb) !!! k)
  /\ forall a, ~ in_buf out a -> gmem g !! a = m0 !! a.
Proof.
  intros HK Hpre Hl Hw Hr.
  destruct (grid_reach_inv out inb B N m0 wf spec cBlocks shs g HK Hpre Hl Hw Hr)
    as (_ & Hfr & Hcell & _). split; [exact Hcell|exact Hfr].
Qed.

(** C8: Liveness and termination of the grid: from every state reachable
    from the launch some schedule finishes every block's loop, and
    every run, whatever the schedule, takes at most
    [sum_(b < cBlocks) (N/B - b)] iterations, exactly that many when it
    finishes: block [b] runs [N/B - b] iterations, not one segment per
    block as a stride of [gridDim.x * blockDim.x] would give. *)
Theorem grid_run_terminates {L} `{SegmentKernel L} out inb B N m0 wf spec cBlocks
    (shs : list L) n g :
  kernel_contract B wf spec -> grid_pre out inb B N m0 ->
  length shs = cBlocks -> Forall wf shs ->
  nsteps (gstep out inb B N) n (grid_init B cBlocks m0 shs) g ->
  (exists g', rtc (gstep out inb B N) g g' /\ gdone N g')
  /\ n <= sum_list (map (fun b => N / B - b) (seq 0 cBlocks))
  /\ (gdone N g -> n = sum_list (map (fun b => N / B - b) (seq 0 cBlocks))).
Proof.
  intros HK Hpre Hl Hw Hn. pose proof Hpre as (HB&HN&?&?&?&?&?&?).
  assert (Hg0 : ginv out inb B N m0 wf spec (grid_init B cBlocks m0 shs)) by (by eapply ginv_init).
  assert (Hm : gmeasure N g + n * B = gmeasure N (grid_init B cBlocks m0 shs))
    by (eapply (gmeasure_nsteps out inb B N m0 wf spec); eauto).
  rewrite (gmeasure_init out inb B N m0) in Hm by done.
  split_and!.
  - eapply ginv_finish; eauto. eapply ginv_rtc; eauto. by eapply rtc_nsteps_2.
  - nia.
  - intros Hd. rewrite (gmeasure_done out inb B N) in Hm by done. nia.
Qed.

(** The sequential schedule returns a finished run's memory. *)
Lemma grid_seq_sound {L} `{SegmentKernel L} out inb B N m0 wf spec (shs : list L) :
  kernel_contract B wf spec -> grid_pre out inb B N m0 -> 0 < length shs -> Forall wf shs ->
  exists m', grid_seq out inb B N shs m0 = Some m'
    /\ (exists g, rtc (gstep out inb B N) (grid_init B (length shs) m0 shs) g
                  /\ gdone N g /\ gmem g = m')
    /\ contents m' out = grid_out B spec (contents m0 inb)
    /\ forall a, ~ in_buf out a -> m' !! a = m0 !! a.
Proof.
  intros HK Hpre Hc Hw. pose proof Hpre as (?&?&?&?&?&?&?&?).
  destruct (blocks_seq_steps out inb B N m0 wf spec HK ltac:(done) ltac:(done) ltac:(done)
              ltac:(done) ltac:(done) ltac:(done) ltac:(done) ltac:(done)
              shs (length shs) 0 (grid_init B (length shs) m0 shs))
    as (g & Hr & Hd & Hseq).
  - by apply ginv_init.
  - cbn. by rewrite length_map, length_seq.
  - intros b Hb. cbn [grid_init gpc gsh]. split; [|done].
    rewrite list_lookup_fmap, lookup_seq_lt by lia. done.
  - intros b i Hb. lia.
  - exists (gmem g). split; [exact Hseq|]. split; [by exists g|].
    destruct (grid_run_sound out inb B N m0 wf spec (length shs) shs g HK Hpre Hc eq_refl Hw Hr)
      as [_ Hok].
    exact (Hok Hd).
Qed.

(** C11: The sequential schedule of a launch: the blocks run one after the
    other, each through its whole grid-stride loop ([grid_seq], an
    executable function).  For any kernel body that meets its contract
    on [cBlocks > 0] blocks, it returns (no iteration is undefined
    behaviour and every loop ends), its result is the memory of a
    finished run of the grid's step relation from the launch, and so it
    leaves [grid_out] in the output and changes nothing else. *)
Theorem grid_seq_correct {L} `{SegmentKernel L} out inb B N m0 wf spec (shs : list L) :
  kernel_contract B wf spec -> grid_pre out inb B N m0 -> 0 < length shs -> Forall wf shs ->
  exists m', grid_seq out inb B N shs m0 = Some m'
    /\ (exists g, rtc (gstep out inb B N) (grid_init B (length shs) m0 shs) g
                  /\ gdone N g /\ gmem g = m')
    /\ contents m' out = grid_out B spec (contents m0 inb)
    /\ forall a, ~ in_buf out a -> m' !! a = m0 !! a.
Proof. apply grid_seq_sound. Qed.

(** A kernel whose segment results make up a reference array function
    [ref] of the whole input: the launch computes [ref]. *)
Lemma grid_run_refines {L} `{SegmentKernel L} out inb B N m0 wf spec
    (ref : list Z -> list Z) cBlocks (shs : list L) g :
  kernel_contract B wf spec -> grid_out B spec (contents m0 inb) = ref (contents m0 inb) ->
  grid_pre out inb B N m0 ->
  0 < cBlocks -> length shs = cBlocks -> Forall wf shs ->
  rtc (gstep out inb B N) (grid_init B cBlocks m0 shs) g ->
  ~ gfault out inb B N g
  /\ (gdone N g -> contents (gmem g) out = ref (contents m0 inb)
                  /\ forall a, ~ in_buf out a -> gmem g !! a = m0 !! a).
Proof.
  intros HK Href Hpre Hc Hl Hw Hr.
  destruct (grid_run_sound out inb B N m0 wf spec cBlocks shs g HK Hpre Hc Hl Hw Hr) as [Hf Hd].
  split; [done|]. intros Hg. rewrite <- Href. by apply Hd.
Qed.

(** The grid theorems on a copy kernel ([out[i+tid] = in[i+tid]]), two
    blocks of 16 threads over 32 ints. *)
#[local] Instance copy_kernel : SegmentKernel unit := fun l xs => (l, xs).

Lemma copy_contract B : kernel_contract (H := copy_kernel) B (fun _ => True) id.
Proof. split; done. Qed.

Definition ex_grid_mem : Mem := map Z.of_nat (seq 0 64).

Lemma grid_run_correct_witness :
  ~ gfault (H := copy_kernel) (Buf 32 32) (Buf 0 32) 16 32 (grid_init 16 2 ex_grid_mem [tt; tt])
  /\ (gdone 32 (grid_init 16 2 ex_grid_mem [tt; tt]) ->
      contents ex_grid_mem (Buf 32 32) = grid_out 16 id (contents ex_grid_mem (Buf 0 32))
      /\ forall a, ~ in_buf (Buf 32 32) a -> ex_grid_mem !! a = ex_grid_mem !! a).
Proof.
  apply (grid_run_correct (Buf 32 32) (Buf 0 32) 16 32 ex_grid_mem (fun _ => True) id 2 [tt; tt]);
    [apply copy_contract|decide_vm|lia|reflexivity|by apply Forall_true|apply rtc_refl].
Defined.

Lemma grid_writes_benign_witness :
  (forall k, k < 32 -> ex_grid_mem !!! (32 + k) = ex_grid_mem !!! (32 + k)
                  \/ ex_grid_mem !!! (32 + k) = grid_out 16 id (contents ex_grid_mem (Buf 0 32)) !!! k)
  /\ forall a, ~ in_buf (Buf 32 32) a -> ex_grid_mem !! a = ex_grid_mem !! a.
Proof.
  apply (grid_writes_benign (H := copy_kernel) (Buf 32 32) (Buf 0 32) 16 32 ex_grid_mem (fun _ => True) id 2
           [tt; tt] (grid_init 16 2 ex_grid_mem [tt; tt]));
    [apply copy_contract|decide_vm|reflexivity|by apply Forall_true|apply rtc_refl].
Defined.

Lemma grid_run_terminates_witness :
  (exists g', rtc (gstep (H := copy_kernel) (Buf 32 32) (Buf 0 32) 16 32)
                (grid_init 16 2 ex_grid_mem [tt; tt]) g' /\ gdone 32 g')
  /\ 0 <= sum_list (map (fun b => 32 / 16 - b) (seq 0 2))
  /\ (gdone 32 (grid_init 16 2 ex_grid_mem [tt; tt]) -> 0 = sum_list (map (fun b => 32 / 16 - b) (seq 0 2))).
Proof.
  apply (grid_run_terminates (H := copy_kernel) (Buf 32 32) (Buf 0 32) 16 32 ex_grid_mem (fun _ => True) id 2
           [tt; tt] 0);
    [apply copy_contract|decide_vm|reflexivity|by apply Forall_true|apply nsteps_O].
Defined.

Lemma grid_seq_correct_witness :
  exists m', grid_seq (H := copy_kernel) (Buf 32 32) (Buf 0 32) 16 32 [tt; tt] ex_grid_mem = Some m'
    /\ (exists g, rtc (gstep (H := copy_kernel) (Buf 32 32) (Buf 0 32) 16 32)
                    (grid_init 16 (length [tt; tt]) ex_grid_mem [tt; tt]) g /\ gdone 32 g /\ gmem g = m')
    /\ contents m' (Buf 32 32) = grid_out 16 id (contents ex_grid_mem (Buf 0 32))
    /\ forall a, ~ in_buf (Buf 32 32) a -> m' !! a = ex_grid_mem !! a.
Proof.
  apply (grid_seq_correct (H := copy_kernel) (Buf 32 32) (Buf 0 32) 16 32 ex_grid_mem (fun _ => True) id [tt; tt]);
    [apply copy_contract|decide_vm|cbn; lia|by apply Forall_true].
Defined.

End Grid.
