(* ===== verification/Kernels.v ===== *)
(** * Kernels: the scan kernels of testScanBlock.cu on the grid

    Each kernel of src/scan/warp/testScanBlock.cu is a body of the
    grid-stride loop of [Grid] (an instance of [Grid.SegmentKernel]) and
    is checked against the contract of [Grid.kernel_contract]; the grid
    theorems then give the output of the whole launch, which is compared
    with the CPU oracles of [CpuScan], as [TestScanBlock] does.

    - [ScanGPUBlock_iter]: the body of [ScanGPUBlock<scantype>] (lines
      174-185): every thread stores [in[i+tid]] to its slot, barrier,
      [scanBlock], and for the exclusive scan a barrier and the read of
      the slot of [tid-1].
    - [ScanGPUWarp_iter]: the body of [ScanGPUWarp<scantype>] (lines
      138-149), the warp scan of [WarpScan] on the block's slots.
    - [ScanGPUWarpShuffle_iter]: the body of [ScanGPUWarpShuffle]
      (lines 376-386), the register-exchange warp scan.
    - [ScanInclusiveGPUWarp_0_iter], [ScanExclusiveGPUWarp_0_iter] and
      [ScanGPUWarp_0_prologue]: the zero-padded kernels (lines 251-298),
      on the padded layout of [ZeroPad].
    - [ScanGPUBlockShuffle_iter]: the body of [ScanGPUBlockShuffle]
      (lines 208-220), the block scan of [BlockShuffle].
    - [KernelLaunch] and the host wrappers [ScanGPU_host],
      [ScanGPUBlock_host], [ScanGPUBlockShuffle_host] (its [switch] and
      its fall-through), [ScanGPU_0_host], [ScanGPUShuffle_host]: the
      launch each wrapper makes.
    - [ScanGPUBlock_exclusive_two], [ScanGPUBlockShuffle_two]: two
      iterations of one block with the warps of the stretch between
      them in a given order, for the races.

    The theorems: each body meets [Grid.kernel_contract], so every
    finished run holds the periodic scan of the CPU oracle of the same
    period; the shuffle wrapper's dispatch; the races of
    [ScanGPUBlock<Exclusive>] and [ScanGPUBlockShuffle] across loop
    iterations. *)

From Stdlib Require Import ZArith Lia.
From stdpp Require Import base list options relations.
From S2P Require Import Prelude CpuScan WarpScan ZeroPad BlockScan BlockShuffle Grid.

Module Kernels.
Import CpuScan WarpScan ZeroPad BlockScan BlockShuffle Grid.

(* ----------------------------------------------------------------- *)
(** ** [ScanGPUBlock<scantype>]                                       *)
(* ----------------------------------------------------------------- *)

(** One iteration of [ScanGPUBlock<scantype>] on a block of
    [length xs] threads whose shared memory is [st]:
    [sPartials[tid] = in[i+tid]; __syncthreads();
     int myValue = scanBlock<int,false>(sPartials+tid, scanWarp<int,false>);
     if (scantype == Exclusive) { __syncthreads(); myValue = (tid) ? sPartials[tid-1] : 0; }
     out[i+threadIdx.x] = myValue;] *)
Definition ScanGPUBlock_iter (scantype : ScanType) (st : BState) (xs : list Z)
    : BState * list Z :=
  let st1 := mkBState xs (warpPartials st) (sums st) in
  let st2 := scanBlock (length xs) st1 in
  match scantype with
  | Inclusive => (st2, sums st2)
  | Exclusive =>
      (st2, imap (fun tid _ => if decide (tid = 0) then 0%Z else sPartials st2 !!! (tid - 1))
              (sums st2))
  end.

#[export] Instance ScanGPUBlock_kernel (scantype : ScanType) : SegmentKernel BState :=
  ScanGPUBlock_iter scantype.


(** One iteration of [ScanInclusiveGPUWarp_0] on the padded shared
    array [sh]: [sPartials[sIndex] = in[i+threadIdx.x];
    out[i+threadIdx.x] = scanWarp<int,true>(sPartials+sIndex);] with no
    barrier: each warp reads and writes only its own slots. *)
Definition ScanInclusiveGPUWarp_0_iter (sh : list Z) (xs : list Z) : list Z * list Z :=
  let sh2 := scanWarpZP (length xs) (zp_store xs sh) in
  (sh2, zp_gather (length xs) sh2).

(** [ScanExclusiveGPUWarp_0]: the same with
    [scanWarpExclusive<int,true>], which returns the cell below the
    thread's slot, a zero of the padding for lane 0. *)
Definition ScanExclusiveGPUWarp_0_iter (sh : list Z) (xs : list Z) : list Z * list Z :=
  let sh2 := scanWarpZP (length xs) (zp_store xs sh) in
  (sh2, map (fun tid => sh2 !!! (sIndex tid - 1)) (seq 0 (length xs))).

#[export] Instance ScanInclusiveGPUWarp_0_kernel : SegmentKernel (list Z) :=
  ScanInclusiveGPUWarp_0_iter.
#[export] Instance ScanExclusiveGPUWarp_0_kernel : SegmentKernel (list Z) :=
  ScanExclusiveGPUWarp_0_iter.

(** The kernel of [scantype]: the two entry points side by side. *)
Definition ScanGPUWarp_0_kernel (scantype : ScanType) : SegmentKernel (list Z) :=
  match scantype with
  | Inclusive => ScanInclusiveGPUWarp_0_kernel
  | Exclusive => ScanExclusiveGPUWarp_0_kernel
  end.

(** The prologue of both kernels, before their loop:
    [sPartials[sIndex-16] = 0;] for the [n] threads of the block. *)
Definition ScanGPUWarp_0_prologue (n : nat) (sh : list Z) : list Z := zp_clear n sh.

(** One iteration of [ScanGPUBlockShuffle<scantype, logBlockSize>]
    with the block's static array [aux]:
    [int myValue = in[i+tid];
     myValue = exclusive_scan_block<logBlockSize>(myValue, tid)] (or the
    inclusive one); [out[i+threadIdx.x] = myValue;] *)
Definition ScanGPUBlockShuffle_iter (scantype : ScanType) (logBlockSize : nat)
    (aux : list Z) (xs : list Z) : list Z * list Z :=
  let st' := inclusive_scan_block (logBlockSize - 5) (length xs) (mkSB xs aux) in
  (saux st',
   match scantype with
   | Inclusive => sval st'
   | Exclusive => exclusive_scan_block (logBlockSize - 5) (length xs) (mkSB xs aux)
   end).

#[export] Instance ScanGPUBlockShuffle_kernel (scantype : ScanType) (logBlockSize : nat)
  : SegmentKernel (list Z) := ScanGPUBlockShuffle_iter scantype logBlockSize.

(** The warp result of [scantype]. *)
Definition warp_spec (scantype : ScanType) : list Z -> list Z :=
  match scantype with Inclusive => warp_inclusive_spec | Exclusive => warp_exclusive_spec end.

(** The block result of [scantype]. *)
Definition block_spec (scantype : ScanType) : list Z -> list Z :=
  match scantype with Inclusive => block_inclusive_spec | Exclusive => block_exclusive_spec end.

(* ----------------------------------------------------------------- *)
(** ** The periodic scans as grid results                             *)
(* ----------------------------------------------------------------- *)

Lemma grid_out_block_inclusive B xs :
  0 < B -> grid_out B block_inclusive_spec xs = periodic_scan Inclusive B xs.
Proof.
  intros HB. apply list_eq_total; [unfold grid_out, periodic_scan; by rewrite !length_imap|].
  intros k Hk. unfold grid_out in Hk. rewrite length_imap in Hk. rewrite grid_out_lookup by done.
  unfold block_inclusive_spec, periodic_scan.
  pose proof (Nat.mod_upper_bound k B ltac:(lia)).
  rewrite !imap_lookup_total by (rewrite ?length_seg_of; lia).
  rewrite rsum_seg_of by lia. f_equal. cbn [scan_count]. f_equal. lia.
Qed.

Lemma grid_out_block_exclusive B xs :
  0 < B -> grid_out B block_exclusive_spec xs = periodic_scan Exclusive B xs.
Proof.
  intros HB. apply list_eq_total; [unfold grid_out, periodic_scan; by rewrite !length_imap|].
  intros k Hk. unfold grid_out in Hk. rewrite length_imap in Hk. rewrite grid_out_lookup by done.
  unfold block_exclusive_spec, periodic_scan.
  pose proof (Nat.mod_upper_bound k B ltac:(lia)).
  rewrite !imap_lookup_total by (rewrite ?length_seg_of; lia).
  rewrite rsum_seg_of by lia. f_equal. cbn [scan_count]. f_equal. lia.
Qed.

Lemma mod_mod_32 B k : 0 < B -> B mod 32 = 0 -> (k mod B) mod 32 = k mod 32.
Proof.
  intros HB H32. pose proof (Nat.div_mod_eq k B) as Hk. pose proof (Nat.div_mod_eq B 32) as HB32.
  rewrite H32, Nat.add_0_r in HB32.
  replace k with (k mod B + (k / B * (B / 32)) * 32) at 2 by nia.
  by rewrite Nat.Div0.mod_add.
Qed.

Lemma grid_out_warp st B xs :
  0 < B -> B mod 32 = 0 -> grid_out B (warp_spec st) xs = periodic_scan st 32 xs.
Proof.
  intros HB H32. apply list_eq_total; [unfold grid_out, periodic_scan; by rewrite !length_imap|].
  intros k Hk. unfold grid_out in Hk. rewrite length_imap in Hk. rewrite grid_out_lookup by done.
  pose proof (Nat.mod_upper_bound k B ltac:(lia)) as Ht.
  pose proof (mod_mod_32 B k HB H32) as Hm. rewrite <- laneid_mod in Hm.
  pose proof (laneid_le (k mod B)).
  pose proof (Nat.Div0.mod_le k B).
  unfold periodic_scan. rewrite imap_lookup_total by done.
  destruct st; unfold warp_spec, warp_inclusive_spec, warp_exclusive_spec;
    rewrite imap_lookup_total by (rewrite length_seg_of; lia);
    rewrite rsum_seg_of by lia; cbn [scan_count]; rewrite Hm; do 2 f_equal; lia.
Qed.

(* ----------------------------------------------------------------- *)
(** ** The contracts                                                  *)
(* ----------------------------------------------------------------- *)

Lemma bs_wf_load n st xs :
  bs_wf n st -> length xs = n -> Forall in_int32 xs ->
  bs_wf n (mkBState xs (warpPartials st) (sums st)).
Proof. intros (_ & ? & ? & _ & ? & ?) ? ?. by split_and!. Qed.

Lemma ScanGPUBlock_contract scantype nw :
  1 <= nw <= 32 ->
  kernel_contract (H := ScanGPUBlock_kernel scantype) (32 * nw) (bs_wf (32 * nw))
    (block_spec scantype).
Proof.
  intros Hnw. split; unfold seg_iter, ScanGPUBlock_kernel, ScanGPUBlock_iter.
  - intros st xs Hwf Hl Hx. rewrite Hl. destruct scantype; apply scanBlock_wf, bs_wf_load; done.
  - intros st xs Hwf Hl Hx. rewrite Hl. pose proof (bs_wf_load _ _ _ Hwf Hl Hx) as Hwf1.
    destruct (scanBlock_correct nw _ Hnw Hwf1) as [Hsu Hsh]. cbn [sPartials] in Hsu, Hsh.
    destruct scantype; cbv zeta; cbn [snd block_spec]; [exact Hsu|].
    rewrite Hsu, Hsh. unfold block_inclusive_spec, block_exclusive_spec.
    apply list_eq_total; [by rewrite !length_imap|].
    intros tid Ht. rewrite !length_imap in Ht. rewrite !imap_lookup_total by (rewrite ?length_imap; lia).
    case_decide as H0; [subst; cbn [rsum]; by rewrite wrap32_0|]. do 2 f_equal. lia.
  - intros xs Hl. destruct scantype; unfold block_spec, block_inclusive_spec, block_exclusive_spec;
      by rewrite length_imap.
Qed.

(* ----------------------------------------------------------------- *)
(** ** [ScanGPUWarp<scantype>] and [ScanGPUWarpShuffle<scantype>]      *)
(* ----------------------------------------------------------------- *)

(** One iteration of [ScanGPUWarp<scantype>]: the [blockDim.x] slots of
    [sPartials] are all overwritten by
    [sPartials[threadIdx.x] = in[i+threadIdx.x]; __syncthreads();],
    then every thread calls [scanWarp<int,false>] (inclusive) or
    [scanWarpExclusive<int,false>] on its slot; the scan leaves the
    inclusive warp sums in the slots. *)
Definition ScanGPUWarp_iter (scantype : ScanType) (sh : list Z) (xs : list Z)
    : list Z * list Z :=
  (scanWarp xs,
   match scantype with
   | Inclusive => scanWarp xs
   | Exclusive => scanWarpExclusive xs
   end).

#[export] Instance ScanGPUWarp_kernel (scantype : ScanType) : SegmentKernel (list Z) :=
  ScanGPUWarp_iter scantype.

(** One iteration of [ScanGPUWarpShuffle<scantype>]: no shared memory;
    [out[i+threadIdx.x] = inclusive_scan_warp_shfl<5>(in[i+threadIdx.x])]
    or its exclusive counterpart. *)
Definition ScanGPUWarpShuffle_iter (scantype : ScanType) (u : unit) (xs : list Z)
    : unit * list Z :=
  (u, match scantype with
      | Inclusive => inclusive_scan_warp_shfl 5 xs
      | Exclusive => exclusive_scan_warp_shfl 5 xs
      end).

#[export] Instance ScanGPUWarpShuffle_kernel (scantype : ScanType) : SegmentKernel unit :=
  ScanGPUWarpShuffle_iter scantype.

Lemma length_warp_spec st xs : length (warp_spec st xs) = length xs.
Proof. destruct st; apply length_imap. Qed.

Lemma ScanGPUWarp_contract scantype B :
  kernel_contract (H := ScanGPUWarp_kernel scantype) B (fun _ => True) (warp_spec scantype).
Proof.
  split; unfold seg_iter, ScanGPUWarp_kernel, ScanGPUWarp_iter; cbn [fst snd].
  - done.
  - intros _ xs _ _ Hx. destruct scantype; cbn [warp_spec].
    + by apply scanWarp_correct.
    + by apply scanWarpExclusive_correct.
  - intros xs Hl. by rewrite length_warp_spec.
Qed.

Lemma ScanGPUWarpShuffle_contract scantype B :
  kernel_contract (H := ScanGPUWarpShuffle_kernel scantype) B (fun _ => True) (warp_spec scantype).
Proof.
  split; unfold seg_iter, ScanGPUWarpShuffle_kernel, ScanGPUWarpShuffle_iter; cbn [fst snd].
  - done.
  - intros _ xs _ _ Hx. destruct (shuffle_equals_shared xs) as [Hi He].
    destruct scantype; cbn [warp_spec].
    + rewrite <- scanWarp_correct by done. exact Hi.
    + rewrite <- scanWarpExclusive_correct by done. by apply He.
  - intros xs Hl. by rewrite length_warp_spec.
Qed.

(** What both zero-padded iterations compute on the threads' slots. *)
Lemma ScanGPUWarp_0_scan nw sh xs :
  zp_wf nw sh -> length xs = 32 * nw -> Forall in_int32 xs ->
  zp_wf nw (scanWarpZP (32 * nw) (zp_store xs sh))
  /\ zp_gather (32 * nw) (scanWarpZP (32 * nw) (zp_store xs sh)) = scanWarp xs.
Proof.
  intros Hw Hl Hx. rewrite <- (zp_gather_store nw xs sh) at 3 by done.
  apply zp_gather_scan; [by apply zp_store_wf|]. by rewrite zp_gather_store.
Qed.

Lemma ScanInclusiveGPUWarp_0_contract nw :
  kernel_contract (H := ScanInclusiveGPUWarp_0_kernel) (32 * nw) (zp_wf nw) warp_inclusive_spec.
Proof.
  split; unfold seg_iter, ScanInclusiveGPUWarp_0_kernel, ScanInclusiveGPUWarp_0_iter; cbn [fst snd].
  - intros sh xs Hw Hl Hx. rewrite Hl. apply (ScanGPUWarp_0_scan nw sh xs); done.
  - intros sh xs Hw Hl Hx. rewrite Hl. rewrite <- scanWarp_correct by done.
    apply (ScanGPUWarp_0_scan nw sh xs); done.
  - intros xs Hl. by rewrite <- Hl; apply length_imap.
Qed.

Lemma ScanExclusiveGPUWarp_0_contract nw :
  kernel_contract (H := ScanExclusiveGPUWarp_0_kernel) (32 * nw) (zp_wf nw) warp_exclusive_spec.
Proof.
  split; unfold seg_iter, ScanExclusiveGPUWarp_0_kernel, ScanExclusiveGPUWarp_0_iter; cbn [fst snd].
  - intros sh xs Hw Hl Hx. rewrite Hl. apply (ScanGPUWarp_0_scan nw sh xs); done.
  - intros sh xs Hw Hl Hx. rewrite Hl. rewrite <- scanWarpExclusive_correct by done.
    destruct (ScanGPUWarp_0_scan nw sh xs Hw Hl Hx) as [[Hl2 Hp] Hg].
    set (sh2 := scanWarpZP (32 * nw) (zp_store xs sh)) in *.
    unfold scanWarpExclusive. apply list_eq_total.
    + by rewrite length_map, length_seq, length_imap, length_scanWarp.
    + intros tid Ht. rewrite length_map, length_seq in Ht. pose proof (sIndex_lt nw tid Ht).
      rewrite list_lookup_total_alt, list_lookup_fmap, lookup_seq_lt by done. cbn [fmap option_fmap option_map default].
      rewrite imap_lookup_total by (rewrite length_scanWarp; lia).
      unfold id. rewrite Nat.add_0_l. case_decide as H0.
      * apply Hp; [lia|]. by apply sIndex_pad_1.
      * rewrite (sIndex_sub tid 1) by lia. rewrite <- Hg.
        by rewrite zp_gather_lookup by lia.
  - intros xs Hl. by rewrite <- Hl; apply length_imap.
Qed.

(** The static array of [inclusive_scan_block]: 32 [int]s. *)
Definition aux_wf (aux : list Z) : Prop := length aux = 32 /\ Forall in_int32 aux.

Lemma ScanGPUBlockShuffle_contract scantype logB :
  7 <= logB <= 10 ->
  kernel_contract (H := ScanGPUBlockShuffle_kernel scantype logB) (2 ^ logB) aux_wf
    (block_spec scantype).
Proof.
  intros HlogB.
  assert (Hn : 2 ^ logB = 32 * 2 ^ (logB - 5)).
  { replace logB with (5 + (logB - 5)) at 1 by lia. by rewrite Nat.pow_add_r. }
  assert (Hnw : 1 <= 2 ^ (logB - 5) <= 32).
  { split; [apply Nat.pow_le_mono_r with (b := 0); lia|].
    change 32 with (2 ^ 5). apply Nat.pow_le_mono_r; lia. }
  split; unfold seg_iter, ScanGPUBlockShuffle_kernel, ScanGPUBlockShuffle_iter; cbn [fst snd].
  - intros aux xs [Hl Hi] Hx Hxi. rewrite Hx, Hn.
    destruct (inclusive_scan_block_wf (logB - 5) (32 * 2 ^ (logB - 5)) (mkSB xs aux))
      as (_ & ? & _ & ?); [split_and!; cbn; lia || done|]. by split.
  - intros aux xs [Hl Hi] Hx Hxi. rewrite Hx, Hn.
    assert (Hw : sb_wf (32 * 2 ^ (logB - 5)) (mkSB xs aux)) by (split_and!; cbn; lia || done).
    destruct scantype; cbn [block_spec].
    + by apply inclusive_scan_block_correct.
    + by apply exclusive_scan_block_correct.
  - intros xs Hl. destruct scantype; cbn [block_spec]; unfold block_inclusive_spec,
      block_exclusive_spec; by rewrite length_imap.
Qed.

(** A kernel launch [kernel<<<cBlocks, cThreads, sharedBytes>>>]. *)
Inductive KernelLaunch :=
| LaunchWarp (scantype : ScanType) (cBlocks : Z) (cThreads : nat) (sharedBytes : nat)
| LaunchBlock (scantype : ScanType) (cBlocks : Z) (cThreads : nat) (sharedBytes : nat)
| LaunchBlockShuffle (scantype : ScanType) (logBlockSize : nat) (cBlocks : Z) (cThreads : nat)
| LaunchWarp0 (scantype : ScanType) (cBlocks : Z) (cThreads : nat) (sharedBytes : nat)
| LaunchWarpShuffle (scantype : ScanType) (cBlocks : Z) (cThreads : nat).

(** The number of blocks of a launch. *)
Definition launch_blocks (l : KernelLaunch) : Z :=
  match l with
  | LaunchWarp _ c _ _ | LaunchBlock _ c _ _ | LaunchBlockShuffle _ _ c _
  | LaunchWarp0 _ c _ _ | LaunchWarpShuffle _ c _ => c
  end.

(** The host wrapper [ScanGPUBlockShuffle<scantype>(out, in, N,
    cThreads)]: the [switch] returns a launch of the shuffle kernel for
    128, 256, 512 and 1024 threads; any other block size falls through
    to a launch of [ScanGPUBlock<scantype>] with [cThreads*sizeof(int)]
    bytes of shared memory. *)
Definition ScanGPUBlockShuffle_host (scantype : ScanType) (N : Z) (cThreads : nat) : KernelLaunch :=
  let cBlocks := launch_cBlocks N in
  if decide (cThreads = 128) then LaunchBlockShuffle scantype 7 cBlocks cThreads
  else if decide (cThreads = 256) then LaunchBlockShuffle scantype 8 cBlocks cThreads
  else if decide (cThreads = 512) then LaunchBlockShuffle scantype 9 cBlocks cThreads
  else if decide (cThreads = 1024) then LaunchBlockShuffle scantype 10 cBlocks cThreads
  else LaunchBlock scantype cBlocks cThreads (cThreads * 4).

(** The host wrapper [ScanGPU<scantype>] of [ScanGPUWarp]. *)
Definition ScanGPU_host (scantype : ScanType) (N : Z) (cThreads : nat) : KernelLaunch :=
  LaunchWarp scantype (launch_cBlocks N) cThreads (cThreads * 4).

(** The host wrappers [ScanInclusiveGPU_0] and [ScanExclusiveGPU_0]:
    [scanSharedMemory<int,true>(cThreads)] bytes, the padded layout of
    [ZeroPad] (48 ints per warp). *)
Definition ScanGPU_0_host (scantype : ScanType) (N : Z) (cThreads : nat) : KernelLaunch :=
  LaunchWarp0 scantype (launch_cBlocks N) cThreads (48 * (cThreads / 32) * 4).

(** The host wrapper [ScanGPUShuffle<scantype>] of [ScanGPUWarpShuffle]. *)
Definition ScanGPUShuffle_host (scantype : ScanType) (N : Z) (cThreads : nat) : KernelLaunch :=
  LaunchWarpShuffle scantype (launch_cBlocks N) cThreads.

(** The host wrapper [ScanGPUBlock<scantype>]. *)
Definition ScanGPUBlock_host (scantype : ScanType) (N : Z) (cThreads : nat) : KernelLaunch :=
  LaunchBlock scantype (launch_cBlocks N) cThreads (cThreads * 4).

(* ----------------------------------------------------------------- *)
(** ** The grid result of [ScanGPUBlock<Inclusive>]                   *)
(* ----------------------------------------------------------------- *)

(** C2: ScanGPUBlock<Inclusive> launched on cBlocks > 0 blocks of 32*nw
    threads (1 <= nw <= 32) over N ints, N a multiple of the block size:
    whatever the interleaving of the blocks, no iteration is undefined
    behaviour, and when every block has left its loop the output holds
    the periodic inclusive scan of period 32*nw of the input and nothing
    else in memory has changed. *)
Theorem ScanGPUBlock_inclusive_correct nw out inb N m0 cBlocks (shs : list BState) g :
  1 <= nw <= 32 -> grid_pre out inb (32 * nw) N m0 ->
  0 < cBlocks -> length shs = cBlocks -> Forall (bs_wf (32 * nw)) shs ->
  rtc (gstep (H := ScanGPUBlock_kernel Inclusive) out inb (32 * nw) N)
      (grid_init (32 * nw) cBlocks m0 shs) g ->
  ~ gfault (H := ScanGPUBlock_kernel Inclusive) out inb (32 * nw) N g
  /\ (gdone N g -> contents (gmem g) out = periodic_scan Inclusive (32 * nw) (contents m0 inb)
                  /\ forall a, ~ in_buf out a -> gmem g !! a = m0 !! a).
Proof.
  intros Hnw Hpre. apply (grid_run_refines _ _ _ _ _ _ _ _ _ _ _ (ScanGPUBlock_contract Inclusive nw Hnw)).
  - apply grid_out_block_inclusive. lia.
  - done.
Qed.

(* ----------------------------------------------------------------- *)
(** ** The grid results of the warp kernels                           *)
(* ----------------------------------------------------------------- *)

(** C19: ScanGPUWarp<scantype> on cBlocks > 0 blocks of B threads, B a
    multiple of 32, over N ints with N a multiple of B: in every
    interleaving no iteration faults, and a finished run leaves in the
    output the periodic scan of period 32 of the input, the result of the
    oracle ScanCPU32<scantype>, whatever the block size. *)
Theorem ScanGPUWarp_correct st B out inb N m0 cBlocks (shs : list (list Z)) g :
  B mod 32 = 0 -> grid_pre out inb B N m0 -> 0 < cBlocks -> length shs = cBlocks ->
  rtc (gstep (H := ScanGPUWarp_kernel st) out inb B N) (grid_init B cBlocks m0 shs) g ->
  ~ gfault (H := ScanGPUWarp_kernel st) out inb B N g
  /\ (gdone N g -> contents (gmem g) out = periodic_scan st 32 (contents m0 inb)
                  /\ forall a, ~ in_buf out a -> gmem g !! a = m0 !! a).
Proof.
  intros H32 Hpre Hc Hl. apply (grid_run_refines _ _ _ _ _ _ _ _ _ _ _ (ScanGPUWarp_contract st B)).
  - apply grid_out_warp; [apply Hpre|done].
  - done.
  - done.
  - done.
  - by apply Forall_true.
Qed.

(** C21: ScanGPUWarpShuffle<scantype> under the same conditions computes the
    same periodic scan of period 32: the register-exchange kernel and the
    shared-memory kernel agree on every input. *)
Theorem ScanGPUWarpShuffle_correct st B out inb N m0 cBlocks g :
  B mod 32 = 0 -> grid_pre out inb B N m0 -> 0 < cBlocks ->
  rtc (gstep (H := ScanGPUWarpShuffle_kernel st) out inb B N)
      (grid_init B cBlocks m0 (replicate cBlocks ())) g ->
  ~ gfault (H := ScanGPUWarpShuffle_kernel st) out inb B N g
  /\ (gdone N g -> contents (gmem g) out = periodic_scan st 32 (contents m0 inb)
                  /\ forall a, ~ in_buf out a -> gmem g !! a = m0 !! a).
Proof.
  intros H32 Hpre Hc.
  apply (grid_run_refines _ _ _ _ _ _ _ _ _ _ _ (ScanGPUWarpShuffle_contract st B)).
  - apply grid_out_warp; [apply Hpre|done].
  - done.
  - done.
  - apply length_replicate.
  - by apply Forall_true.
Qed.

Lemma ScanGPUWarp_0_contract st nw :
  kernel_contract (H := ScanGPUWarp_0_kernel st) (32 * nw) (zp_wf nw) (warp_spec st).
Proof. destruct st; [apply ScanInclusiveGPUWarp_0_contract|apply ScanExclusiveGPUWarp_0_contract]. Qed.

(** C20: ScanInclusiveGPUWarp_0 and ScanExclusiveGPUWarp_0, the zero-padded
    kernels, on cBlocks > 0 blocks of 32*nw threads: each block first
    clears its padding (sPartials[sIndex-16] = 0) in a shared array of
    48*nw ints of any content; then in every interleaving no iteration
    faults and a finished run holds the periodic scan of period 32, the
    result of ScanCPU32 and of the bounds-checked ScanGPUWarp. *)
Theorem ScanGPUWarp_0_correct st nw out inb N m0 cBlocks (shs0 : list (list Z)) g :
  grid_pre out inb (32 * nw) N m0 -> 0 < cBlocks -> length shs0 = cBlocks ->
  Forall (fun sh => length sh = 48 * nw) shs0 ->
  rtc (gstep (H := ScanGPUWarp_0_kernel st) out inb (32 * nw) N)
      (grid_init (32 * nw) cBlocks m0 (map (ScanGPUWarp_0_prologue (32 * nw)) shs0)) g ->
  ~ gfault (H := ScanGPUWarp_0_kernel st) out inb (32 * nw) N g
  /\ (gdone N g -> contents (gmem g) out = periodic_scan st 32 (contents m0 inb)
                  /\ forall a, ~ in_buf out a -> gmem g !! a = m0 !! a).
Proof.
  intros Hpre Hc Hl Hw. apply (grid_run_refines _ _ _ _ _ _ _ _ _ _ _ (ScanGPUWarp_0_contract st nw)).
  - apply grid_out_warp; [apply Hpre|]. rewrite Nat.mul_comm. apply Nat.Div0.mod_mul.
  - done.
  - done.
  - by rewrite length_map.
  - apply Forall_map. eapply Forall_impl; [exact Hw|]. intros sh Hsh. by apply zp_clear_wf.
Qed.


(** Two iterations of one block of [ScanGPUBlockShuffle] on [xs1] and
    [xs2].  After the second barrier of the first iteration nothing
    separates a warp's phase C, its store of the output, its load of the
    next input ([myValue = in[i+tid]]) and its phase A of the next
    iteration, which writes [sPartials[warpid]], from the phase C of
    another warp that reads [sPartials[warpid-1]]; the warps run that
    stretch in [order].  The results are the two iterations' outputs
    (inclusive scan). *)
Definition load_regs (w : nat) (xs : list Z) (st : SBState) : SBState :=
  mkSB (imap (fun tid v => if in_warp w tid then xs !!! tid else v) (sval st)) (saux st).

Definition store_regs (w : nat) (st : SBState) (outs : list Z) : list Z :=
  imap (fun tid v => if in_warp w tid then sval st !!! tid else v) outs.

Definition ScanGPUBlockShuffle_two (order : list nat) (levels n : nat) (aux0 xs1 xs2 : list Z)
    : list Z * list Z :=
  let s1 := run_phase (shflB levels) (warps n) (run_phase shflA (warps n) (mkSB xs1 aux0)) in
  let '(s2, out1) :=
    fold_left (fun '(s, o) w => let s' := shflC w s in (shflA w (load_regs w xs2 s'), store_regs w s' o))
      order (s1, xs1) in
  (out1, sval (run_phase shflC (warps n) (run_phase (shflB levels) (warps n) s2))).

(* ----------------------------------------------------------------- *)
(** ** [ScanGPUBlock<Exclusive>] across two iterations                *)
(* ----------------------------------------------------------------- *)

(** Between the barrier of line 181 of one iteration and the barrier of
    line 178 of the next, each warp [w] reads the slot of [tid-1]
    (line 182) and then stores its next input to its own slot (line
    177); nothing orders these actions of different warps. *)
Definition excl_read (w : nat) (st : BState) (outs : list Z) : list Z :=
  imap (fun tid v => if in_warp w tid
                     then if decide (tid = 0) then 0%Z else sPartials st !!! (tid - 1)
                     else v) outs.

Definition load_warp (w : nat) (xs : list Z) (st : BState) : BState :=
  mkBState (imap (fun tid v => if in_warp w tid then xs !!! tid else v) (sPartials st))
    (warpPartials st) (sums st).

(** Two iterations of one block of [n] threads, on the segments [xs1]
    and [xs2], with the warps running the interval between them in
    [order]; the results are the outputs of the two iterations. *)
Definition ScanGPUBlock_exclusive_two (order : list nat) (n : nat) (st0 : BState)
    (xs1 xs2 : list Z) : list Z * list Z :=
  let st1 := scanBlock n (mkBState xs1 (warpPartials st0) (sums st0)) in
  let '(st2, out1) :=
    fold_left (fun '(st, o) w => (load_warp w xs2 st, excl_read w st o)) order (st1, sums st1) in
  let st3 := scanBlock n st2 in
  (out1, imap (fun tid _ => if decide (tid = 0) then 0%Z else sPartials st3 !!! (tid - 1))
           (sums st3)).

(** A block state of zeros and a segment of ones, for the examples. *)
Definition zero_block (n : nat) : BState :=
  mkBState (repeat 0%Z n) (repeat 0%Z 32) (repeat 0%Z n).

(** C4: ScanGPUBlock<Exclusive> has a data race across loop iterations: with
    two warps, when warp 0 reads its predecessors' slots and stores its
    next input before warp 1 reads the slot of thread 31 (line 182), the
    first iteration's output at thread 32 is the next segment's input,
    not the exclusive prefix; the other order gives the right output.
    The result depends on the hardware's schedule. *)
Theorem ScanGPUBlock_exclusive_race :
  exists xs1 xs2,
    bs_wf 64 (zero_block 64) /\ length xs1 = 64 /\ length xs2 = 64
    /\ Forall in_int32 xs1 /\ Forall in_int32 xs2
    /\ fst (ScanGPUBlock_exclusive_two [0; 1] 64 (zero_block 64) xs1 xs2)
       <> block_exclusive_spec xs1
    /\ fst (ScanGPUBlock_exclusive_two [1; 0] 64 (zero_block 64) xs1 xs2)
       = block_exclusive_spec xs1.
Proof.
  exists (repeat 1%Z 64), (repeat 7%Z 64).
  split_and!; try (apply Forall_int32_repeat; unfold_int32; lia); try apply repeat_length.
  - unfold bs_wf, zero_block. cbn [sPartials warpPartials sums]. rewrite !repeat_length.
    split_and!; try done; apply Forall_int32_repeat; unfold_int32; lia.
  - intros Heq. apply (f_equal (fun l => l !!! 32)) in Heq.
    vm_compute in Heq. discriminate Heq.
  - vm_compute. reflexivity.
Qed.

(** C6: ScanGPUBlockShuffle, with the block scan as the specification
    describes it (no barrier after its last step), has a data race
    across loop iterations: on a block of 4 warps, when the warps run
    the stretch between iterations in ascending order, warp 0 writes its
    next total to sPartials[0] before warp 1 reads it as its carry-in,
    and the first iteration's output at thread 32 is wrong; in
    descending order both iterations are right. *)
Theorem ScanGPUBlockShuffle_race :
  exists xs1 xs2,
    length xs1 = 128 /\ length xs2 = 128 /\ Forall in_int32 xs1 /\ Forall in_int32 xs2
    /\ fst (ScanGPUBlockShuffle_two [0; 1; 2; 3] 2 128 (repeat 0%Z 32) xs1 xs2)
       <> block_inclusive_spec xs1
    /\ ScanGPUBlockShuffle_two [3; 2; 1; 0] 2 128 (repeat 0%Z 32) xs1 xs2
       = (block_inclusive_spec xs1, block_inclusive_spec xs2).
Proof.
  exists (repeat 1%Z 128), (repeat 7%Z 128).
  split_and!; try (apply Forall_int32_repeat; unfold_int32; lia); try apply repeat_length.
  - intros Heq. apply (f_equal (fun l => l !!! 32)) in Heq.
    vm_compute in Heq. discriminate Heq.
  - vm_compute. reflexivity.
Qed.

(* ----------------------------------------------------------------- *)
(** ** Concrete launches                                              *)
(* ----------------------------------------------------------------- *)

(** Device memory of 256 ints [0 .. 255]; the input is the first half,
    the output the second. *)
Definition ex_mem : Mem := map Z.of_nat (seq 0 256).

Lemma ScanGPUBlock_inclusive_correct_witness :
  ~ gfault (H := ScanGPUBlock_kernel Inclusive) (Buf 128 128) (Buf 0 128) 128 128
      (grid_init 128 1 ex_mem [zero_block 128])
  /\ (gdone 128 (grid_init 128 1 ex_mem [zero_block 128]) ->
      contents ex_mem (Buf 128 128) = periodic_scan Inclusive 128 (contents ex_mem (Buf 0 128))
      /\ forall a, ~ in_buf (Buf 128 128) a -> ex_mem !! a = ex_mem !! a).
Proof.
  apply (ScanGPUBlock_inclusive_correct 4 (Buf 128 128) (Buf 0 128) 128 ex_mem 1 [zero_block 128]);
    [lia|decide_vm|lia|reflexivity|decide_vm|apply rtc_refl].
Defined.

Lemma ScanGPUWarp_correct_witness :
  ~ gfault (H := ScanGPUWarp_kernel Exclusive) (Buf 128 128) (Buf 0 128) 64 128
      (grid_init 64 2 ex_mem [@nil Z; @nil Z])
  /\ (gdone 128 (grid_init 64 2 ex_mem [@nil Z; @nil Z]) ->
      contents ex_mem (Buf 128 128) = periodic_scan Exclusive 32 (contents ex_mem (Buf 0 128))
      /\ forall a, ~ in_buf (Buf 128 128) a -> ex_mem !! a = ex_mem !! a).
Proof.
  apply (ScanGPUWarp_correct Exclusive 64 (Buf 128 128) (Buf 0 128) 128 ex_mem 2 [@nil Z; @nil Z]);
    [reflexivity|decide_vm|lia|reflexivity|apply rtc_refl].
Defined.

Lemma ScanGPUWarpShuffle_correct_witness :
  ~ gfault (H := ScanGPUWarpShuffle_kernel Inclusive) (Buf 128 128) (Buf 0 128) 32 128
      (grid_init 32 3 ex_mem (replicate 3 ()))
  /\ (gdone 128 (grid_init 32 3 ex_mem (replicate 3 ())) ->
      contents ex_mem (Buf 128 128) = periodic_scan Inclusive 32 (contents ex_mem (Buf 0 128))
      /\ forall a, ~ in_buf (Buf 128 128) a -> ex_mem !! a = ex_mem !! a).
Proof.
  apply (ScanGPUWarpShuffle_correct Inclusive 32 (Buf 128 128) (Buf 0 128) 128 ex_mem 3);
    [reflexivity|decide_vm|lia|apply rtc_refl].
Defined.

Lemma ScanGPUWarp_0_correct_witness :
  ~ gfault (H := ScanGPUWarp_0_kernel Exclusive) (Buf 128 128) (Buf 0 128) 64 128
      (grid_init 64 1 ex_mem (map (ScanGPUWarp_0_prologue 64) [repeat 5%Z 96]))
  /\ (gdone 128 (grid_init 64 1 ex_mem (map (ScanGPUWarp_0_prologue 64) [repeat 5%Z 96])) ->
      contents ex_mem (Buf 128 128) = periodic_scan Exclusive 32 (contents ex_mem (Buf 0 128))
      /\ forall a, ~ in_buf (Buf 128 128) a -> ex_mem !! a = ex_mem !! a).
Proof.
  apply (ScanGPUWarp_0_correct Exclusive 2 (Buf 128 128) (Buf 0 128) 128 ex_mem 1 [repeat 5%Z 96]);
    [decide_vm|lia|reflexivity|decide_vm|apply rtc_refl].
Defined.


End Kernels.
