(* ===== verification/Launch.v ===== *)
(** * Launch: the kernels as functions of a block, and the launches run

    Each [__global__] function of src/scan/warp/testScanBlock.cu, as one
    block runs it: the grid-stride loop
    [for (size_t i = blockIdx.x*blockDim.x; i < N; i += blockDim.x)]
    ([Grid.block_loop]) around the iteration body of [Kernels], with the
    prologue of the zero-padded kernels before it.

    - [ScanGPUWarp], [ScanGPUBlock], [ScanGPUBlockShuffle],
      [ScanInclusiveGPUWarp_0], [ScanExclusiveGPUWarp_0],
      [ScanGPUWarpShuffle]: block [b] of [blockDim] threads, from its
      memory and shared memory to theirs at the end of its loop, [None]
      when an access leaves its array.
    - [run_launch]: a launch [<<<cBlocks, cThreads, sharedBytes>>>] that
      the host wrappers of [Kernels] return, with the blocks run one
      after the other ([Grid.run_blocks]), each from shared memory that
      holds zeros.  A negative [cBlocks] starts no block: CUDA rejects
      the configuration and the kernel does not run.

    The theorems: the wrappers that launch [ScanGPUBlock<Inclusive>],
    and the warp wrappers [ScanGPU], [ScanInclusiveGPU_0] /
    [ScanExclusiveGPU_0] and [ScanGPUShuffle], run this way, return and
    leave the periodic scan of the CPU oracles in the output.  For these
    kernels one schedule stands for all, as their iterations cannot
    overlap; the exclusive block kernel and the shuffle block kernel are
    left out, their iterations race (see [Kernels]). *)

From Stdlib Require Import ZArith Lia.
From stdpp Require Import base list options relations.
From S2P Require Import Prelude CpuScan WarpScan ZeroPad BlockScan BlockShuffle Grid Kernels.

Module Launch.
Import CpuScan WarpScan ZeroPad BlockScan BlockShuffle Grid Kernels.

(* ----------------------------------------------------------------- *)
(** ** The kernels, block by block                                    *)
(* ----------------------------------------------------------------- *)

(** [ScanGPUWarp<scantype>(out, in, N)], block [b]. *)
Definition ScanGPUWarp (scantype : ScanType) (out inb : buf) (N blockDim b : nat)
    (s : Mem * list Z) : option (Mem * list Z) :=
  block_loop (H := ScanGPUWarp_kernel scantype) out inb blockDim N b s.

(** [ScanGPUBlock<scantype>(out, in, N)], block [b]. *)
Definition ScanGPUBlock (scantype : ScanType) (out inb : buf) (N blockDim b : nat)
    (s : Mem * BState) : option (Mem * BState) :=
  block_loop (H := ScanGPUBlock_kernel scantype) out inb blockDim N b s.

(** [ScanGPUBlockShuffle<scantype, logBlockSize>(out, in, N)], block [b]. *)
Definition ScanGPUBlockShuffle (scantype : ScanType) (logBlockSize : nat) (out inb : buf)
    (N blockDim b : nat) (s : Mem * list Z) : option (Mem * list Z) :=
  block_loop (H := ScanGPUBlockShuffle_kernel scantype logBlockSize) out inb blockDim N b s.

(** [ScanInclusiveGPUWarp_0(out, in, N)], block [b]: the prologue
    [sPartials[sIndex-16] = 0;], then the loop. *)
Definition ScanInclusiveGPUWarp_0 (out inb : buf) (N blockDim b : nat) (s : Mem * list Z)
    : option (Mem * list Z) :=
  block_loop (H := ScanInclusiveGPUWarp_0_kernel) out inb blockDim N b
    (s.1, ScanGPUWarp_0_prologue blockDim s.2).

(** [ScanExclusiveGPUWarp_0(out, in, N)], block [b]. *)
Definition ScanExclusiveGPUWarp_0 (out inb : buf) (N blockDim b : nat) (s : Mem * list Z)
    : option (Mem * list Z) :=
  block_loop (H := ScanExclusiveGPUWarp_0_kernel) out inb blockDim N b
    (s.1, ScanGPUWarp_0_prologue blockDim s.2).

(** [ScanGPUWarpShuffle<scantype>(out, in, N)], block [b]: no shared
    memory. *)
Definition ScanGPUWarpShuffle (scantype : ScanType) (out inb : buf) (N blockDim b : nat)
    (s : Mem * unit) : option (Mem * unit) :=
  block_loop (H := ScanGPUWarpShuffle_kernel scantype) out inb blockDim N b s.

(** A launch, its blocks one after the other.  [sharedBytes] bytes of
    dynamic shared memory are [sharedBytes / 4] ints; [ScanGPUBlock]
    also has its static [warpPartials[32]], and [ScanGPUBlockShuffle]
    its static [sPartials[32]]. *)
Definition run_launch (l : KernelLaunch) (out inb : buf) (N : nat) (m : Mem) : option Mem :=
  match l with
  | LaunchWarp st c t sb =>
      run_blocks (ScanGPUWarp st out inb N t) (replicate (Z.to_nat c) (repeat 0%Z (sb / 4))) m
  | LaunchBlock st c t sb =>
      run_blocks (ScanGPUBlock st out inb N t)
        (replicate (Z.to_nat c) (mkBState (repeat 0%Z (sb / 4)) (repeat 0%Z 32) (repeat 0%Z t))) m
  | LaunchBlockShuffle st logB c t =>
      run_blocks (ScanGPUBlockShuffle st logB out inb N t) (replicate (Z.to_nat c) (repeat 0%Z 32)) m
  | LaunchWarp0 Inclusive c t sb =>
      run_blocks (ScanInclusiveGPUWarp_0 out inb N t) (replicate (Z.to_nat c) (repeat 0%Z (sb / 4))) m
  | LaunchWarp0 Exclusive c t sb =>
      run_blocks (ScanExclusiveGPUWarp_0 out inb N t) (replicate (Z.to_nat c) (repeat 0%Z (sb / 4))) m
  | LaunchWarpShuffle st c t =>
      run_blocks (ScanGPUWarpShuffle st out inb N t) (replicate (Z.to_nat c) ()) m
  end.

(* ----------------------------------------------------------------- *)
(** ** Runs of the launches                                           *)
(* ----------------------------------------------------------------- *)

(** What a launch that computes the periodic scan of period [p] leaves. *)
Definition scans_to (st : ScanType) (p : nat) (out inb : buf) (m0 : Mem) (r : option Mem) : Prop :=
  exists m', r = Some m' /\ contents m' out = periodic_scan st p (contents m0 inb)
    /\ forall a, ~ in_buf out a -> m' !! a = m0 !! a.

(** A prologue on each block's shared memory is a map over the blocks'
    initial shared memories. *)
Lemma run_blocks_map {L} (k : nat -> Mem * L -> option (Mem * L)) (f : L -> L) shs m :
  run_blocks (fun b s => k b (s.1, f s.2)) shs m = run_blocks k (map f shs) m.
Proof.
  unfold run_blocks. rewrite length_map. generalize (seq 0 (length shs)) as bs.
  intros bs. revert m. induction bs as [|b bs IH]; intros m; [done|]. cbn [run_iters].
  rewrite list_lookup_fmap. destruct (shs !! b); cbn; [|done].
  destruct (k b (m, f l)) as [[m' l']|]; cbn; [apply IH|done].
Qed.

Lemma run_blocks_scan {L} `{SegmentKernel L} out inb B N m0 wf spec st p (sh0 : L) c :
  kernel_contract B wf spec -> grid_out B spec (contents m0 inb) = periodic_scan st p (contents m0 inb) ->
  grid_pre out inb B N m0 -> 0 < c -> wf sh0 ->
  scans_to st p out inb m0 (grid_seq out inb B N (replicate c sh0) m0).
Proof.
  intros HK Href Hpre Hc Hw.
  destruct (grid_seq_sound out inb B N m0 wf spec (replicate c sh0) HK Hpre)
    as (m' & Hs & _ & Hc' & Hf); [by rewrite length_replicate|by apply Forall_replicate|].
  exists m'. split_and!; [done|by rewrite Hc'|done].
Qed.

Lemma zero_block_wf n sb : sb / 4 = n -> bs_wf n (mkBState (repeat 0%Z (sb / 4)) (repeat 0%Z 32) (repeat 0%Z n)).
Proof.
  intros ->. unfold bs_wf. cbn [sPartials warpPartials sums]. rewrite !repeat_length.
  split_and!; try done; apply Forall_int32_repeat; unfold_int32; lia.
Qed.

Section Runs.
Local Unset Default Proof Using.
Context (st : ScanType) (c : Z) (out inb : buf) (N : nat) (m0 : Mem).
Hypothesis Hc : (0 < c)%Z.

Lemma run_launch_block nw sb :
  1 <= nw <= 32 -> sb / 4 = 32 * nw -> grid_pre out inb (32 * nw) N m0 ->
  scans_to st (32 * nw) out inb m0 (run_launch (LaunchBlock st c (32 * nw) sb) out inb N m0).
Proof.
  intros Hnw Hsb Hpre.
  apply (run_blocks_scan (H := ScanGPUBlock_kernel st) out inb (32 * nw) N m0 (bs_wf (32 * nw))
           (block_spec st)); [by apply ScanGPUBlock_contract| |done|lia|by apply zero_block_wf].
  destruct st; [apply grid_out_block_inclusive|apply grid_out_block_exclusive]; lia.
Qed.

Lemma run_launch_warp t sb :
  t mod 32 = 0 -> grid_pre out inb t N m0 ->
  scans_to st 32 out inb m0 (run_launch (LaunchWarp st c t sb) out inb N m0).
Proof.
  intros H32 Hpre. pose proof Hpre as [HB _].
  apply (run_blocks_scan (H := ScanGPUWarp_kernel st) out inb t N m0 (fun _ => True) (warp_spec st));
    [apply ScanGPUWarp_contract|by apply grid_out_warp|done|lia|done].
Qed.

Lemma run_launch_warpshuffle t :
  t mod 32 = 0 -> grid_pre out inb t N m0 ->
  scans_to st 32 out inb m0 (run_launch (LaunchWarpShuffle st c t) out inb N m0).
Proof.
  intros H32 Hpre. pose proof Hpre as [HB _].
  apply (run_blocks_scan (H := ScanGPUWarpShuffle_kernel st) out inb t N m0 (fun _ => True)
           (warp_spec st)); [apply ScanGPUWarpShuffle_contract|by apply grid_out_warp|done|lia|done].
Qed.

Lemma run_launch_warp0 nw sb :
  sb / 4 = 48 * nw -> grid_pre out inb (32 * nw) N m0 ->
  scans_to st 32 out inb m0 (run_launch (LaunchWarp0 st c (32 * nw) sb) out inb N m0).
Proof.
  intros Hsb Hpre. pose proof Hpre as [HB _].
  assert (E : run_launch (LaunchWarp0 st c (32 * nw) sb) out inb N m0
              = grid_seq (H := ScanGPUWarp_0_kernel st) out inb (32 * nw) N
                  (replicate (Z.to_nat c) (ScanGPUWarp_0_prologue (32 * nw) (repeat 0%Z (sb / 4)))) m0).
  { unfold grid_seq. rewrite <- fmap_replicate.
    destruct st; cbn [run_launch]; apply (run_blocks_map (block_loop out inb (32 * nw) N)). }
  rewrite E. apply (run_blocks_scan out inb (32 * nw) N m0 (zp_wf nw) (warp_spec st));
    [apply ScanGPUWarp_0_contract| |done|lia|].
  - apply grid_out_warp; [lia|]. rewrite Nat.mul_comm. apply Nat.Div0.mod_mul.
  - apply zp_clear_wf. by rewrite repeat_length.
Qed.

End Runs.

(* ----------------------------------------------------------------- *)
(** ** The host wrappers, run                                         *)
(* ----------------------------------------------------------------- *)

Lemma shared_ints nw k : (k * ((32 * nw) / 32) * 4) / 4 = k * nw.
Proof. rewrite (Nat.mul_comm 32 nw), Nat.div_mul, Nat.div_mul by lia. done. Qed.

(** C10: The wrappers that launch ScanGPUBlock<Inclusive>, run with
    their blocks one after the other and each iteration of a block as
    one step: ScanGPUBlock<Inclusive> itself, and ScanGPUBlockShuffle
    <Inclusive> for the block sizes its switch does not handle (it falls
    through to ScanGPUBlock<Inclusive>, line 247).  For cThreads = 32*nw
    of 32 to 1024 threads and 150 <= N ints, N a multiple of cThreads
    with N/150 in int, they return and leave in the output the periodic
    scan of period cThreads, and change nothing else.  This one schedule
    stands for all: an iteration of the inclusive kernel touches the
    shared memory only between the barrier of line 178 and the last
    barrier of scanBlock, so iterations of a block cannot overlap.  The
    exclusive kernel and the shuffle kernel are not covered: their
    iterations race (the races of Kernels). *)
Theorem block_host_inclusive_run nw N out inb m0 l :
  1 <= nw <= 32 -> 150 <= N -> (Z.of_nat N / 150 <= INT_MAX)%Z -> grid_pre out inb (32 * nw) N m0 ->
  l = ScanGPUBlock_host Inclusive (Z.of_nat N) (32 * nw)
  \/ (l = ScanGPUBlockShuffle_host Inclusive (Z.of_nat N) (32 * nw)
      /\ 32 * nw <> 128 /\ 32 * nw <> 256 /\ 32 * nw <> 512 /\ 32 * nw <> 1024) ->
  scans_to Inclusive (32 * nw) out inb m0 (run_launch l out inb N m0).
Proof.
  intros Hnw HN Hmax Hpre Hl. pose proof (launch_cBlocks_pos (Z.of_nat N) ltac:(lia) Hmax) as Hc.
  assert (Hsb : (32 * nw * 4) / 4 = 32 * nw) by (apply Nat.div_mul; lia).
  destruct Hl as [-> | (-> & H1 & H2 & H3 & H4)]; [by apply run_launch_block|].
  unfold ScanGPUBlockShuffle_host. rewrite !decide_False by done. by apply run_launch_block.
Qed.

(** C22: The warp-scan wrappers ScanGPU<scantype>, ScanInclusiveGPU_0 /
    ScanExclusiveGPU_0 (with scanSharedMemory<int,true>(cThreads) bytes
    of shared memory) and ScanGPUShuffle<scantype>, run with their blocks
    one after the other, on cThreads = 32*nw threads and 150 <= N ints
    (N a multiple of cThreads, N/150 in int), return and leave the
    periodic scan of period 32, the result of ScanCPU32<scantype>. *)
Theorem warp_hosts_run st nw N out inb m0 l :
  150 <= N -> (Z.of_nat N / 150 <= INT_MAX)%Z -> grid_pre out inb (32 * nw) N m0 ->
  l = ScanGPU_host st (Z.of_nat N) (32 * nw) \/ l = ScanGPU_0_host st (Z.of_nat N) (32 * nw)
  \/ l = ScanGPUShuffle_host st (Z.of_nat N) (32 * nw) ->
  scans_to st 32 out inb m0 (run_launch l out inb N m0).
Proof.
  intros HN Hmax Hpre Hl. pose proof (launch_cBlocks_pos (Z.of_nat N) ltac:(lia) Hmax) as Hc.
  assert (H32 : 32 * nw mod 32 = 0) by (rewrite Nat.mul_comm; apply Nat.Div0.mod_mul).
  destruct Hl as [-> | [-> | ->]].
  - by apply run_launch_warp.
  - apply run_launch_warp0; [done|apply shared_ints|done].
  - by apply run_launch_warpshuffle.
Qed.

(* ----------------------------------------------------------------- *)
(** ** Concrete launches                                              *)
(* ----------------------------------------------------------------- *)

(** Device memory of [2 n] ints: the input [0 .. n-1], then [n] zeros. *)
Definition launch_mem (n : nat) : Mem := map Z.of_nat (seq 0 n) ++ repeat 0%Z n.

(** The exclusive shuffle launch of 128 threads over 384 ints (two
    blocks, the first running segments 0, 1, 2 and the second 1, 2)
    computes what the CPU's periodic oracle of period 128 computes. *)
Example shuffle_launch_matches_cpu :
  option_map (fun m => contents m (Buf 384 384))
    (run_launch (ScanGPUBlockShuffle_host Exclusive 384 128) (Buf 384 384) (Buf 0 384) 384 (launch_mem 384))
  = option_map (fun m => contents m (Buf 384 384))
      (ScanExclusiveCPUPeriodic 128 (Buf 384 384) (Buf 0 384) 384 (launch_mem 384)).
Proof. vm_compute. reflexivity. Qed.

Lemma block_host_inclusive_run_witness :
  scans_to Inclusive (32 * 3) (Buf 192 192) (Buf 0 192) (launch_mem 192)
    (run_launch (ScanGPUBlockShuffle_host Inclusive (Z.of_nat 192) (32 * 3)) (Buf 192 192) (Buf 0 192)
       192 (launch_mem 192)).
Proof.
  apply (block_host_inclusive_run 3 192 (Buf 192 192) (Buf 0 192) (launch_mem 192));
    [lia|lia|decide_vm|decide_vm|right; split_and!; [reflexivity|lia..]].
Defined.

Lemma warp_hosts_run_witness :
  scans_to Exclusive 32 (Buf 256 256) (Buf 0 256) (launch_mem 256)
    (run_launch (ScanGPU_0_host Exclusive (Z.of_nat 256) (32 * 2)) (Buf 256 256) (Buf 0 256)
       256 (launch_mem 256)).
Proof.
  apply (warp_hosts_run Exclusive 2 256 (Buf 256 256) (Buf 0 256) (launch_mem 256));
    [lia|decide_vm|decide_vm|right; left; reflexivity].
Defined.

End Launch.
