(* ===== verification/Harness.v ===== *)
(** * Harness: [TestScanBlock] and the test vectors of [main]

    The host side of src/scan/warp/testScanBlock.cu:

    - [iota_fill]: [for (int i = 0; i < N; i++) inCPU[i] = i;]
      (lines 437-439), which overwrites the random input;
    - [compare_loop]: the comparison of [hostGPU] with [outCPU] (lines
      448-458), which at the first difference aborts on [assert(0)] (or
      [__debugbreak()]) or, in a build without the assertion, returns
      [false] ([TestExit], [mismatch]);
    - [TestScanBlock]: the whole test (lines 404-475): allocation, the
      CUDA calls (each may fail and [goto Error]), the input, the CPU
      oracle, the copy of the GPU's output and the comparison; the GPU's
      output is an argument, the theorems take it from a finished run of
      the grid of [Grid];
    - [thread_counts]: the block sizes of [main]'s loops
      [for (int numThreads = 256; numThreads <= maxThreads;
      numThreads *= 2)], on a 32-bit [numThreads] ([double32]);
    - [main_tests], [run_vectors], [main]: the [SCAN_TEST_VECTOR]s and the
      exit status.

    The theorems: the comparison's result, abort included; a test of
    [ScanGPUBlock<Inclusive>] against [ScanCPUBlock<Inclusive>] passes
    for every finished run of the grid when no CUDA call fails; the loop
    over block sizes ends for [maxThreads < 2^30] and never ends beyond;
    [main]'s exit status. *)

From Stdlib Require Import ZArith Lia.
From stdpp Require Import base list options relations.
From S2P Require Import Prelude CpuScan BlockScan Grid Kernels.

Module Harness.
Import CpuScan BlockScan Grid Kernels.

(** [for (int i = 0; i < N; i++) inCPU[i] = i;] *)
Definition iota_fill (inb : buf) (N : nat) (m : Mem) : option Mem :=
  for_loop (S N) 0 N 1 (fun i m => store m inb i (Z.of_nat i)) m.

(** How [TestScanBlock] ends: [return ret] ([Return]), or the abort
    of [assert(0)] (or of [__debugbreak()] under _WIN32) on a mismatch,
    lines 451-455 ([Abort]). *)
Inductive TestExit := Return (ret : bool) | Abort.

(** [asserts]: the build keeps the check of lines 451-455 (no [NDEBUG],
    or _WIN32); without it a mismatch reaches [goto Error] and the test
    returns [false]. *)
Definition mismatch (asserts : bool) : TestExit := if asserts then Abort else Return false.

(** [for (size_t i = 0; i < N; i++) { if (hostGPU[i] != outCPU[i]) {
    printf("Scan failed\n"); assert(0); goto Error; } }]: the exit at the
    first difference, [Return true] after the loop. *)
Fixpoint compare_loop (asserts : bool) (fuel i N : nat) (hostGPU outCPU : buf) (m : Mem)
    : option TestExit :=
  match fuel with
  | O => None
  | S fuel' =>
      if decide (i < N) then
        g ← ld m hostGPU i; c ← ld m outCPU i;
        if decide (g = c) then compare_loop asserts fuel' (S i) N hostGPU outCPU m
        else Some (mismatch asserts)
      else Some (Return true)
  end.

(** The host arrays of the test. *)
Record HostBufs := { inCPU : buf; outCPU : buf; hostGPU : buf }.

(** Which CUDA calls of the test succeed: the set-up (event creation,
    [cudaMalloc], [cudaMemset]), the run (the copies and the event
    records around the kernel), and the timing ([cudaEventElapsedTime]). *)
Record CudaStatus := { setup_ok : bool; run_ok : bool; timing_ok : bool }.

(** [TestScanBlock<int>(&ms, name, pfnScanCPU, pfnScanGPU, N,
    numThreads)]; [allocs_ok] is the success of the three [malloc]s,
    [gpu_out] what [pfnScanGPU] left in [outGPU]. *)
Definition TestScanBlock (asserts allocs_ok : bool) (cs : CudaStatus)
    (pfnScanCPU : buf -> buf -> nat -> nat -> Mem -> option Mem) (rand : nat -> Z)
    (hb : HostBufs) (N numThreads : nat) (gpu_out : list Z) (m : Mem) : option TestExit :=
  if negb allocs_ok then Some (Return false) else
  if negb (setup_ok cs) then Some (Return false) else
  m1 ← RandomArray rand (inCPU hb) N 256 m;
  m2 ← iota_fill (inCPU hb) N m1;
  m3 ← pfnScanCPU (outCPU hb) (inCPU hb) N numThreads m2;
  if negb (run_ok cs) then Some (Return false) else
  m4 ← seg_store m3 (hostGPU hb) 0 gpu_out;
  r ← compare_loop asserts (S N) 0 N (hostGPU hb) (outCPU hb) m4;
  Some (match r with Return ok => Return (ok && timing_ok cs) | Abort => Abort end).

(** [numThreads *= 2] on the [int] [numThreads] (lines 509, 526). *)
Definition double32 (t : Z) : Z := wrap32 (2 * t).

(** The [k]-th value of [numThreads] in [main]'s loops. *)
Definition numThreads_at (k : nat) : Z := Nat.iter k double32 256%Z.

(** [for (int numThreads = 256; numThreads <= maxThreads;
    numThreads *= 2)], for at most [fuel] iterations. *)
Fixpoint thread_counts_from (fuel : nat) (numThreads maxThreads : Z) : list Z :=
  match fuel with
  | O => []
  | S fuel' =>
      if decide (numThreads <= maxThreads)%Z
      then numThreads :: thread_counts_from fuel' (double32 numThreads) maxThreads
      else []
  end.

(** The block sizes [main] tests: 32 iterations are enough for every
    [maxThreads < 2^30], for which the loop ends; for larger
    [maxThreads] the loop does not end and these are its first 32
    values. *)
Definition thread_counts (maxThreads : Z) : list Z := thread_counts_from 32 256 maxThreads.

(** The kernels [main] tests. *)
Inductive GPUScan := GPU_ScanGPUBlock | GPU_ScanGPUBlockShuffle.

(** The [SCAN_TEST_VECTOR]s [main] runs, in order, for a device of
    [maxThreads] threads per block: the first loop tests
    [ScanGPUBlockShuffle<Exclusive>] against [ScanCPUBlock<Exclusive>],
    the second [ScanGPUBlock<Inclusive>] and
    [ScanGPUBlockShuffle<Inclusive>] against [ScanCPUBlock<Inclusive>]
    (the other vectors are under [#if 0]). *)
Definition main_tests (maxThreads : Z) : list (ScanType * GPUScan * Z) :=
  map (fun t => (Exclusive, GPU_ScanGPUBlockShuffle, t)) (thread_counts maxThreads)
  ++ flat_map (fun t => [(Inclusive, GPU_ScanGPUBlock, t); (Inclusive, GPU_ScanGPUBlockShuffle, t)])
       (thread_counts maxThreads).

(** [main]'s problem size: [int numInts = 32*1048576;] *)
Definition numInts : Z := 32 * 1048576.

(** The [SCAN_TEST_VECTOR]s run in order; [test v] is the result of
    [TestScanBlock] for vector [v].  A vector that fails prints and
    calls [exit(1)], so the ones after it never run.  The result: the
    vectors run, and the exit status. *)
Fixpoint run_vectors (test : ScanType * GPUScan * Z -> bool)
    (vs : list (ScanType * GPUScan * Z)) : list (ScanType * GPUScan * Z) * Z :=
  match vs with
  | [] => ([], 0%Z)
  | v :: vs' => if test v then let '(ran, code) := run_vectors test vs' in (v :: ran, code)
                else ([v], 1%Z)
  end.

(** [main]: [cudaSetDevice(0)] and [cudaSetDeviceFlags] ([setup_ok]; a
    failure jumps to [Error: return 1]), [maxThreads] from the device's
    properties, then the vectors; [return 0] after the two loops. *)
Definition main (setup_ok : bool) (maxThreads : Z) (test : ScanType * GPUScan * Z -> bool)
    : list (ScanType * GPUScan * Z) * Z :=
  if setup_ok then run_vectors test (main_tests maxThreads) else ([], 1%Z).

(* ----------------------------------------------------------------- *)
(** ** The loops of the test                                          *)
(* ----------------------------------------------------------------- *)

Lemma compare_loop_from asserts fuel i N hg oc m :
  buf_valid m hg -> buf_valid m oc -> len hg = N -> len oc = N -> N - i < fuel ->
  compare_loop asserts fuel i N hg oc m
  = Some (if bool_decide (Forall (fun k => m !!! (base hg + k) = m !!! (base oc + k)) (seq i (N - i)))
          then Return true else mismatch asserts).
Proof.
  intros Hg Hc Hlg Hlc. revert i. induction fuel as [|fuel IH]; intros i Hf; [lia|].
  cbn [compare_loop]. case_decide as Hi.
  - rewrite !ld_Some by (done || lia). rewrite !bind_Some_l.
    replace (N - i) with (S (N - S i)) by lia. cbn [seq].
    case_decide as He.
    + rewrite IH by lia. f_equal.
      apply (f_equal (fun b : bool => if b then Return true else mismatch asserts)).
      apply bool_decide_ext. rewrite Forall_cons.
      split; [by intros; split | by intros [_ ?]].
    + rewrite bool_decide_eq_false_2; [done|]. rewrite Forall_cons. by intros [? _].
  - replace (N - i) with 0 by lia. done.
Qed.

Lemma compare_loop_contents asserts N hg oc m :
  buf_valid m hg -> buf_valid m oc -> len hg = N -> len oc = N ->
  compare_loop asserts (S N) 0 N hg oc m
  = Some (if bool_decide (contents m hg = contents m oc) then Return true else mismatch asserts).
Proof.
  intros Hg Hc Hlg Hlc. rewrite compare_loop_from by (done || lia). f_equal.
  apply (f_equal (fun b : bool => if b then Return true else mismatch asserts)).
  apply bool_decide_ext. rewrite Nat.sub_0_r, Forall_forall. split.
  - intros Hall. apply list_eq_total; [by rewrite !length_contents by done; lia|].
    intros k Hk. rewrite length_contents in Hk by done.
    rewrite !contents_lookup by (done || lia). apply Hall. apply elem_of_seq. lia.
  - intros Heq k Hk%elem_of_seq. rewrite <- !contents_lookup by (done || lia). by rewrite Heq.
Qed.

(** C28: The comparison loop of TestScanBlock, over two host arrays of N
    ints, always ends: it returns true exactly when the two arrays are
    equal; at the first difference the assert(0) of line 454 (the
    __debugbreak() under _WIN32) aborts the program, and only a build
    without the assertion (NDEBUG) reaches goto Error and returns false. *)
Theorem compare_loop_correct asserts N hg oc m :
  buf_valid m hg -> buf_valid m oc -> len hg = N -> len oc = N ->
  compare_loop asserts (S N) 0 N hg oc m
  = Some (if bool_decide (contents m hg = contents m oc) then Return true
          else if asserts then Abort else Return false).
Proof. intros. by apply compare_loop_contents. Qed.

Lemma iota_fill_spec inb N m :
  len inb = N -> buf_valid m inb ->
  exists m', iota_fill inb N m = Some m' /\ length m' = length m
    /\ contents m' inb = map Z.of_nat (seq 0 N)
    /\ forall a, ~ in_buf inb a -> m' !! a = m !! a.
Proof.
  intros Hl Hv. destruct (fill_loop_written inb N Z.of_nat m Hl Hv) as (m' & Hr & Hw).
  exists m'. split_and!; [done|apply Hw|by eapply written_contents_all|].
  intros a Ha. apply (written_frame _ _ _ _ _ _ Hw). unfold in_buf in Ha. lia.
Qed.

(* ----------------------------------------------------------------- *)
(** ** The test of [ScanGPUBlock<Inclusive>]                          *)
(* ----------------------------------------------------------------- *)

(** The host arrays: [N] ints each, valid and apart. *)
Definition host_ok (hb : HostBufs) (N : nat) (m : Mem) : Prop :=
  len (inCPU hb) = N /\ len (outCPU hb) = N /\ len (hostGPU hb) = N
  /\ buf_valid m (inCPU hb) /\ buf_valid m (outCPU hb) /\ buf_valid m (hostGPU hb)
  /\ buf_disjoint (outCPU hb) (inCPU hb) /\ buf_disjoint (hostGPU hb) (inCPU hb)
  /\ buf_disjoint (hostGPU hb) (outCPU hb).

Lemma disjoint_not_in b1 b2 a : buf_disjoint b1 b2 -> in_buf b2 a -> ~ in_buf b1 a.
Proof. unfold buf_disjoint, in_buf. lia. Qed.

Lemma disjoint_not_in' b1 b2 a : buf_disjoint b1 b2 -> in_buf b1 a -> ~ in_buf b2 a.
Proof. unfold buf_disjoint, in_buf. lia. Qed.

(** The host part of the test up to the copy of the GPU's output: the
    input is [0 .. N-1] and [outCPU] holds the oracle's periodic scan. *)
Lemma TestScanBlock_host numThreads N rand hb m :
  numThreads = 256 \/ numThreads = 512 \/ numThreads = 1024 -> N mod numThreads = 0 ->
  (forall i, 0 <= rand i)%Z -> host_ok hb N m ->
  exists m1 m2 m3,
    RandomArray rand (inCPU hb) N 256 m = Some m1 /\ iota_fill (inCPU hb) N m1 = Some m2
    /\ ScanCPUBlock Inclusive (outCPU hb) (inCPU hb) N numThreads m2 = Some m3
    /\ length m3 = length m
    /\ contents m3 (outCPU hb) = periodic_scan Inclusive numThreads (map Z.of_nat (seq 0 N)).
Proof.
  intros Ht HN Hr (Li & Lo & Lh & Vi & Vo & Vh & Doi & Dhi & Dho).
  destruct (fill_loop_written (inCPU hb) N (fun i => Z.rem (rand i) 256) m) as (m1 & Hm1 & L1 & _);
    [done|done|].
  destruct (iota_fill_spec (inCPU hb) N m1) as (m2 & Hm2 & L2 & C2 & _);
    [done|unfold buf_valid in *; lia|].
  assert (Hp : 0 < numThreads) by lia.
  destruct (periodic_loop_correct Inclusive (incl_body (outCPU hb) (inCPU hb)) add32 numThreads N
              (outCPU hb) (inCPU hb) m2)
    as (m3 & Hm3 & C3 & _ & L3); try done; try (unfold buf_valid in *; lia).
  all: try (by right); try apply incl_body_shape.
  { intros k j Hj. by apply scan_step_incl. }
  exists m1, m2, m3. split_and!; [done|done| |lia|by rewrite C3, C2].
  unfold ScanCPUBlock. destruct Ht as [-> | [-> | ->]]; exact Hm3.
Qed.

(** C1: The test that main runs, TestScanBlock(ScanCPUBlock<Inclusive>,
    ScanGPUBlock<Inclusive>, N, numThreads) for numThreads 256, 512 or
    1024 and N a multiple of it with 150 <= N <= INT_MAX: when the
    mallocs and CUDA calls succeed and the GPU's output is that of any
    finished run of the grid the host wrapper launches
    (min(N/150, 150) blocks, any schedule), the test returns true,
    with or without the assertion of line 454. *)
Theorem TestScanBlock_ScanGPUBlock_passes asserts numThreads N rand hb m inGPU outGPU dm
    (shs : list BState) g :
  numThreads = 256 \/ numThreads = 512 \/ numThreads = 1024 -> N mod numThreads = 0 ->
  150 <= N -> (Z.of_nat N <= INT_MAX)%Z -> (forall i, 0 <= rand i)%Z -> host_ok hb N m ->
  grid_pre outGPU inGPU numThreads N dm -> contents dm inGPU = map Z.of_nat (seq 0 N) ->
  length shs = Z.to_nat (launch_blocks (ScanGPUBlock_host Inclusive (Z.of_nat N) numThreads)) ->
  Forall (bs_wf numThreads) shs ->
  rtc (gstep (H := ScanGPUBlock_kernel Inclusive) outGPU inGPU numThreads N)
      (grid_init numThreads (Z.to_nat (launch_blocks (ScanGPUBlock_host Inclusive (Z.of_nat N) numThreads)))
         dm shs) g ->
  gdone N g ->
  TestScanBlock asserts true (Build_CudaStatus true true true) (ScanCPUBlock Inclusive) rand hb N
    numThreads (contents (gmem g) outGPU) m = Some (Return true).
Proof.
  intros Ht HN H150 Hmax Hr Hh Hpre Hin Hl Hw Hrun Hdone.
  unfold ScanGPUBlock_host in Hl, Hrun. cbn [launch_blocks] in Hl, Hrun.
  destruct (TestScanBlock_host numThreads N rand hb m Ht HN Hr Hh)
    as (m1 & m2 & m3 & Hm1 & Hm2 & Hm3 & L3 & C3).
  assert (Hc : 0 < Z.to_nat (launch_cBlocks (Z.of_nat N))).
  { pose proof (launch_cBlocks_pos (Z.of_nat N)) as Hpos.
    assert (Z.of_nat N / 150 <= INT_MAX)%Z by (apply Z.div_le_upper_bound; lia). lia. }
  assert (Hnw : exists nw, numThreads = 32 * nw /\ 1 <= nw <= 32)
    by (destruct Ht as [-> | [-> | ->]]; [exists 8|exists 16|exists 32]; lia).
  destruct Hnw as (nw & Hnt & Hnw). rewrite Hnt in Hpre, Hw, Hrun.
  destruct (grid_run_refines _ _ _ _ _ _ _ _ _ _ _ (ScanGPUBlock_contract Inclusive nw Hnw)
              (grid_out_block_inclusive (32 * nw) _ ltac:(lia)) Hpre Hc Hl Hw Hrun) as [_ Hd].
  destruct (Hd Hdone) as [Cg _]. rewrite Hin, <- Hnt in Cg.
  destruct Hh as (Li & Lo & Lh & Vi & Vo & Vh & Doi & Dhi & Dho).
  destruct (seg_store_whole m3 (hostGPU hb) (contents (gmem g) outGPU)) as (m4 & Hm4 & L4 & C4 & F4).
  { unfold buf_valid in *; lia. }
  { by rewrite Cg, length_periodic_scan, length_map, length_seq. }
  unfold TestScanBlock. cbn [negb setup_ok run_ok timing_ok].
  rewrite Hm1, bind_Some_l, Hm2, bind_Some_l, Hm3, bind_Some_l, Hm4, bind_Some_l.
  rewrite compare_loop_contents by (unfold buf_valid in *; lia).
  rewrite bool_decide_eq_true_2; [reflexivity|].
  rewrite C4, Cg, <- C3. symmetry. apply contents_frame; [unfold buf_valid in *; lia..|].
  intros a Ha. apply F4. by apply (disjoint_not_in (hostGPU hb) (outCPU hb)).
Qed.

Lemma numThreads_at_S k : numThreads_at (S k) = double32 (numThreads_at k).
Proof. reflexivity. Qed.

Lemma numThreads_at_pow k : k <= 22 -> numThreads_at k = (256 * 2 ^ Z.of_nat k)%Z.
Proof.
  induction k as [|k IH]; intros Hk; [done|].
  rewrite numThreads_at_S. unfold double32.
  rewrite IH by lia. rewrite Nat2Z.inj_succ, Z.pow_succ_r by lia.
  assert (2 ^ Z.of_nat k <= 2 ^ 21)%Z by (apply Z.pow_le_mono_r; lia).
  pose proof (Z.pow_pos_nonneg 2 (Z.of_nat k)).
  rewrite wrap32_id; [lia|]. unfold_int32. lia.
Qed.

Lemma numThreads_at_wrapped j : numThreads_at (24 + j) = 0%Z.
Proof.
  induction j as [|j IH]; [reflexivity|].
  replace (24 + S j) with (S (24 + j)) by lia.
  by rewrite numThreads_at_S, IH.
Qed.

Lemma thread_counts_from_seq maxThreads fuel j K :
  j <= K -> K - j < fuel -> (forall k, j <= k < K -> (numThreads_at k <= maxThreads)%Z) ->
  (maxThreads < numThreads_at K)%Z ->
  thread_counts_from fuel (numThreads_at j) maxThreads = map numThreads_at (seq j (K - j)).
Proof.
  revert j. induction fuel as [|fuel IH]; intros j Hj Hf Hle Hgt; [lia|].
  cbn [thread_counts_from]. destruct (decide (j < K)) as [Hlt|Hge].
  - rewrite decide_True by (apply Hle; lia).
    replace (K - j) with (S (K - S j)) by lia. cbn [seq map]. f_equal.
    rewrite <- numThreads_at_S. apply (IH (S j)); [lia|lia| |done]. intros k Hk. apply Hle. lia.
  - assert (j = K) as -> by lia. rewrite decide_False by lia. by rewrite Nat.sub_diag.
Qed.

(** C31: main's loops [for (int numThreads = 256; numThreads <=
    maxThreads; numThreads *= 2)] on the int numThreads: for a device
    with maxThreads < 2^30 the loop ends after K <= 22 iterations, having
    tested the sizes 256 * 2^k <= maxThreads, k < K; for maxThreads >=
    2^30 numThreads reaches 2^30, then wraps to INT_MIN and then to 0,
    which it keeps, so the loop condition holds forever and main's loop
    never ends (unless a test fails). *)
Theorem main_thread_loop maxThreads :
  ((0 <= maxThreads < 2 ^ 30)%Z ->
     exists K, K <= 22 /\ thread_counts maxThreads = map numThreads_at (seq 0 K)
       /\ (maxThreads < numThreads_at K)%Z
       /\ forall k, k < K -> numThreads_at k = (256 * 2 ^ Z.of_nat k)%Z /\ (numThreads_at k <= maxThreads)%Z)
  /\ ((2 ^ 30 <= maxThreads <= INT_MAX)%Z -> forall k, (numThreads_at k <= maxThreads)%Z).
Proof.
  split.
  - intros Hm. destruct (least_nat (fun k => maxThreads < numThreads_at k)%Z 22) as (K & HK & HPK & Hlt).
    { rewrite numThreads_at_pow by lia. cbn. lia. }
    exists K. split_and!; [done| |done|].
    + unfold thread_counts. change 256%Z with (numThreads_at 0).
      rewrite (thread_counts_from_seq maxThreads 32 0 K); [by rewrite Nat.sub_0_r|lia|lia| |done].
      intros k Hk. apply Z.nlt_ge, Hlt. lia.
    + intros k Hk. split; [apply numThreads_at_pow; lia|]. apply Z.nlt_ge, Hlt. lia.
  - intros Hm k. destruct (decide (k <= 22)) as [Hk|Hk].
    + rewrite numThreads_at_pow by done.
      assert (2 ^ Z.of_nat k <= 2 ^ 22)%Z by (apply Z.pow_le_mono_r; lia). lia.
    + destruct (decide (k = 23)) as [->|Hk']; [|].
      { assert (E : numThreads_at 23 = (- 2 ^ 31)%Z) by reflexivity. rewrite E. lia. }
      replace k with (24 + (k - 24)) by lia. rewrite numThreads_at_wrapped. lia.
Qed.

Lemma run_vectors_spec test vs :
  (run_vectors test vs).1 `prefix_of` vs
  /\ ((run_vectors test vs).2 = 0%Z <-> Forall (fun v => test v = true) vs)
  /\ ((run_vectors test vs).2 = 0%Z -> (run_vectors test vs).1 = vs).
Proof.
  induction vs as [|v vs (IHp & IHc & IHr)]; cbn [run_vectors]; [split_and!; done|].
  destruct (test v) eqn:Ht; cbn [fst snd].
  - destruct (run_vectors test vs) as [ran code]. cbn [fst snd] in *.
    split_and!; [by apply prefix_cons|rewrite Forall_cons, IHc; tauto|intros; f_equal; auto].
  - split_and!; [apply prefix_cons, prefix_nil| |done].
    split; [done|]. rewrite Forall_cons. intros [? _]. congruence.
Qed.


(* ----------------------------------------------------------------- *)
(** ** Concrete runs                                                  *)
(* ----------------------------------------------------------------- *)

(** The test for [N = 256] and [numThreads = 256]: the host arrays, the
    device memory after the copy of the input ([inGPU] then [outGPU]),
    and the run of the single block the launch starts ([256/150 = 1]):
    one iteration, after which its loop ends. *)
Definition ex_hb : HostBufs := {| inCPU := Buf 0 256; outCPU := Buf 256 256; hostGPU := Buf 512 256 |}.

Definition ex_dm : Mem := map Z.of_nat (seq 0 256) ++ repeat 0%Z 256.

Definition ex_init : GState BState := grid_init 256 1 ex_dm [zero_block 256].

Definition ex_step : Mem * BState :=
  default (ex_dm, zero_block 256)
    (block_iter (H := ScanGPUBlock_kernel Inclusive) (Buf 256 256) (Buf 0 256) 256 0 (ex_dm, zero_block 256)).

Definition ex_final : GState BState :=
  GS ex_step.1 (<[0 := 0 + 256]> (gpc ex_init)) (<[0 := ex_step.2]> (gsh ex_init)).

Lemma TestScanBlock_ScanGPUBlock_passes_witness :
  TestScanBlock true true (Build_CudaStatus true true true) (ScanCPUBlock Inclusive) (fun _ => 0%Z) ex_hb
    256 256 (contents (gmem ex_final) (Buf 256 256)) (repeat 0%Z 768) = Some (Return true).
Proof.
  apply (TestScanBlock_ScanGPUBlock_passes true 256 256 (fun _ => 0%Z) ex_hb (repeat 0%Z 768)
           (Buf 0 256) (Buf 256 256) ex_dm [zero_block 256] ex_final);
    [left; reflexivity|reflexivity|lia|unfold INT_MAX; lia|intros; lia
    |unfold host_ok, buf_valid, buf_disjoint; decide_vm|decide_vm|vm_compute; reflexivity
    |vm_compute; reflexivity|decide_vm| |unfold gdone; decide_vm].
  eapply rtc_l; [|apply rtc_refl].
  apply (gstep_iter (Buf 256 256) (Buf 0 256) 256 256 ex_init 0 0 (zero_block 256) ex_step.1 ex_step.2);
    [reflexivity|reflexivity|lia|vm_compute; reflexivity].
Defined.

Lemma compare_loop_correct_witness :
  compare_loop true 5 0 4 (Buf 0 4) (Buf 4 4) [1; 2; 3; 4; 1; 2; 3; 5]%Z
  = Some (if bool_decide (contents [1; 2; 3; 4; 1; 2; 3; 5]%Z (Buf 0 4)
                          = contents [1; 2; 3; 4; 1; 2; 3; 5]%Z (Buf 4 4))
          then Return true else if true then Abort else Return false).
Proof.
  apply (compare_loop_correct true 4 (Buf 0 4) (Buf 4 4) [1; 2; 3; 4; 1; 2; 3; 5]%Z);
    [decide_vm|decide_vm|reflexivity|reflexivity].
Defined.

Lemma main_thread_loop_witness :
  ((0 <= 1024 < 2 ^ 30)%Z ->
     exists K, K <= 22 /\ thread_counts 1024 = map numThreads_at (seq 0 K)
       /\ (1024 < numThreads_at K)%Z
       /\ forall k, k < K -> numThreads_at k = (256 * 2 ^ Z.of_nat k)%Z /\ (numThreads_at k <= 1024)%Z)
  /\ ((2 ^ 30 <= 1024 <= INT_MAX)%Z -> forall k, (numThreads_at k <= 1024)%Z).
Proof. apply (main_thread_loop 1024%Z). Defined.

End Harness.
