(* ===== verification/NBody.v ===== *)
(** * NBody: the host side of the N-body time step (nbody.cu)

    The part of src/unnamed/part_000 from line 143 on that one time step
    runs: the global host arrays (lines 236-261), [relError],
    [integrateGravitation_AOS] (lines 286-330) and [ComputeGravitation]
    (lines 348-541): the AOS -> SOA copy, the cross check
    ([cross_check]), the upload, the [switch] on the algorithm
    ([dispatch]), the SOA -> AOS copy and the maximum relative error
    ([max_rel_error]).  [main] is in [NBodyMain].

    Single-precision arithmetic is the class [Float32] of the operations
    the code applies ([+ - * /], unary minus, [==], [<]); nothing is
    assumed of them, so the theorems are about the program's data
    layout, control flow, indices and integer overflow, which hold
    whatever the rounding.  The force routines the program calls
    ([ComputeGravitation_AOS], [_SSE_threaded], the GPU and multi-GPU
    routines; their files are not under src/) are the operations of the
    class [NBodyRoutines]; what each promises is the record
    [routines_contract]: the forces of one function [forces] of the
    bodies, each in its layout.  The arrays are a store [Arrays]
    indexed by [HostArray], so distinct allocations never alias; an
    access outside an array is [None] (undefined behaviour in C); [int]
    indices are kept at 32 bits.

    The theorems: [integrateGravitation_AOS] equals [integrate_spec]
    while [4N] fits an [int] and fails beyond; each stage of
    [ComputeGravitation] and the whole time step for every algorithm;
    the compiled-out [GPU_Atomic]; the SOA -> AOS round trip. *)

From Stdlib Require Import ZArith Lia.
From stdpp Require Import base list options.
From S2P Require Import Prelude.

Module NBody.

(* ----------------------------------------------------------------- *)
(** ** Single precision, and the arrays                               *)
(* ----------------------------------------------------------------- *)

Class Float32 (F : Type) := {
  f_zero : F;
  f_one : F;
  f_add : F -> F -> F;
  f_sub : F -> F -> F;
  f_mul : F -> F -> F;
  f_div : F -> F -> F;
  f_neg : F -> F;
  f_eqb : F -> F -> bool;
  f_ltb : F -> F -> bool
}.

Section Arrays.
Context {A : Type}.

(** [a[k]] for an [int] or [size_t] index [k]. *)
Definition zload (l : list A) (k : Z) : option A :=
  if decide (0 <= k)%Z then l !! Z.to_nat k else None.

(** [a[k] = x]. *)
Definition zstore (l : list A) (k : Z) (x : A) : option (list A) :=
  if decide (0 <= k < Z.of_nat (length l))%Z then Some (<[Z.to_nat k := x]> l) else None.

Lemma zload_nat (l : list A) (k : nat) : zload l (Z.of_nat k) = l !! k.
Proof. unfold zload. rewrite decide_True by lia. by rewrite Nat2Z.id. Qed.

Lemma zstore_nat (l : list A) (k : nat) x :
  k < length l -> zstore l (Z.of_nat k) x = Some (<[k := x]> l).
Proof. intros Hk. unfold zstore. rewrite decide_True by lia. by rewrite Nat2Z.id. Qed.

Lemma zload_neg (l : list A) k : (k < 0)%Z -> zload l k = None.
Proof. intros Hk. unfold zload. by rewrite decide_False by lia. Qed.

End Arrays.

Section Float.
Context {F : Type} `{Float32 F}.

(** [relError<float>(a, b)] (lines 263-271), the one the cross-check's
    call [relError(g_hostAOS_Force[i], g_hostAOS_Force_Golden[i])]
    resolves to: the other template (lines 228-234) cannot deduce its
    [T]. *)
Definition relError (a b : F) : F :=
  if f_eqb a b then f_zero
  else let relErr := f_div (f_sub a b) b in
       if f_ltb relErr f_zero then f_neg relErr else relErr.

(* ----------------------------------------------------------------- *)
(** ** [integrateGravitation_AOS]                                     *)
(* ----------------------------------------------------------------- *)

(** The body of the loop of [integrateGravitation_AOS] for body [i]
    (lines 290-328): [int index = 4*i; int indexForce = 3*i;] keep the
    low 32 bits of [i]'s multiples; the new velocity is
    [(vel + force*invMass*dt) * damping], the new position
    [pos + vel*dt]. *)
Definition integrate_body (dt damping : F) (pforce : list F) (i : nat) (s : list F * list F)
    : option (list F * list F) :=
  let '(ppos, pvel) := s in
  let index := wrap32 (4 * Z.of_nat i) in
  let indexForce := wrap32 (3 * Z.of_nat i) in
  p0 ← zload ppos (index + 0); p1 ← zload ppos (index + 1); p2 ← zload ppos (index + 2);
  invMass ← zload pvel (index + 3);
  v0 ← zload pvel (index + 0); v1 ← zload pvel (index + 1); v2 ← zload pvel (index + 2);
  f0 ← zload pforce (indexForce + 0); f1 ← zload pforce (indexForce + 1);
  f2 ← zload pforce (indexForce + 2);
  let v0 := f_add v0 (f_mul (f_mul f0 invMass) dt) in
  let v1 := f_add v1 (f_mul (f_mul f1 invMass) dt) in
  let v2 := f_add v2 (f_mul (f_mul f2 invMass) dt) in
  let v0 := f_mul v0 damping in
  let v1 := f_mul v1 damping in
  let v2 := f_mul v2 damping in
  let p0 := f_add p0 (f_mul v0 dt) in
  let p1 := f_add p1 (f_mul v1 dt) in
  let p2 := f_add p2 (f_mul v2 dt) in
  ppos ← zstore ppos (index + 0) p0; ppos ← zstore ppos (index + 1) p1;
  ppos ← zstore ppos (index + 2) p2;
  pvel ← zstore pvel (index + 0) v0; pvel ← zstore pvel (index + 1) v1;
  pvel ← zstore pvel (index + 2) v2;
  Some (ppos, pvel).

(** [integrateGravitation_AOS(ppos, pvel, pforce, dt, damping, N)]
    (lines 286-330): [for (size_t i = 0; i < N; i++)]. *)
Definition integrateGravitation_AOS (ppos pvel pforce : list F) (dt damping : F) (N : nat)
    : option (list F * list F) :=
  for_loop (S N) 0 N 1 (integrate_body dt damping pforce) (ppos, pvel).

End Float.

Section Integrate.
Local Unset Default Proof Using.
Context {F : Type} `{Float32 F}.
#[local] Instance F_inhabited : Inhabited F := populate f_zero.
Context (dt damping : F) (ppos pvel pforce : list F).

(** The reference: body [i]'s coordinate [k < 3] after the step, from
    the arrays before it; nothing reads another body's cells. *)
Definition new_vel (i k : nat) : F :=
  f_mul (f_add (pvel !!! (4 * i + k)) (f_mul (f_mul (pforce !!! (3 * i + k)) (pvel !!! (4 * i + 3))) dt))
    damping.
Definition new_pos (i k : nat) : F := f_add (ppos !!! (4 * i + k)) (f_mul (new_vel i k) dt).

(** The cells [x, y, z] of the bodies below [j] replaced by [f]. *)
Definition upd_bodies (j : nat) (l : list F) (f : nat -> nat -> F) : list F :=
  imap (fun a x => if decide (a / 4 < j /\ a mod 4 < 3) then f (a / 4) (a mod 4) else x) l.

(** All the bodies at once, each from its own cells. *)
Definition integrate_spec (N : nat) : list F * list F :=
  (upd_bodies N ppos new_pos, upd_bodies N pvel new_vel).

Lemma upd_bodies_0 l f : upd_bodies 0 l f = l.
Proof.
  apply list_eq. intros a. unfold upd_bodies. rewrite list_lookup_imap.
  destruct (l !! a); cbn -[Nat.div Nat.modulo]; [|done]. rewrite decide_False by lia. done.
Qed.

Lemma length_upd_bodies j l f : length (upd_bodies j l f) = length l.
Proof. apply length_imap. Qed.

Lemma upd_bodies_lookup_ge j l f a : j <= a / 4 -> upd_bodies j l f !! a = l !! a.
Proof.
  intros Ha. unfold upd_bodies. rewrite list_lookup_imap.
  destruct (l !! a); cbn -[Nat.div Nat.modulo]; [|done]. case_decide as Hc; [|done]. destruct Hc. lia.
Qed.

Lemma div4 j k : k < 4 -> (4 * j + k) / 4 = j /\ (4 * j + k) mod 4 = k.
Proof.
  intros Hk. rewrite (Nat.mul_comm 4 j), Nat.add_comm, Nat.div_add, Nat.Div0.mod_add by lia.
  rewrite Nat.div_small, Nat.mod_small by lia. lia.
Qed.

Lemma upd_bodies_new j k l f :
  k < 3 -> 4 * j + k < length l -> upd_bodies (S j) l f !! (4 * j + k) = Some (f j k).
Proof.
  intros Hk Hl. unfold upd_bodies. rewrite list_lookup_imap.
  destruct (div4 j k ltac:(lia)) as [-> ->].
  destruct (lookup_lt_is_Some_2 l (4 * j + k)) as [x ->]; [lia|]. cbn -[Nat.div Nat.modulo].
  rewrite decide_True by lia. done.
Qed.

(** One more body: its three cells written, [x] first. *)
Lemma upd_bodies_S j l f :
  4 * j + 3 < length l ->
  upd_bodies (S j) l f
  = <[4 * j + 2 := f j 2]> (<[4 * j + 1 := f j 1]> (<[4 * j + 0 := f j 0]> (upd_bodies j l f))).
Proof.
  intros Hl. apply list_eq. intros a.
  assert (Hlen : forall k, 4 * j + k < length (upd_bodies j l f) \/ k > 3)
    by (intros k; rewrite length_upd_bodies; lia).
  destruct (decide (a = 4 * j + 2)) as [->|N2].
  { rewrite list_lookup_insert_eq by (rewrite !length_insert, length_upd_bodies; lia).
    apply upd_bodies_new; lia. }
  rewrite list_lookup_insert_ne by lia.
  destruct (decide (a = 4 * j + 1)) as [->|N1].
  { rewrite list_lookup_insert_eq by (rewrite !length_insert, length_upd_bodies; lia).
    apply upd_bodies_new; lia. }
  rewrite list_lookup_insert_ne by lia.
  destruct (decide (a = 4 * j + 0)) as [->|N0].
  { rewrite list_lookup_insert_eq by (rewrite length_upd_bodies; lia).
    apply upd_bodies_new; lia. }
  rewrite list_lookup_insert_ne by lia.
  unfold upd_bodies. rewrite !list_lookup_imap. destruct (l !! a); cbn -[Nat.div Nat.modulo]; [|done].
  do 2 case_decide; try done; exfalso; divmod_facts 4; lia.
Qed.

(** An [int] index of body [i]: [4*i + k] as long as it fits. *)
Lemma wrap_index i c k :
  (0 <= c)%Z -> (0 <= k)%Z -> (c * Z.of_nat i + k <= INT_MAX)%Z ->
  (wrap32 (c * Z.of_nat i) + k = Z.of_nat (Z.to_nat c * i + Z.to_nat k))%Z.
Proof. intros. rewrite wrap32_id by (unfold_int32; lia). lia. Qed.

Local Ltac ix_tac := rewrite wrap32_id by (unfold_int32; lia); lia.

Lemma integrate_step j N :
  j < N -> (4 * Z.of_nat N <= 2 ^ 31)%Z ->
  length ppos = 4 * N -> length pvel = 4 * N -> length pforce = 3 * N ->
  integrate_body dt damping pforce j (upd_bodies j ppos new_pos, upd_bodies j pvel new_vel)
  = Some (upd_bodies (S j) ppos new_pos, upd_bodies (S j) pvel new_vel).
Proof.
  intros Hj HN Lp Lv Lf. unfold integrate_body.
  assert (Hb : (4 * Z.of_nat j + 3 <= INT_MAX)%Z) by (unfold INT_MAX; lia).
  replace (wrap32 (4 * Z.of_nat j) + 0)%Z with (Z.of_nat (4 * j + 0)) by ix_tac.
  replace (wrap32 (4 * Z.of_nat j) + 1)%Z with (Z.of_nat (4 * j + 1)) by ix_tac.
  replace (wrap32 (4 * Z.of_nat j) + 2)%Z with (Z.of_nat (4 * j + 2)) by ix_tac.
  replace (wrap32 (4 * Z.of_nat j) + 3)%Z with (Z.of_nat (4 * j + 3)) by ix_tac.
  replace (wrap32 (3 * Z.of_nat j) + 0)%Z with (Z.of_nat (3 * j + 0)) by ix_tac.
  replace (wrap32 (3 * Z.of_nat j) + 1)%Z with (Z.of_nat (3 * j + 1)) by ix_tac.
  replace (wrap32 (3 * Z.of_nat j) + 2)%Z with (Z.of_nat (3 * j + 2)) by ix_tac.
  rewrite !zload_nat, !upd_bodies_lookup_ge by (destruct (div4 j 3); divmod_facts 4; lia).
  rewrite !(list_lookup_lookup_total_lt ppos), !(list_lookup_lookup_total_lt pvel),
    !(list_lookup_lookup_total_lt pforce) by lia.
  cbn [mbind option_bind].
  repeat (rewrite zstore_nat by (rewrite ?length_insert, length_upd_bodies; lia); cbn [mbind option_bind]).
  rewrite (upd_bodies_S j ppos new_pos), (upd_bodies_S j pvel new_vel) by lia. done.
Qed.

Lemma integrate_loop j n N :
  j + n <= N -> (4 * Z.of_nat N <= 2 ^ 31)%Z ->
  length ppos = 4 * N -> length pvel = 4 * N -> length pforce = 3 * N ->
  run_iters (seq j n) (integrate_body dt damping pforce) (upd_bodies j ppos new_pos, upd_bodies j pvel new_vel)
  = Some (upd_bodies (j + n) ppos new_pos, upd_bodies (j + n) pvel new_vel).
Proof.
  intros Hjn HN Lp Lv Lf. revert j Hjn. induction n as [|n IH]; intros j Hjn; cbn [seq run_iters].
  - by rewrite Nat.add_0_r.
  - rewrite (integrate_step j N) by (done || lia). cbn [mbind option_bind].
    rewrite IH by lia. by rewrite Nat.add_succ_r.
Qed.

(** The body of a step for [i] with [4*i] past [INT_MAX]: the index
    wraps to a negative [int] and the first read is undefined. *)
Lemma integrate_body_wraps i s :
  (2 ^ 29 <= Z.of_nat i < 2 ^ 30)%Z -> integrate_body dt damping pforce i s = None.
Proof.
  intros Hi. destruct s as [pp pv]. unfold integrate_body. cbv beta iota zeta.
  rewrite (zload_neg pp (wrap32 (4 * Z.of_nat i) + 0)); [reflexivity|]. unfold wrap32.
  pose proof (Z.div_mod (4 * Z.of_nat i + 2 ^ 31) (2 ^ 32) ltac:(lia)).
  pose proof (Z.mod_pos_bound (4 * Z.of_nat i + 2 ^ 31) (2 ^ 32) ltac:(lia)). lia.
Qed.

End Integrate.

(** The loop computes the reference step. *)
Lemma integrate_loop_spec {F} `{Float32 F} (ppos pvel pforce : list F) dt damping N :
  (4 * Z.of_nat N <= 2 ^ 31)%Z ->
  length ppos = 4 * N -> length pvel = 4 * N -> length pforce = 3 * N ->
  integrateGravitation_AOS ppos pvel pforce dt damping N
  = Some (integrate_spec dt damping ppos pvel pforce N).
Proof.
  intros HN Lp Lv Lf. unfold integrateGravitation_AOS. rewrite for_loop_fuel by lia.
  replace (loop_iters (S N) 0 N 1) with (seq 0 N) by (symmetry; apply (loop_iters_seq (S N) 0 N); lia).
  pose proof (integrate_loop dt damping ppos pvel pforce 0 N N) as Hl.
  rewrite !upd_bodies_0 in Hl. apply Hl; done || lia.
Qed.

(** C15: integrateGravitation_AOS over N bodies (positions and masses,
    velocities and inverse masses in stride 4, forces in stride 3), as
    long as the int index 4*i cannot overflow (4N <= 2^31): the loop
    returns, and it is the step of every body at once from its own cells
    ([integrate_spec]): velocity (vel + force*invMass*dt)*damping, then
    position pos + vel*dt, the masses and inverse masses (the fourth
    cells) unchanged. *)
Theorem integrateGravitation_AOS_spec {F} `{Float32 F} (ppos pvel pforce : list F) dt damping N :
  (4 * Z.of_nat N <= 2 ^ 31)%Z ->
  length ppos = 4 * N -> length pvel = 4 * N -> length pforce = 3 * N ->
  integrateGravitation_AOS ppos pvel pforce dt damping N
  = Some (integrate_spec dt damping ppos pvel pforce N).
Proof. apply integrate_loop_spec. Qed.

(** C16: With more than 2^29 bodies the int index 4*i of
    integrateGravitation_AOS overflows: at i = 2^29 it wraps to
    INT_MIN and the first read ppos[index+0] is out of bounds, whatever
    the arrays, so the step is undefined behaviour. *)
Theorem integrate_index_overflow {F} `{Float32 F} (ppos pvel pforce : list F) dt damping N :
  (2 ^ 29 < Z.of_nat N)%Z -> integrateGravitation_AOS ppos pvel pforce dt damping N = None.
Proof.
  intros HN. unfold integrateGravitation_AOS. rewrite for_loop_fuel by lia.
  replace (loop_iters (S N) 0 N 1) with (seq 0 N) by (symmetry; apply (loop_iters_seq (S N) 0 N); lia).
  apply (run_iters_fail _ (Z.to_nat (2 ^ 29))).
  - apply elem_of_seq. lia.
  - intros s. apply integrate_body_wraps. lia.
Qed.

(** [Z] in place of [float], for the concrete runs. *)
#[export] Instance Float32_Z : Float32 Z :=
  {| f_zero := 0; f_one := 1; f_add := Z.add; f_sub := Z.sub; f_mul := Z.mul; f_div := Z.div;
     f_neg := Z.opp; f_eqb := Z.eqb; f_ltb := Z.ltb |}%Z.

Lemma integrateGravitation_AOS_spec_witness :
  integrateGravitation_AOS [1; 2; 3; 1; 4; 5; 6; 1]%Z [0; 1; 0; 1; 1; 0; 0; 1]%Z [1; 1; 1; 2; 2; 2]%Z 1%Z 1%Z 2
  = Some (integrate_spec 1%Z 1%Z [1; 2; 3; 1; 4; 5; 6; 1]%Z [0; 1; 0; 1; 1; 0; 0; 1]%Z [1; 1; 1; 2; 2; 2]%Z 2).
Proof. apply integrateGravitation_AOS_spec; [lia|reflexivity..]. Defined.

Lemma integrate_index_overflow_witness :
  integrateGravitation_AOS (@nil Z) [] [] 1%Z 1%Z (Z.to_nat (2 ^ 29 + 1)) = None.
Proof. apply integrate_index_overflow. lia. Defined.

(* ----------------------------------------------------------------- *)
(** ** The host arrays and [ComputeGravitation]                       *)
(* ----------------------------------------------------------------- *)

(** The global arrays of lines 239-255: distinct allocations, so a
    store indexed by their names, [g_hostSOA_Pos[k]] and
    [g_hostSOA_Force[k]] for [k < 3]. *)
Inductive HostArray :=
| HostAOS_PosMass | HostAOS_VelInvMass | HostAOS_Force | HostAOS_Force_Golden
| HostSOA_Pos (k : nat) | HostSOA_Force (k : nat) | HostSOA_Mass | HostSOA_InvMass
| DptrAOS_PosMass | DptrAOS_Force.

#[export] Instance HostArray_eq_dec : EqDecision HostArray.
Proof. solve_decision. Defined.

Definition Arrays (F : Type) := HostArray -> list F.

Section Store.
Context {F : Type}.

Definition aget (s : Arrays F) (a : HostArray) (i : nat) : option F := s a !! i.

(** An array replaced as a whole. *)
Definition aput (s : Arrays F) (a : HostArray) (l : list F) : Arrays F :=
  fun b => if decide (b = a) then l else s b.

(** [a[i] = x]. *)
Definition aset (s : Arrays F) (a : HostArray) (i : nat) (x : F) : option (Arrays F) :=
  if decide (i < length (s a)) then Some (aput s a (<[i := x]> (s a))) else None.

(** [cudaMemcpy(dst, src, n*sizeof(float), ...)] (and [cudaMemcpyAsync]),
    when it succeeds: the first [n] elements. *)
Definition acopy (s : Arrays F) (dst src : HostArray) (n : nat) : option (Arrays F) :=
  if decide (n <= length (s src) /\ n <= length (s dst))
  then Some (aput s dst (take n (s src) ++ drop n (s dst))) else None.

(** [memset] / [cudaMemset] of the first [n] floats to [0]. *)
Definition azero (s : Arrays F) (dst : HostArray) (z : F) (n : nat) : option (Arrays F) :=
  if decide (n <= length (s dst)) then Some (aput s dst (repeat z n ++ drop n (s dst))) else None.

End Store.

(** The algorithms of [ComputeGravitation]'s [switch] (the enum
    [nbodyAlgorithm_enum] is declared in nbody.h, not under src/; its
    order only matters to [main]'s rotation). *)
Inductive nbodyAlgorithm :=
| CPU_AOS | CPU_AOS_tiled | CPU_SOA | CPU_SSE | CPU_SSE_threaded
| GPU_AOS | GPU_AOS_tiled | GPU_Atomic | GPU_Shared | GPU_Const | GPU_Shuffle
| multiGPU_SingleCPUThread | multiGPU_MultiCPUThread.

#[export] Instance nbodyAlgorithm_eq_dec : EqDecision nbodyAlgorithm.
Proof. solve_decision. Defined.

(** The force routines [ComputeGravitation] calls (nbody_CPU_*.h,
    nbody_GPU_*.cuh, nbody_multiGPU*.cu, not under src/): from the
    force array, the positions and masses, [softening^2] and [N], the
    time in ms and the new force array; the SOA ones take the three
    coordinate arrays, the masses, and the three force arrays. *)
Definition aos_routine (F : Type) := list F -> list F -> F -> nat -> F * list F.
Definition soa_routine (F : Type) :=
  list F * list F * list F -> list F * list F * list F -> list F -> F -> nat -> F * (list F * list F * list F).

Class NBodyRoutines (F : Type) := {
  ComputeGravitation_AOS : aos_routine F;
  ComputeGravitation_AOS_tiled : aos_routine F;
  ComputeGravitation_SOA : soa_routine F;
  ComputeGravitation_SSE : soa_routine F;
  ComputeGravitation_SSE_threaded : soa_routine F;
  ComputeGravitation_GPU_AOS : aos_routine F;
  ComputeGravitation_GPU_AOS_tiled : aos_routine F;
  ComputeGravitation_GPU_Shared : aos_routine F;
  ComputeNBodyGravitation_GPU_AOS_const : aos_routine F;
  ComputeGravitation_GPU_Shuffle : aos_routine F;
  ComputeGravitation_multiGPU_singlethread : aos_routine F;
  ComputeGravitation_multiGPU_threaded : aos_routine F
}.

(** The globals [ComputeGravitation] reads. *)
Record NBodyGlobals (F : Type) := {
  g_N : nat; g_bCUDAPresent : bool; g_bUseSSEForCrossCheck : bool;
  g_softening : F; g_dt : F; g_damping : F
}.
Arguments g_N {F}. Arguments g_bCUDAPresent {F}. Arguments g_bUseSSEForCrossCheck {F}.
Arguments g_softening {F}. Arguments g_dt {F}. Arguments g_damping {F}.

Section Compute.
Context {F : Type} `{Float32 F} `{NBodyRoutines F} (g : NBodyGlobals F).

Definition eps2 : F := f_mul (g_softening g) (g_softening g).

(** [*ms = f(g_hostAOS_Force, ...)] and the like: the routine's result
    in [fa]. *)
Definition call_aos (r : aos_routine F) (fa pa : HostArray) (s : Arrays F) : F * Arrays F :=
  let '(ms, f') := r (s fa) (s pa) eps2 (g_N g) in (ms, aput s fa f').

Definition call_soa (r : soa_routine F) (s : Arrays F) : F * Arrays F :=
  let '(ms, (f0, f1, f2)) :=
    r (s (HostSOA_Force 0), s (HostSOA_Force 1), s (HostSOA_Force 2))
      (s (HostSOA_Pos 0), s (HostSOA_Pos 1), s (HostSOA_Pos 2)) (s HostSOA_Mass) eps2 (g_N g) in
  (ms, aput (aput (aput s (HostSOA_Force 0) f0) (HostSOA_Force 1) f1) (HostSOA_Force 2) f2).

(** AOS -> SOA, lines 359-365. *)
Definition aos_to_soa_body (i : nat) (s : Arrays F) : option (Arrays F) :=
  x ← aget s HostAOS_PosMass (4 * i + 0); s ← aset s (HostSOA_Pos 0) i x;
  y ← aget s HostAOS_PosMass (4 * i + 1); s ← aset s (HostSOA_Pos 1) i y;
  z ← aget s HostAOS_PosMass (4 * i + 2); s ← aset s (HostSOA_Pos 2) i z;
  m ← aget s HostAOS_PosMass (4 * i + 3); s ← aset s HostSOA_Mass i m;
  m' ← aget s HostSOA_Mass i; aset s HostSOA_InvMass i (f_div f_one m').

(** SOA forces -> AOS array [dst]: lines 375-379 ([dst] the golden
    array) and 512-516 ([dst] [g_hostAOS_Force]). *)
Definition soa_to_aos_body (dst : HostArray) (i : nat) (s : Arrays F) : option (Arrays F) :=
  x ← aget s (HostSOA_Force 0) i; s ← aset s dst (3 * i + 0) x;
  y ← aget s (HostSOA_Force 1) i; s ← aset s dst (3 * i + 1) y;
  z ← aget s (HostSOA_Force 2) i; aset s dst (3 * i + 2) z.

(** The maximum relative error, lines 521-528:
    [if (err > max) max = err]. *)
Definition max_err_body (s : Arrays F) (i : nat) (mx : F) : option F :=
  a ← aget s HostAOS_Force i; b ← aget s HostAOS_Force_Golden i;
  let err := relError a b in Some (if f_ltb mx err then err else mx).

(** The [switch (algorithm)] of lines 395-508, after which [bSOA] says
    whether the forces are in the SOA arrays; [cuda_ok] is the success
    of the CUDA calls ([CUDART_CHECK] jumps to [Error: return false]).
    [GPU_Atomic]'s case is compiled out ([#if 0]): no routine runs and
    [*ms] is not written. *)
Definition dispatch (algorithm : nbodyAlgorithm) (cuda_ok : bool) (s : Arrays F)
    : option (option F * bool * Arrays F) :=
  let N := g_N g in
  let gpu r := (s ← (if cuda_ok then azero s DptrAOS_Force f_zero (3 * N) else None);
                let '(ms, s) := call_aos r DptrAOS_Force DptrAOS_PosMass s in
                s ← (if cuda_ok then acopy s HostAOS_Force DptrAOS_Force (3 * N) else None);
                Some (Some ms, false, s)) in
  match algorithm with
  | CPU_AOS => let '(ms, s) := call_aos ComputeGravitation_AOS HostAOS_Force HostAOS_PosMass s in
               Some (Some ms, false, s)
  | CPU_AOS_tiled =>
      let '(ms, s) := call_aos ComputeGravitation_AOS_tiled HostAOS_Force HostAOS_PosMass s in
      Some (Some ms, false, s)
  | CPU_SOA => let '(ms, s) := call_soa ComputeGravitation_SOA s in Some (Some ms, true, s)
  | CPU_SSE => let '(ms, s) := call_soa ComputeGravitation_SSE s in Some (Some ms, true, s)
  | CPU_SSE_threaded => let '(ms, s) := call_soa ComputeGravitation_SSE_threaded s in Some (Some ms, true, s)
  | GPU_AOS =>
      let '(ms, s) := call_aos ComputeGravitation_GPU_AOS DptrAOS_Force DptrAOS_PosMass s in
      s ← (if cuda_ok then acopy s HostAOS_Force DptrAOS_Force (3 * N) else None);
      Some (Some ms, false, s)
  | GPU_AOS_tiled =>
      let '(ms, s) := call_aos ComputeGravitation_GPU_AOS_tiled DptrAOS_Force DptrAOS_PosMass s in
      s ← (if cuda_ok then acopy s HostAOS_Force DptrAOS_Force (3 * N) else None);
      Some (Some ms, false, s)
  | GPU_Atomic => Some (None, false, s)
  | GPU_Shared => gpu ComputeGravitation_GPU_Shared
  | GPU_Const => gpu ComputeNBodyGravitation_GPU_AOS_const
  | GPU_Shuffle => gpu ComputeGravitation_GPU_Shuffle
  | multiGPU_SingleCPUThread =>
      s ← azero s HostAOS_Force f_zero (3 * N);
      let '(ms, s) := call_aos ComputeGravitation_multiGPU_singlethread HostAOS_Force HostAOS_PosMass s in
      Some (Some ms, false, s)
  | multiGPU_MultiCPUThread =>
      s ← azero s HostAOS_Force f_zero (3 * N);
      let '(ms, s) := call_aos ComputeGravitation_multiGPU_threaded HostAOS_Force HostAOS_PosMass s in
      Some (Some ms, false, s)
  end.

(** The cross check of lines 367-388: the golden forces, by the
    threaded SSE routine and the SOA -> AOS copy into
    [g_hostAOS_Force_Golden], or by [ComputeGravitation_AOS]. *)
Definition cross_check (s : Arrays F) : option (Arrays F) :=
  let N := g_N g in
  if g_bUseSSEForCrossCheck g then
    let '(_, s) := call_soa ComputeGravitation_SSE_threaded s in
    for_loop (S N) 0 N 1 (soa_to_aos_body HostAOS_Force_Golden) s
  else Some (call_aos ComputeGravitation_AOS HostAOS_Force_Golden HostAOS_PosMass s).2.

(** [float max = 0.0f; for (i < 3*g_N) ...], lines 521-528. *)
Definition max_rel_error (s : Arrays F) : option F :=
  for_loop (S (3 * g_N g)) 0 (3 * g_N g) 1 (max_err_body s) f_zero.

(** [ComputeGravitation(&ms, &maxRelError, algorithm, bCrossCheck)]
    (lines 348-541): the arrays after the time step, the time written
    to [*ms] ([None]: not written) and [*maxRelError]; [None] when it
    returns [false] or an access is out of bounds. *)
Definition ComputeGravitation (algorithm : nbodyAlgorithm) (bCrossCheck cuda_ok : bool)
    (s : Arrays F) : option (Arrays F * option F * F) :=
  let N := g_N g in
  s ← for_loop (S N) 0 N 1 aos_to_soa_body s;
  s ← (if bCrossCheck then cross_check s else Some s);
  s ← (if g_bCUDAPresent g then
         if cuda_ok then acopy s DptrAOS_PosMass HostAOS_PosMass (4 * N) else None
       else Some s);
  r ← dispatch algorithm cuda_ok s; let '(ms, bSOA, s) := (r : option F * bool * Arrays F) in
  s ← (if bSOA then for_loop (S N) 0 N 1 (soa_to_aos_body HostAOS_Force) s else Some s);
  maxRelError ← (if bCrossCheck then max_rel_error s else Some f_zero);
  pv ← integrateGravitation_AOS (s HostAOS_PosMass) (s HostAOS_VelInvMass) (s HostAOS_Force)
         (g_dt g) (g_damping g) N;
  let '(pos, vel) := (pv : list F * list F) in
  Some (aput (aput s HostAOS_PosMass pos) HostAOS_VelInvMass vel, ms, maxRelError).

End Compute.

Section StoreLemmas.
Context {F : Type}.

Lemma aput_eq (s : Arrays F) a l : aput s a l a = l.
Proof. unfold aput. by rewrite decide_True. Qed.

Lemma aput_ne (s : Arrays F) a b l : b <> a -> aput s a l b = s b.
Proof. intros. unfold aput. by rewrite decide_False. Qed.

End StoreLemmas.

(** One step of the straight-line code of a loop body: a bind, an
    array of the store, a read or the bounds check of a write. *)
Ltac arr_step :=
  cbn [mbind option_bind];
  first [ rewrite aput_eq | rewrite aput_ne by discriminate | rewrite length_insert
        | rewrite list_lookup_insert_eq by lia | rewrite list_lookup_lookup_total_lt by lia
        | rewrite decide_True by lia ].

Section ComputeProofs.
Local Unset Default Proof Using.
Context {F : Type} `{Float32 F}.
#[local] Instance F_inhabited' : Inhabited F := populate f_zero.

Lemma aos_to_soa_body_Some i (s : Arrays F) :
  4 * i + 3 < length (s HostAOS_PosMass) -> (forall k, k < 3 -> i < length (s (HostSOA_Pos k))) ->
  i < length (s HostSOA_Mass) -> i < length (s HostSOA_InvMass) ->
  aos_to_soa_body i s
  = Some (aput (aput (aput (aput (aput s
      (HostSOA_Pos 0) (<[i := s HostAOS_PosMass !!! (4 * i + 0)]> (s (HostSOA_Pos 0))))
      (HostSOA_Pos 1) (<[i := s HostAOS_PosMass !!! (4 * i + 1)]> (s (HostSOA_Pos 1))))
      (HostSOA_Pos 2) (<[i := s HostAOS_PosMass !!! (4 * i + 2)]> (s (HostSOA_Pos 2))))
      HostSOA_Mass (<[i := s HostAOS_PosMass !!! (4 * i + 3)]> (s HostSOA_Mass)))
      HostSOA_InvMass
      (<[i := f_div f_one (s HostAOS_PosMass !!! (4 * i + 3))]> (s HostSOA_InvMass))).
Proof.
  intros Hp Hk Hm Hi. pose proof (Hk 0) as H0. pose proof (Hk 1) as H1. pose proof (Hk 2) as H2.
  unfold aos_to_soa_body, aget, aset. repeat arr_step. done.
Qed.

Lemma soa_to_aos_body_Some dst i (s : Arrays F) :
  (forall k, dst <> HostSOA_Force k) -> 3 * i + 2 < length (s dst) ->
  (forall k, k < 3 -> i < length (s (HostSOA_Force k))) ->
  soa_to_aos_body dst i s
  = Some (aput (aput (aput s
      dst (<[3 * i + 0 := s (HostSOA_Force 0) !!! i]> (s dst)))
      dst (<[3 * i + 1 := s (HostSOA_Force 1) !!! i]> (<[3 * i + 0 := s (HostSOA_Force 0) !!! i]> (s dst))))
      dst (<[3 * i + 2 := s (HostSOA_Force 2) !!! i]> (<[3 * i + 1 := s (HostSOA_Force 1) !!! i]>
             (<[3 * i + 0 := s (HostSOA_Force 0) !!! i]> (s dst))))).
Proof.
  intros Hd Hl Hk. pose proof (Hk 0) as H0. pose proof (Hk 1) as H1. pose proof (Hk 2) as H2.
  unfold soa_to_aos_body, aget, aset.
  repeat (cbn [mbind option_bind];
          first [ rewrite aput_eq | rewrite aput_ne by (apply not_eq_sym, Hd) | rewrite length_insert
                | rewrite list_lookup_lookup_total_lt by lia | rewrite decide_True by (rewrite ?length_insert; lia) ]).
  done.
Qed.

End ComputeProofs.

Ltac asimpl := repeat (rewrite aput_eq || rewrite aput_ne by discriminate).

Section ComputeCorrect.
Local Unset Default Proof Using.
Context {F : Type} `{Float32 F} `{NBodyRoutines F}.
#[local] Instance F_inhabited'' : Inhabited F := populate f_zero.

(** Coordinate [k] of the AOS forces [f] of [N] bodies, as an SOA array. *)
Definition soa_of (N : nat) (f : list F) (k : nat) : list F := map (fun i => f !!! (3 * i + k)) (seq 0 N).

(** The SOA arrays hold the positions and masses of [pm]. *)
Definition soa_holds (N : nat) (pm p0 p1 p2 m : list F) : Prop :=
  length p0 = N /\ length p1 = N /\ length p2 = N /\ length m = N
  /\ forall i, i < N -> p0 !! i = pm !! (4 * i + 0) /\ p1 !! i = pm !! (4 * i + 1)
                 /\ p2 !! i = pm !! (4 * i + 2) /\ m !! i = pm !! (4 * i + 3).

Definition aos_routines : list (aos_routine F) :=
  [ComputeGravitation_AOS; ComputeGravitation_AOS_tiled; ComputeGravitation_GPU_AOS;
   ComputeGravitation_GPU_AOS_tiled; ComputeGravitation_GPU_Shared; ComputeNBodyGravitation_GPU_AOS_const;
   ComputeGravitation_GPU_Shuffle; ComputeGravitation_multiGPU_singlethread;
   ComputeGravitation_multiGPU_threaded].

Definition soa_routines : list (soa_routine F) :=
  [ComputeGravitation_SOA; ComputeGravitation_SSE; ComputeGravitation_SSE_threaded].

(** What the force routines promise: for [N] bodies, each computes the
    forces [forces pm] of the positions and masses [pm], the AOS ones
    from the AOS array into an AOS array whatever it held, the SOA ones
    from SOA arrays that hold [pm] into three SOA arrays. *)
Record routines_contract (N : nat) (e2 : F) (forces : list F -> list F) : Prop := {
  rc_len : forall pm, length pm = 4 * N -> length (forces pm) = 3 * N;
  rc_aos : forall r f pm, r ∈ aos_routines -> length pm = 4 * N -> length f = 3 * N ->
           (r f pm e2 N).2 = forces pm;
  rc_soa : forall r f0 f1 f2 p0 p1 p2 m pm, r ∈ soa_routines -> length pm = 4 * N ->
           soa_holds N pm p0 p1 p2 m ->
           (r (f0, f1, f2) (p0, p1, p2) m e2 N).2
           = (soa_of N (forces pm) 0, soa_of N (forces pm) 1, soa_of N (forces pm) 2)
}.

(** The arrays as main allocates them for [N] bodies. *)
Definition nb_wf (N : nat) (s : Arrays F) : Prop :=
  length (s HostAOS_PosMass) = 4 * N /\ length (s HostAOS_VelInvMass) = 4 * N
  /\ length (s HostAOS_Force) = 3 * N /\ length (s HostAOS_Force_Golden) = 3 * N
  /\ (forall k, k < 3 -> length (s (HostSOA_Pos k)) = N /\ length (s (HostSOA_Force k)) = N)
  /\ length (s HostSOA_Mass) = N /\ length (s HostSOA_InvMass) = N
  /\ length (s DptrAOS_PosMass) = 4 * N /\ length (s DptrAOS_Force) = 3 * N.

Lemma length_soa_of N f k : length (soa_of N f k) = N.
Proof. unfold soa_of. by rewrite length_map, length_seq. Qed.

Lemma soa_of_lookup N f k i : i < N -> soa_of N f k !! i = Some (f !!! (3 * i + k)).
Proof. intros Hi. unfold soa_of. by rewrite list_lookup_fmap, lookup_seq_lt. Qed.

Lemma aos_to_soa_loop N s :
  nb_wf N s ->
  exists s1, for_loop (S N) 0 N 1 aos_to_soa_body s = Some s1 /\ nb_wf N s1
    /\ (forall b, (forall k, b <> HostSOA_Pos k) -> b <> HostSOA_Mass -> b <> HostSOA_InvMass -> s1 b = s b)
    /\ soa_holds N (s HostAOS_PosMass) (s1 (HostSOA_Pos 0)) (s1 (HostSOA_Pos 1)) (s1 (HostSOA_Pos 2))
         (s1 HostSOA_Mass).
Proof.
  intros Hwf.
  destruct (for_loop_inv (fun j s' => nb_wf N s'
    /\ (forall b, (forall k, b <> HostSOA_Pos k) -> b <> HostSOA_Mass -> b <> HostSOA_InvMass -> s' b = s b)
    /\ forall i, i < j -> s' (HostSOA_Pos 0) !! i = s HostAOS_PosMass !! (4 * i + 0)
         /\ s' (HostSOA_Pos 1) !! i = s HostAOS_PosMass !! (4 * i + 1)
         /\ s' (HostSOA_Pos 2) !! i = s HostAOS_PosMass !! (4 * i + 2)
         /\ s' HostSOA_Mass !! i = s HostAOS_PosMass !! (4 * i + 3))
    aos_to_soa_body N s) as (s1 & Hrun & Hw1 & Hfr & Hcell).
  - split_and!; [done|done|intros; lia].
  - intros i s' Hi (Hw & Hfr & Hc).
    pose proof Hw as (Lp & Lv & Lf & Lg & Lk & Lm & Li & Ld & Ldf).
    destruct (Lk 0) as [L0 _]; [lia|]. destruct (Lk 1) as [L1 _]; [lia|].
    destruct (Lk 2) as [L2 _]; [lia|].
    assert (Hpm : s' HostAOS_PosMass = s HostAOS_PosMass) by (apply Hfr; [intros k|..]; discriminate).
    pose proof Lp as Lp'. rewrite Hpm in Lp'.
    rewrite aos_to_soa_body_Some by (intros; try destruct (Lk k); lia).
    eexists. split; [reflexivity|]. split_and!.
    + unfold nb_wf. asimpl. rewrite !length_insert. split_and!; try lia.
      intros k Hk. destruct k as [|[|[|k]]]; [..|lia]; asimpl; rewrite ?length_insert;
        destruct (Lk _ Hk); lia.
    + intros b Hb1 Hb2 Hb3. rewrite !aput_ne by (done || apply Hb1). by apply Hfr.
    + intros i' Hi'. asimpl. rewrite Hpm. destruct (decide (i' = i)) as [->|Hne].
      * rewrite !list_lookup_insert_eq by lia.
        rewrite !(list_lookup_lookup_total_lt (s HostAOS_PosMass)) by lia. done.
      * rewrite !list_lookup_insert_ne by lia. apply Hc. lia.
  - exists s1. pose proof Hw1 as (_ & _ & _ & _ & Lk & Lm & _).
    destruct (Lk 0) as [L0 _]; [lia|]. destruct (Lk 1) as [L1 _]; [lia|].
    destruct (Lk 2) as [L2 _]; [lia|]. split_and!; done.
Qed.

Lemma nb_wf_ext N (s s' : Arrays F) : (forall b, length (s' b) = length (s b)) -> nb_wf N s -> nb_wf N s'.
Proof.
  intros Hl (Lp & Lv & Lf & Lg & Lk & Lm & Li & Ld & Ldf). unfold nb_wf. rewrite !Hl.
  split_and!; try done. intros k Hk. rewrite !Hl. by apply Lk.
Qed.

Lemma nb_wf_aput N s a l : nb_wf N s -> length l = length (s a) -> nb_wf N (aput s a l).
Proof.
  intros Hw Hl. apply (nb_wf_ext N s); [|done]. intros b. unfold aput. case_decide; by subst.
Qed.

Lemma acopy_full (s : Arrays F) dst src n :
  length (s src) = n -> length (s dst) = n -> acopy s dst src n = Some (aput s dst (s src)).
Proof.
  intros Hs Hd. unfold acopy. rewrite decide_True by lia.
  rewrite take_ge, drop_ge, app_nil_r by lia. done.
Qed.

Lemma azero_full (s : Arrays F) dst z n :
  length (s dst) = n -> azero s dst z n = Some (aput s dst (repeat z n)).
Proof.
  intros Hd. unfold azero. rewrite decide_True by lia. rewrite drop_ge, app_nil_r by lia. done.
Qed.

(** An AOS array whose triples are the SOA arrays of [f] is [f]. *)
Lemma aos_of_soa N (l f : list F) :
  length l = 3 * N -> length f = 3 * N ->
  (forall i k, i < N -> k < 3 -> l !! (3 * i + k) = soa_of N f k !! i) -> l = f.
Proof.
  intros Hl Hf Hc. apply list_eq. intros a. destruct (decide (a < 3 * N)) as [Ha|Ha].
  - pose proof (Nat.div_mod_eq a 3). pose proof (Nat.mod_upper_bound a 3 ltac:(lia)).
    replace a with (3 * (a / 3) + a mod 3) by lia.
    rewrite Hc, soa_of_lookup by lia. symmetry. apply list_lookup_lookup_total_lt. lia.
  - rewrite !lookup_ge_None_2 by lia. done.
Qed.

(** The maximum relative error loop runs to its end, and is [0] when
    each force equals its golden value. *)
Lemma max_rel_error_spec (g : NBodyGlobals F) (s : Arrays F) :
  3 * g_N g <= length (s HostAOS_Force) -> 3 * g_N g <= length (s HostAOS_Force_Golden) ->
  exists m, max_rel_error g s = Some m
    /\ ((forall i, i < 3 * g_N g -> f_eqb (s HostAOS_Force !!! i) (s HostAOS_Force_Golden !!! i) = true) ->
        m = f_zero).
Proof.
  intros Lf Lg. unfold max_rel_error.
  destruct (for_loop_inv (fun j m => (forall i, i < j ->
      f_eqb (s HostAOS_Force !!! i) (s HostAOS_Force_Golden !!! i) = true) -> m = f_zero)
    (max_err_body s) (3 * g_N g) f_zero) as (m & Hr & Hm); [done| |by exists m].
  intros i m Hi Hm. unfold max_err_body, aget.
  rewrite !list_lookup_lookup_total_lt by lia. cbn [mbind option_bind].
  eexists. split; [reflexivity|]. intros Heq. rewrite Hm by (intros; apply Heq; lia).
  unfold relError. rewrite Heq by lia. by destruct (f_ltb f_zero f_zero).
Qed.

Lemma soa_to_aos_loop N dst (s : Arrays F) :
  (forall k, dst <> HostSOA_Force k) -> length (s dst) = 3 * N ->
  (forall k, k < 3 -> length (s (HostSOA_Force k)) = N) ->
  exists s', for_loop (S N) 0 N 1 (soa_to_aos_body dst) s = Some s'
    /\ (forall b, b <> dst -> s' b = s b) /\ length (s' dst) = 3 * N
    /\ forall i k, i < N -> k < 3 -> s' dst !! (3 * i + k) = s (HostSOA_Force k) !! i.
Proof.
  intros Hd Ld Lk.
  destruct (for_loop_inv (fun j s' => (forall b, b <> dst -> s' b = s b) /\ length (s' dst) = 3 * N
    /\ forall i k, i < j -> k < 3 -> s' dst !! (3 * i + k) = s (HostSOA_Force k) !! i)
    (soa_to_aos_body dst) N s) as (s' & Hrun & Hfr & Hl & Hc).
  - split_and!; [done|done|intros; lia].
  - intros i s' Hi (Hfr & Hl & Hc).
    assert (Hfk : forall k, s' (HostSOA_Force k) = s (HostSOA_Force k))
      by (intros k; apply Hfr; intros E; by apply (Hd k)).
    rewrite soa_to_aos_body_Some by (done || lia || (intros k Hk; rewrite Hfk, Lk; lia)).
    eexists. split; [reflexivity|]. split_and!.
    + intros b Hb. rewrite !aput_ne by done. by apply Hfr.
    + rewrite aput_eq, !length_insert. done.
    + intros i' k Hi' Hk. rewrite aput_eq. rewrite !Hfk.
      destruct (decide (i' = i)) as [->|Hne].
      * destruct k as [|[|[|k]]]; [..|lia];
          rewrite ?list_lookup_insert_ne, list_lookup_insert_eq by (rewrite ?length_insert; lia);
          symmetry; apply list_lookup_lookup_total_lt; rewrite Lk; lia.
      * rewrite !list_lookup_insert_ne by lia. apply Hc; lia.
  - exists s'. split_and!; done.
Qed.

(** C27: AOS -> SOA -> AOS round trip of the forces: when the SOA force
    arrays hold coordinate k of the AOS forces f of N bodies (as the SOA
    routines leave them), the copy loop of lines 375-379 / 512-516 puts
    back exactly f in the AOS array and touches no other array. *)
Theorem soa_to_aos_roundtrip N dst (s : Arrays F) (f : list F) :
  (forall k, dst <> HostSOA_Force k) -> length (s dst) = 3 * N -> length f = 3 * N ->
  (forall k, k < 3 -> s (HostSOA_Force k) = soa_of N f k) ->
  exists s', for_loop (S N) 0 N 1 (soa_to_aos_body dst) s = Some s'
    /\ s' dst = f /\ forall b, b <> dst -> s' b = s b.
Proof.
  intros Hd Ld Lf Hf.
  destruct (soa_to_aos_loop N dst s) as (s' & Hr & Hfr & Hl & Hc);
    [done | done | intros k Hk; rewrite Hf by done; apply length_soa_of |].
  exists s'. split_and!; [done | | done].
  apply (aos_of_soa N); [done..|]. intros i k Hi Hk. by rewrite Hc, Hf.
Qed.

(** The algorithms whose routine reads [g_dptrAOS_PosMass]: main offers
    them only when a CUDA device is present. *)
Definition uses_device (alg : nbodyAlgorithm) : bool :=
  match alg with
  | GPU_AOS | GPU_AOS_tiled | GPU_Atomic | GPU_Shared | GPU_Const | GPU_Shuffle => true
  | _ => false
  end.

Section Calls.
Context (g : NBodyGlobals F) (forces : list F -> list F).
Hypothesis HC : routines_contract (g_N g) (eps2 g) forces.

Lemma call_aos_spec r fa pa (s : Arrays F) :
  r ∈ aos_routines -> length (s pa) = 4 * g_N g -> length (s fa) = 3 * g_N g ->
  exists ms, call_aos g r fa pa s = (ms, aput s fa (forces (s pa))).
Proof.
  intros Hr Hp Hf. unfold call_aos.
  pose proof (rc_aos _ _ _ HC r (s fa) (s pa) Hr Hp Hf) as Hc.
  destruct (r (s fa) (s pa) (eps2 g) (g_N g)) as [ms f']. cbn in Hc. subst f'. by exists ms.
Qed.

Lemma call_soa_spec r (s : Arrays F) pm :
  r ∈ soa_routines -> length pm = 4 * g_N g ->
  soa_holds (g_N g) pm (s (HostSOA_Pos 0)) (s (HostSOA_Pos 1)) (s (HostSOA_Pos 2)) (s HostSOA_Mass) ->
  exists ms, call_soa g r s
    = (ms, aput (aput (aput s (HostSOA_Force 0) (soa_of (g_N g) (forces pm) 0))
                      (HostSOA_Force 1) (soa_of (g_N g) (forces pm) 1))
                (HostSOA_Force 2) (soa_of (g_N g) (forces pm) 2)).
Proof.
  intros Hr Hp Hh. unfold call_soa.
  pose proof (rc_soa _ _ _ HC r (s (HostSOA_Force 0)) (s (HostSOA_Force 1)) (s (HostSOA_Force 2))
                _ _ _ _ pm Hr Hp Hh) as Hc.
  destruct (r _ _ _ _ _) as [ms [[f0 f1] f2]]. cbn in Hc. injection Hc as -> -> ->. by exists ms.
Qed.

Ltac in_list := solve [repeat first [apply list_elem_of_here | apply list_elem_of_further]].

(** Every case of the [switch] but the compiled-out [GPU_Atomic] runs its
    routine, leaves the forces of the positions [pm] in the AOS array or
    (for the SOA routines) in the SOA arrays, and changes no other array
    but the device force buffer. *)
Lemma dispatch_spec alg (s : Arrays F) pm :
  alg <> GPU_Atomic -> nb_wf (g_N g) s -> s HostAOS_PosMass = pm ->
  (uses_device alg = true -> s DptrAOS_PosMass = pm) ->
  soa_holds (g_N g) pm (s (HostSOA_Pos 0)) (s (HostSOA_Pos 1)) (s (HostSOA_Pos 2)) (s HostSOA_Mass) ->
  exists ms bSOA s', dispatch g alg true s = Some (Some ms, bSOA, s')
    /\ nb_wf (g_N g) s'
    /\ (forall b, b <> HostAOS_Force -> b <> DptrAOS_Force -> (forall k, b <> HostSOA_Force k) -> s' b = s b)
    /\ (if bSOA then forall k, k < 3 -> s' (HostSOA_Force k) = soa_of (g_N g) (forces pm) k
        else s' HostAOS_Force = forces pm).
Proof.
  intros Ha Hw Hp Hd Hh. pose proof Hw as (Lp & Lv & Lf & Lg & Lk & Lm & Li & Ld & Ldf).
  destruct (Lk 0) as [Lp0 Lf0]; [lia|]. destruct (Lk 1) as [Lp1 Lf1]; [lia|].
  destruct (Lk 2) as [Lp2 Lf2]; [lia|].
  assert (Lfp : length (forces pm) = 3 * g_N g) by (apply (rc_len _ _ _ HC); congruence).
  assert (Lpm : length pm = 4 * g_N g) by congruence.
  destruct alg; try done; cbn in Hd; first [specialize (Hd eq_refl) | clear Hd];
  unfold dispatch; cbv beta zeta iota;
  repeat (rewrite azero_full by (asimpl; lia); cbn [mbind option_bind]);
  repeat match goal with
  | |- context [call_aos g ?r ?fa ?pa ?s0] =>
      destruct (call_aos_spec r fa pa s0) as [?ms ->]; [in_list | asimpl; rewrite ?repeat_length; lia | asimpl; rewrite ?repeat_length; lia |]
  | |- context [call_soa g ?r ?s0] =>
      destruct (call_soa_spec r s0 pm) as [?ms ->]; [in_list | done | done |]
  end; cbv beta iota;
  repeat (rewrite acopy_full by (asimpl; rewrite ?Hd, ?repeat_length; lia); cbn [mbind option_bind]);
  eexists _, _, _; (split; [reflexivity|]); cbv beta iota; split_and!.
  all: try (apply (nb_wf_ext _ s); [|done]; intros b; unfold aput;
            repeat case_decide; try congruence; try subst b; rewrite ?repeat_length, ?length_soa_of, ?Hd, ?Hp; lia).
  all: try (intros b Hb1 Hb2 Hb3; rewrite !aput_ne by (done || apply Hb3); done).
  all: try (asimpl; congruence).
  all: intros k Hk; destruct k as [|[|[|k]]]; [..|lia]; by asimpl.
Qed.

Lemma cross_check_spec (s : Arrays F) pm :
  nb_wf (g_N g) s -> s HostAOS_PosMass = pm ->
  soa_holds (g_N g) pm (s (HostSOA_Pos 0)) (s (HostSOA_Pos 1)) (s (HostSOA_Pos 2)) (s HostSOA_Mass) ->
  exists s', cross_check g s = Some s' /\ nb_wf (g_N g) s' /\ s' HostAOS_Force_Golden = forces pm
    /\ forall b, b <> HostAOS_Force_Golden -> (forall k, b <> HostSOA_Force k) -> s' b = s b.
Proof.
  intros Hw Hp Hh. pose proof Hw as (Lp & Lv & Lf & Lg & Lk & Lm & Li & Ld & Ldf).
  destruct (Lk 0) as [Lp0 Lf0]; [lia|]. destruct (Lk 1) as [Lp1 Lf1]; [lia|].
  destruct (Lk 2) as [Lp2 Lf2]; [lia|].
  assert (Lfp : length (forces pm) = 3 * g_N g) by (apply (rc_len _ _ _ HC); congruence).
  unfold cross_check. destruct (g_bUseSSEForCrossCheck g).
  - destruct (call_soa_spec ComputeGravitation_SSE_threaded s pm) as [ms ->];
      [in_list | congruence | done |]. cbv beta iota.
    destruct (soa_to_aos_loop (g_N g) HostAOS_Force_Golden
      (aput (aput (aput s (HostSOA_Force 0) (soa_of (g_N g) (forces pm) 0))
        (HostSOA_Force 1) (soa_of (g_N g) (forces pm) 1)) (HostSOA_Force 2) (soa_of (g_N g) (forces pm) 2)))
      as (s' & Hr & Hfr & Hl & Hc); [done | by asimpl |
        intros k Hk; destruct k as [|[|[|k]]]; [..|lia]; asimpl; apply length_soa_of |].
    exists s'. split_and!; [done | | | ].
    + apply (nb_wf_ext _ s); [|done]. intros b. destruct (decide (b = HostAOS_Force_Golden)) as [->|Hb];
        [rewrite Hl; lia|]. rewrite Hfr by done. unfold aput. repeat case_decide; subst;
        rewrite ?length_soa_of; lia.
    + apply (aos_of_soa (g_N g)); [done..|]. intros i k Hi Hk. rewrite Hc by done.
      destruct k as [|[|[|k]]]; [..|lia]; by asimpl.
    + intros b Hb Hk. rewrite Hfr by done. rewrite !aput_ne by apply Hk. done.
  - destruct (call_aos_spec ComputeGravitation_AOS HostAOS_Force_Golden HostAOS_PosMass s)
      as [ms ->]; [in_list | lia | lia |]. cbn [snd].
    eexists. split_and!; [done | apply nb_wf_aput; congruence | by rewrite aput_eq, Hp |].
    intros b Hb _. by apply aput_ne.
Qed.

Lemma cross_stage (bCrossCheck : bool) (s : Arrays F) pm :
  nb_wf (g_N g) s -> s HostAOS_PosMass = pm ->
  soa_holds (g_N g) pm (s (HostSOA_Pos 0)) (s (HostSOA_Pos 1)) (s (HostSOA_Pos 2)) (s HostSOA_Mass) ->
  exists s', (if bCrossCheck then cross_check g s else Some s) = Some s' /\ nb_wf (g_N g) s'
    /\ (forall b, b <> HostAOS_Force_Golden -> (forall k, b <> HostSOA_Force k) -> s' b = s b)
    /\ (bCrossCheck = true -> s' HostAOS_Force_Golden = forces pm).
Proof.
  intros Hw Hp Hh. destruct bCrossCheck; [|by exists s].
  destruct (cross_check_spec s pm) as (s' & ? & ? & ? & ?); [done..|]. by exists s'.
Qed.

Lemma error_stage (bCrossCheck : bool) (s : Arrays F) :
  nb_wf (g_N g) s ->
  exists err, (if bCrossCheck then max_rel_error g s else Some f_zero) = Some err
    /\ (bCrossCheck = true ->
        (forall i, i < 3 * g_N g -> f_eqb (s HostAOS_Force !!! i) (s HostAOS_Force_Golden !!! i) = true) ->
        err = f_zero).
Proof.
  intros (_ & _ & Lf & Lg & _). destruct bCrossCheck; [|by exists f_zero].
  destruct (max_rel_error_spec g s) as (m & Rm & Hm); [lia | lia |]. by exists m.
Qed.

Lemma upload_stage (s : Arrays F) :
  nb_wf (g_N g) s ->
  exists s', (if g_bCUDAPresent g then acopy s DptrAOS_PosMass HostAOS_PosMass (4 * g_N g) else Some s)
             = Some s'
    /\ nb_wf (g_N g) s' /\ (g_bCUDAPresent g = true -> s' DptrAOS_PosMass = s HostAOS_PosMass)
    /\ forall b, b <> DptrAOS_PosMass -> s' b = s b.
Proof.
  intros Hw. pose proof Hw as (Lp & _ & _ & _ & _ & _ & _ & Ld & _).
  destruct (g_bCUDAPresent g).
  - rewrite acopy_full by done. eexists. split_and!; [done | apply nb_wf_aput; congruence | |].
    + intros _. by rewrite aput_eq.
    + intros b Hb. by apply aput_ne.
  - by exists s.
Qed.

Lemma soa_back_stage (bSOA : bool) (s : Arrays F) pm :
  nb_wf (g_N g) s -> length pm = 4 * g_N g ->
  (if bSOA then forall k, k < 3 -> s (HostSOA_Force k) = soa_of (g_N g) (forces pm) k
   else s HostAOS_Force = forces pm) ->
  exists s', (if bSOA then for_loop (S (g_N g)) 0 (g_N g) 1 (soa_to_aos_body HostAOS_Force) s else Some s)
             = Some s'
    /\ nb_wf (g_N g) s' /\ s' HostAOS_Force = forces pm /\ forall b, b <> HostAOS_Force -> s' b = s b.
Proof.
  intros Hw Hpm Hf. pose proof Hw as (_ & _ & Lf & _ & Lk & _).
  assert (Lfp : length (forces pm) = 3 * g_N g) by by apply (rc_len _ _ _ HC).
  destruct bSOA; [|by exists s].
  destruct (soa_to_aos_loop (g_N g) HostAOS_Force s) as (s' & Hr & Hfr & Hl & Hc);
    [done | done | intros k Hk; by apply Lk |].
  exists s'. split_and!; [done | | | done].
  - apply (nb_wf_ext _ s); [|done]. intros b.
    destruct (decide (b = HostAOS_Force)) as [->|Hb]; [congruence | by rewrite Hfr].
  - apply (aos_of_soa (g_N g)); [done..|]. intros i k Hi Hk. by rewrite Hc, Hf.
Qed.

(** The end-to-end behaviour of one time step (stated as the claim below). *)
Lemma ComputeGravitation_sound alg bCrossCheck (s : Arrays F) :
  nb_wf (g_N g) s -> (4 * Z.of_nat (g_N g) <= 2 ^ 31)%Z -> alg <> GPU_Atomic ->
  (g_bCUDAPresent g = false -> uses_device alg = false) ->
  exists s' ms err, ComputeGravitation g alg bCrossCheck true s = Some (s', Some ms, err)
    /\ nb_wf (g_N g) s'
    /\ s' HostAOS_Force = forces (s HostAOS_PosMass)
    /\ (s' HostAOS_PosMass, s' HostAOS_VelInvMass)
       = integrate_spec (g_dt g) (g_damping g) (s HostAOS_PosMass) (s HostAOS_VelInvMass)
           (forces (s HostAOS_PosMass)) (g_N g)
    /\ (bCrossCheck = true -> s' HostAOS_Force_Golden = forces (s HostAOS_PosMass)
        /\ (Forall (fun x => f_eqb x x = true) (forces (s HostAOS_PosMass)) -> err = f_zero)).
Proof.
  intros Hw HN Ha Hdev. set (pm := s HostAOS_PosMass).
  assert (Lpm : length pm = 4 * g_N g) by apply Hw.
  assert (Lfp : length (forces pm) = 3 * g_N g) by by apply (rc_len _ _ _ HC).
  destruct (aos_to_soa_loop (g_N g) s Hw) as (s1 & R1 & W1 & F1 & H1).
  assert (P1 : s1 HostAOS_PosMass = pm) by (apply F1; done).
  destruct (cross_stage bCrossCheck s1 pm) as (s2 & R2 & W2 & F2 & G2); [done..|].
  destruct (upload_stage s2 W2) as (s3 & R3 & W3 & D3 & F3).
  assert (Hs3 : forall b, b <> HostAOS_Force_Golden -> b <> DptrAOS_PosMass ->
      (forall k, b <> HostSOA_Force k) -> s3 b = s1 b) by (intros; rewrite F3, F2; done).
  destruct (dispatch_spec alg s3 pm) as (ms & bSOA & s4 & R4 & W4 & F4 & H4); [done | done | rewrite Hs3 by done; done |
    intros Hu; rewrite D3, F2 by (done || by destruct (g_bCUDAPresent g); [|rewrite Hdev in Hu]); done | rewrite !Hs3 by done; done |].
  destruct (soa_back_stage bSOA s4 pm W4 Lpm H4) as (s5 & R5 & W5 & P5 & F5).
  pose proof W5 as (Lp5 & Lv5 & Lf5 & Lg5 & _).
  destruct (error_stage bCrossCheck s5 W5) as (err & R6 & E6).
  assert (Hb5 : forall b, b = HostAOS_PosMass \/ b = HostAOS_VelInvMass -> s5 b = s1 b)
    by (intros b Hb; rewrite F5, F4, Hs3 by (destruct_or!; subst; try intros k; discriminate); done).
  unfold ComputeGravitation. rewrite R1. cbn [mbind option_bind]. rewrite R2. cbn [mbind option_bind].
  rewrite R3. cbn [mbind option_bind]. rewrite R4. cbn [mbind option_bind]. cbv beta iota. rewrite R5. cbn [mbind option_bind].
  rewrite R6. cbn [mbind option_bind].
  rewrite integrate_loop_spec by done. cbv beta iota.
  eexists _, _, _. split; [reflexivity|]. rewrite (Hb5 HostAOS_PosMass), (Hb5 HostAOS_VelInvMass), P1, F1 by auto.
  split_and!.
  - apply nb_wf_aput; [apply nb_wf_aput; [done|]|]; rewrite ?aput_ne by done; unfold integrate_spec;
      unfold upd_bodies; rewrite length_imap; pose proof Hw as (_ & Lv & _); lia.
  - by asimpl.
  - asimpl. by rewrite P5.
  - intros Hb. split.
    2:{ intros HF. apply E6; [done|]. intros i Hi. rewrite P5, F5, F4, F3, G2 by done.
        apply (Forall_lookup_1 _ _ i _ HF). apply list_lookup_lookup_total_lt. lia. }
    asimpl. rewrite F5, F4, F3, G2 by (try intros k; discriminate || done). done.
Qed.

(** C5: one time step of [ComputeGravitation] with every CUDA call
    succeeding, for any algorithm but the compiled-out [GPU_Atomic]
    (and a GPU one only with a device): it returns [true], writes the
    time to [*ms], leaves in [g_hostAOS_Force] the forces of the
    positions whatever routine computed them (SOA ones converted back),
    with the cross check leaves the golden forces in
    [g_hostAOS_Force_Golden] and a maximum relative error of [0] when
    the forces compare equal to themselves, integrates the bodies with
    those forces, and keeps the arrays' sizes for the next step. *)
Theorem ComputeGravitation_correct alg bCrossCheck (s : Arrays F) :
  nb_wf (g_N g) s -> (4 * Z.of_nat (g_N g) <= 2 ^ 31)%Z -> alg <> GPU_Atomic ->
  (g_bCUDAPresent g = false -> uses_device alg = false) ->
  exists s' ms err, ComputeGravitation g alg bCrossCheck true s = Some (s', Some ms, err)
    /\ nb_wf (g_N g) s'
    /\ s' HostAOS_Force = forces (s HostAOS_PosMass)
    /\ (s' HostAOS_PosMass, s' HostAOS_VelInvMass)
       = integrate_spec (g_dt g) (g_damping g) (s HostAOS_PosMass) (s HostAOS_VelInvMass)
           (forces (s HostAOS_PosMass)) (g_N g)
    /\ (bCrossCheck = true -> s' HostAOS_Force_Golden = forces (s HostAOS_PosMass)
        /\ (Forall (fun x => f_eqb x x = true) (forces (s HostAOS_PosMass)) -> err = f_zero)).
Proof. apply ComputeGravitation_sound. Qed.

(** [GPU_Atomic]'s time step (stated as the claim below). *)
Lemma ComputeGravitation_GPU_Atomic_sound bCrossCheck (s : Arrays F) :
  nb_wf (g_N g) s -> (4 * Z.of_nat (g_N g) <= 2 ^ 31)%Z ->
  exists s' err, ComputeGravitation g GPU_Atomic bCrossCheck true s = Some (s', None, err)
    /\ nb_wf (g_N g) s' /\ s' HostAOS_Force = s HostAOS_Force
    /\ (s' HostAOS_PosMass, s' HostAOS_VelInvMass)
       = integrate_spec (g_dt g) (g_damping g) (s HostAOS_PosMass) (s HostAOS_VelInvMass)
           (s HostAOS_Force) (g_N g).
Proof.
  intros Hw HN. destruct (aos_to_soa_loop (g_N g) s Hw) as (s1 & R1 & W1 & F1 & H1).
  destruct (cross_stage bCrossCheck s1 (s HostAOS_PosMass)) as (s2 & R2 & W2 & F2 & _);
    [done | by apply F1 | done |].
  destruct (upload_stage s2 W2) as (s3 & R3 & W3 & _ & F3).
  destruct (error_stage bCrossCheck s3 W3) as (err & R6 & _).
  assert (Hb : forall b, b = HostAOS_PosMass \/ b = HostAOS_VelInvMass \/ b = HostAOS_Force -> s3 b = s b)
    by (intros b Hb; rewrite F3, F2, F1 by (destruct_or!; subst; try intros k; discriminate); done).
  pose proof W3 as (Lp & Lv & Lf & _).
  unfold ComputeGravitation. rewrite R1. cbn [mbind option_bind]. rewrite R2. cbn [mbind option_bind].
  rewrite R3. cbn [mbind option_bind dispatch]. rewrite R6. cbn [mbind option_bind].
  rewrite integrate_loop_spec by done. cbv beta iota.
  eexists _, _. split; [reflexivity|]. split.
  - apply nb_wf_aput; [apply nb_wf_aput; [done|]|]; rewrite ?aput_ne by done; unfold integrate_spec;
      unfold upd_bodies; rewrite length_imap; lia.
  - asimpl. rewrite !Hb by auto. done.
Qed.

(** C13: the case of [GPU_Atomic] is compiled out ([#if 0], lines
    453-464): [ComputeGravitation] still returns [true] but runs no
    routine and leaves [*ms] unwritten, and the bodies are integrated
    with the forces [g_hostAOS_Force] held from the previous step. *)
Theorem ComputeGravitation_GPU_Atomic bCrossCheck (s : Arrays F) :
  nb_wf (g_N g) s -> (4 * Z.of_nat (g_N g) <= 2 ^ 31)%Z ->
  exists s' err, ComputeGravitation g GPU_Atomic bCrossCheck true s = Some (s', None, err)
    /\ nb_wf (g_N g) s' /\ s' HostAOS_Force = s HostAOS_Force
    /\ (s' HostAOS_PosMass, s' HostAOS_VelInvMass)
       = integrate_spec (g_dt g) (g_damping g) (s HostAOS_PosMass) (s HostAOS_VelInvMass)
           (s HostAOS_Force) (g_N g).
Proof. apply ComputeGravitation_GPU_Atomic_sound. Qed.

End Calls.

End ComputeCorrect.

(** A routine set over [Z] for the witnesses: every routine returns the
    time [1] and zero forces, and the contract holds for them. *)
Definition zero_forces (pm : list Z) : list Z := replicate (3 * (length pm / 4)) 0%Z.

#[export] Instance zero_routines : NBodyRoutines Z :=
  let aos : aos_routine Z := fun _ _ _ N => (1%Z, replicate (3 * N) 0%Z) in
  let soa : soa_routine Z := fun _ _ _ _ N => (1%Z, (replicate N 0%Z, replicate N 0%Z, replicate N 0%Z)) in
  {| ComputeGravitation_AOS := aos; ComputeGravitation_AOS_tiled := aos;
     ComputeGravitation_SOA := soa; ComputeGravitation_SSE := soa; ComputeGravitation_SSE_threaded := soa;
     ComputeGravitation_GPU_AOS := aos; ComputeGravitation_GPU_AOS_tiled := aos;
     ComputeGravitation_GPU_Shared := aos; ComputeNBodyGravitation_GPU_AOS_const := aos;
     ComputeGravitation_GPU_Shuffle := aos; ComputeGravitation_multiGPU_singlethread := aos;
     ComputeGravitation_multiGPU_threaded := aos |}.

Lemma soa_of_replicate N k : k < 3 -> soa_of N (replicate (3 * N) 0%Z) k = replicate N 0%Z.
Proof.
  intros Hk. apply list_eq. intros i. destruct (decide (i < N)).
  - rewrite soa_of_lookup, list_lookup_total_alt, !lookup_replicate_2 by lia. done.
  - rewrite !lookup_ge_None_2 by (rewrite ?length_soa_of, ?length_replicate; lia). done.
Qed.

Lemma zero_routines_contract N e2 : routines_contract N e2 zero_forces.
Proof.
  assert (Hl : forall pm : list Z, length pm = 4 * N -> zero_forces pm = replicate (3 * N) 0%Z)
    by (intros pm Hp; unfold zero_forces; rewrite Hp, (Nat.mul_comm 4 N), Nat.div_mul by lia; done).
  split.
  - intros pm Hp. by rewrite Hl, length_replicate.
  - intros r f pm Hr Hp _. rewrite Hl by done.
    apply list_elem_of_In in Hr. cbn in Hr. destruct_or! Hr; by subst r.
  - intros r f0 f1 f2 p0 p1 p2 m pm Hr Hp _. rewrite Hl, !soa_of_replicate by lia.
    apply list_elem_of_In in Hr. cbn in Hr. destruct_or! Hr; by subst r.
Qed.

Definition ex_globals : NBodyGlobals Z :=
  {| g_N := 2; g_bCUDAPresent := true; g_bUseSSEForCrossCheck := true;
     g_softening := 0; g_dt := 1; g_damping := 1 |}%Z.

Definition ex_arrays : Arrays Z := fun b =>
  match b with
  | HostAOS_PosMass | HostAOS_VelInvMass | DptrAOS_PosMass => [1; 2; 3; 1; 4; 5; 6; 1]%Z
  | HostAOS_Force | HostAOS_Force_Golden | DptrAOS_Force => repeat 0%Z 6
  | _ => repeat 0%Z 2
  end.

Lemma ex_arrays_wf : nb_wf 2 ex_arrays.
Proof. split_and!; try reflexivity. intros k _. by destruct k as [|[|[|]]]. Qed.

Lemma ComputeGravitation_correct_witness :
  exists s' ms err, ComputeGravitation ex_globals GPU_Shared true true ex_arrays = Some (s', Some ms, err)
    /\ nb_wf 2 s' /\ s' HostAOS_Force = zero_forces (ex_arrays HostAOS_PosMass)
    /\ (s' HostAOS_PosMass, s' HostAOS_VelInvMass)
       = integrate_spec 1%Z 1%Z (ex_arrays HostAOS_PosMass) (ex_arrays HostAOS_VelInvMass)
           (zero_forces (ex_arrays HostAOS_PosMass)) 2
    /\ (true = true -> s' HostAOS_Force_Golden = zero_forces (ex_arrays HostAOS_PosMass)
        /\ (Forall (fun x => f_eqb x x = true) (zero_forces (ex_arrays HostAOS_PosMass)) -> err = 0%Z)).
Proof.
  apply (ComputeGravitation_correct ex_globals zero_forces (zero_routines_contract _ _) GPU_Shared true);
    [apply ex_arrays_wf | cbn; lia | discriminate | discriminate].
Defined.

Lemma ComputeGravitation_GPU_Atomic_witness :
  exists s' err, ComputeGravitation ex_globals GPU_Atomic true true ex_arrays = Some (s', None, err)
    /\ nb_wf 2 s' /\ s' HostAOS_Force = ex_arrays HostAOS_Force
    /\ (s' HostAOS_PosMass, s' HostAOS_VelInvMass)
       = integrate_spec 1%Z 1%Z (ex_arrays HostAOS_PosMass) (ex_arrays HostAOS_VelInvMass)
           (ex_arrays HostAOS_Force) 2.
Proof.
  apply (ComputeGravitation_GPU_Atomic ex_globals zero_forces (zero_routines_contract _ _) true);
    [apply ex_arrays_wf | cbn; lia].
Defined.

Lemma soa_to_aos_roundtrip_witness :
  exists s', for_loop 3 0 2 1 (soa_to_aos_body HostAOS_Force)
      (fun b => match b with HostSOA_Force 0 => [1; 4] | HostSOA_Force 1 => [2; 5]
                        | HostSOA_Force _ => [3; 6] | _ => repeat 0 6 end)%Z = Some s'
    /\ s' HostAOS_Force = [1; 2; 3; 4; 5; 6]%Z
    /\ forall b, b <> HostAOS_Force -> s' b = (fun b => match b with HostSOA_Force 0 => [1; 4]
         | HostSOA_Force 1 => [2; 5] | HostSOA_Force _ => [3; 6] | _ => repeat 0 6 end)%Z b.
Proof.
  apply (soa_to_aos_roundtrip 2 HostAOS_Force _ [1; 2; 3; 4; 5; 6]%Z);
    [intros k; discriminate | reflexivity | reflexivity |].
  intros k Hk. destruct k as [|[|[|k]]]; [reflexivity.. | lia].
Defined.

End NBody.
