(* ===== verification/NBodyMain.v ===== *)
(** * NBodyMain: [main] of nbody.cu

    [main] (src/unnamed/part_000, lines 569-758): its start-up, which
    reads the device and the command line into the globals of
    [ComputeGravitation], and its interactive loop, which runs one time
    step per iteration and rotates the algorithm on a space bar.

    - [main_setup] (lines 586-683): the thread pools and the CUDA calls
      may fail ([return 1] / [goto Error]); [g_bNoCPU] is tested at line
      607 with the value of its initializer (line 346), before the
      option is read at line 638; [g_N = kParticles*1024] is an [int]
      product converted to [size_t].
    - [key_step] (lines 728-748): the space bar and [q]/[Q]; the
      successor [(enum nbodyAlgorithm_enum)(g_Algorithm+1)] is a
      parameter, the enum being declared in nbody.h (not under src/).
    - [main_loop] (lines 704-751): one element of the list of events per
      iteration ([None]: [kbhit()] false), a failing
      [ComputeGravitation] exits with 1.

    The theorems: [--nocpu] without a device does not stop the program,
    which runs a CPU algorithm and offers GPU ones; the rotation comes
    back to the threaded SSE routine under [--nocpu]; [g_N] for large
    [--numbodies]; with a device, the loop never fails and keeps the
    arrays' sizes, and stops at the first [q]. *)

From Stdlib Require Import ZArith Lia Ascii.
From stdpp Require Import base list options relations.
From S2P Require Import Prelude NBody.
Import NBody.

Module NBodyMain.

(** [int] product, and the conversion of an [int] to [size_t]. *)
Definition mul32 (a b : Z) : Z := wrap32 (a * b).
Definition size_t_of_int (z : Z) : Z := (z mod 2 ^ 64)%Z.

(** The initializers of lines 345-346 and 574. *)
Definition g_bUseSSEForCrossCheck_init : bool := true.
Definition g_bNoCPU_init : bool := false.
Definition kParticles_init : Z := 4%Z.

(** What [main] reads: the CPU thread pool's start (lines 588-597),
    [cudaGetDeviceCount] (line 600), device 0's [prop.major], the
    success of the [CUDART_CHECK]ed calls, the GPU thread pools and
    [initializeGPU] (lines 612-635), and the options. *)
Record Env := {
  e_pool_ok : bool; e_cudaOK : bool; e_numGPUs : Z; e_major : Z;
  e_props_ok : bool; e_gpu_init_ok : bool; e_alloc_ok : bool;
  e_nocrosscheck : bool; e_nocpu : bool; e_nosse : bool; e_numbodies : option Z
}.

Section Main.
Context {F : Type} `{Float32 F} `{NBodyRoutines F}.
(** [g_softening], [g_dt], [g_damping] (lines 259-261). *)
Context (softening0 dt0 damping0 : F).

(** The globals after the start-up. *)
Record MainState := {
  globals : NBodyGlobals F;
  g_bSM30Present : bool; g_bCrossCheck : bool; g_bNoCPU : bool;
  g_Algorithm : nbodyAlgorithm; g_maxAlgorithm : nbodyAlgorithm
}.

Inductive Outcome := Exit (code : Z) | Run (st : MainState).

(** Lines 586-683. *)
Definition main_setup (e : Env) : Outcome :=
  if negb (e_pool_ok e) then Exit 1 else
  let cuda := e_cudaOK e && bool_decide (0 < e_numGPUs e)%Z in
  if cuda && negb (e_props_ok e) then Exit 1 else
  let sm30 := cuda && bool_decide (3 <= e_major e)%Z in
  if g_bNoCPU_init && negb cuda then Exit 1 else
  if bool_decide (e_numGPUs e <> 0%Z) && negb (e_gpu_init_ok e) then Exit 1 else
  let noCPU := e_nocpu e in
  let crossCheck := if noCPU then false else negb (e_nocrosscheck e) in
  let useSSE := if crossCheck && e_nosse e then false else g_bUseSSEForCrossCheck_init in
  let kParticles := default kParticles_init (e_numbodies e) in
  let N := size_t_of_int (mul32 kParticles 1024) in
  let alg := if cuda then GPU_AOS else CPU_SSE_threaded in
  let maxAlg := if cuda || noCPU then (if sm30 then GPU_AOS_tiled else multiGPU_MultiCPUThread)
                else CPU_SSE_threaded in
  if cuda && negb (e_alloc_ok e) then Exit 1 else
  let maxAlg := if cuda && bool_decide (e_major e < 3)%Z then multiGPU_MultiCPUThread else maxAlg in
  Run {| globals := {| g_N := Z.to_nat N; g_bCUDAPresent := cuda; g_bUseSSEForCrossCheck := useSSE;
                       g_softening := softening0; g_dt := dt0; g_damping := damping0 |};
         g_bSM30Present := sm30; g_bCrossCheck := crossCheck; g_bNoCPU := noCPU;
         g_Algorithm := alg; g_maxAlgorithm := maxAlg |}.

Definition set_Algorithm (st : MainState) (a : nbodyAlgorithm) : MainState :=
  {| globals := globals st; g_bSM30Present := g_bSM30Present st; g_bCrossCheck := g_bCrossCheck st;
     g_bNoCPU := g_bNoCPU st; g_Algorithm := a; g_maxAlgorithm := g_maxAlgorithm st |}.

(** Lines 728-748: the new globals and [bStop]. *)
Definition key_step (next : nbodyAlgorithm -> nbodyAlgorithm) (st : MainState) (c : ascii)
    : MainState * bool :=
  if Ascii.eqb c " " then
    let a := if decide (g_Algorithm st = g_maxAlgorithm st) then
               let a := if g_bNoCPU st then GPU_AOS else CPU_AOS in
               if g_bUseSSEForCrossCheck (globals st) then CPU_SSE_threaded else a
             else next (g_Algorithm st) in
    (set_Algorithm st a, false)
  else if Ascii.eqb c "q" || Ascii.eqb c "Q" then (st, true)
  else (st, false).

Inductive LoopResult :=
| LoopExit (code : Z) | LoopStop (st : MainState) (s : Arrays F) | LoopRunning (st : MainState) (s : Arrays F).

(** Lines 704-751, one event per iteration. *)
Fixpoint main_loop (next : nbodyAlgorithm -> nbodyAlgorithm) (cuda_ok : bool)
    (events : list (option ascii)) (st : MainState) (s : Arrays F) : LoopResult :=
  match events with
  | [] => LoopRunning st s
  | ev :: evs =>
      match ComputeGravitation (globals st) (g_Algorithm st) (g_bCrossCheck st) cuda_ok s with
      | None => LoopExit 1
      | Some (s', _, _) =>
          match ev with
          | None => main_loop next cuda_ok evs st s'
          | Some c => let '(st', bStop) := key_step next st c in
                      if bStop then LoopStop st' s' else main_loop next cuda_ok evs st' s'
          end
      end
  end.

(** A key press, as a relation on the globals. *)
Definition key_rel (next : nbodyAlgorithm -> nbodyAlgorithm) (st st' : MainState) : Prop :=
  exists c, st' = (key_step next st c).1.

Lemma key_step_keeps next st c :
  let st' := (key_step next st c).1 in
  globals st' = globals st /\ g_bNoCPU st' = g_bNoCPU st /\ g_bCrossCheck st' = g_bCrossCheck st
  /\ g_maxAlgorithm st' = g_maxAlgorithm st.
Proof. unfold key_step. repeat case_match; done. Qed.

Lemma key_rel_keeps next st st' :
  rtc (key_rel next) st st' -> globals st' = globals st /\ g_bNoCPU st' = g_bNoCPU st.
Proof.
  induction 1 as [|x y z [c ->] _ IH]; [done|].
  destruct (key_step_keeps next x c) as (Hg & Hn & _). destruct IH as [IHg IHn]. split; congruence.
Qed.

Lemma key_step_no_stop next st c : c <> "q"%char -> c <> "Q"%char -> (key_step next st c).2 = false.
Proof.
  intros Hq HQ. unfold key_step. destruct (Ascii.eqb c " "); [done|].
  destruct (Ascii.eqb_spec c "q"), (Ascii.eqb_spec c "Q"); done.
Qed.

Lemma main_setup_globals e st :
  main_setup e = Run st ->
  g_N (globals st) = Z.to_nat (size_t_of_int (mul32 (default kParticles_init (e_numbodies e)) 1024))
  /\ g_bNoCPU st = e_nocpu e
  /\ (e_nocpu e = true -> g_bUseSSEForCrossCheck (globals st) = true /\ g_bCrossCheck st = false).
Proof. unfold main_setup. repeat case_match; intros Hs; try discriminate; injection Hs as <-; done. Qed.

(** [size_t] of the [int] product [k*1024]: the product itself while it
    fits an [int], else the product minus 2^32 taken modulo 2^64. *)
Lemma size_t_of_mul32 k :
  (0 <= k)%Z ->
  (k * 1024 <= INT_MAX -> size_t_of_int (mul32 k 1024) = k * 1024)%Z
  /\ (2 ^ 31 <= k * 1024 < 2 ^ 32 -> size_t_of_int (mul32 k 1024) = 2 ^ 64 + k * 1024 - 2 ^ 32)%Z.
Proof.
  intros Hk. unfold size_t_of_int, mul32. split; intros Hb.
  - rewrite wrap32_id by (unfold_int32; lia). apply Z.mod_small. unfold_int32; lia.
  - unfold wrap32. rewrite <- (Z.mod_unique (k * 1024 + 2 ^ 31) (2 ^ 32) 1 (k * 1024 + 2 ^ 31 - 2 ^ 32))
      by lia.
    symmetry. apply (Z.mod_unique _ _ (-1)); lia.
Qed.

Section Loop.
Context (next : nbodyAlgorithm -> nbodyAlgorithm) (forces : list F -> list F).

(** A time step with a device present, for every algorithm. *)
Lemma time_step_wf st (s : Arrays F) :
  routines_contract (g_N (globals st)) (eps2 (globals st)) forces -> nb_wf (g_N (globals st)) s ->
  (4 * Z.of_nat (g_N (globals st)) <= 2 ^ 31)%Z -> g_bCUDAPresent (globals st) = true ->
  exists s' ms err,
    ComputeGravitation (globals st) (g_Algorithm st) (g_bCrossCheck st) true s = Some (s', ms, err)
    /\ nb_wf (g_N (globals st)) s'.
Proof.
  intros HC Hw HN Hc. destruct (decide (g_Algorithm st = GPU_Atomic)) as [E|E].
  - rewrite E. destruct (ComputeGravitation_GPU_Atomic_sound (globals st) forces HC (g_bCrossCheck st) s)
      as (s' & err & R & W & _); [done..|]. eauto.
  - destruct (ComputeGravitation_sound (globals st) forces HC (g_Algorithm st) (g_bCrossCheck st) s)
      as (s' & ms & err & R & W & _); [done | done | done | congruence |]. eauto.
Qed.

End Loop.

(** C14: [--nocpu] without a CUDA device: the test [g_bNoCPU &&
    !g_bCUDAPresent] of line 607 runs before [g_bNoCPU] is read from the
    command line (line 638), so [main] does not exit as its message says;
    it runs the CPU algorithm [CPU_SSE_threaded] with [g_bNoCPU] set,
    and its rotation goes up to [multiGPU_MultiCPUThread], through the
    GPU algorithms, on a machine without a device. *)
Theorem nocpu_without_device e :
  e_pool_ok e = true -> e_cudaOK e = false -> e_numGPUs e = 0%Z -> e_nocpu e = true ->
  exists st, main_setup e = Run st /\ g_bNoCPU st = true /\ g_bCUDAPresent (globals st) = false
    /\ g_Algorithm st = CPU_SSE_threaded /\ g_maxAlgorithm st = multiGPU_MultiCPUThread.
Proof.
  intros Hp Hc Hn Hnc. unfold main_setup. rewrite Hp, Hc, Hn, Hnc. cbn. by eexists.
Qed.

(** C25: under [--nocpu] the cross check is off but
    [g_bUseSSEForCrossCheck] keeps its initial [true], so after any key
    presses a space bar at [g_maxAlgorithm] selects the CPU routine
    [CPU_SSE_threaded], not [GPU_AOS] as the [g_bNoCPU ? GPU_AOS :
    CPU_AOS] of line 734 intends, whatever the order of the enum. *)
Theorem rotation_nocpu next e st st' :
  main_setup e = Run st -> e_nocpu e = true -> rtc (key_rel next) st st' ->
  g_Algorithm st' = g_maxAlgorithm st' ->
  g_Algorithm (key_step next st' " ").1 = CPU_SSE_threaded.
Proof.
  intros Hs Hn Hr Hm. destruct (main_setup_globals e st Hs) as (_ & _ & Hu).
  destruct (key_rel_keeps next st st' Hr) as [Hg _]. destruct (Hu Hn) as [Hsse _].
  unfold key_step. cbn. rewrite decide_True by done. rewrite Hg, Hsse. done.
Qed.

(** C26: [g_N = kParticles*1024] is computed in [int]: for
    [--numbodies k] it is [1024 k] while that fits an [int], and for
    [2^21 <= k < 2^22] the product overflows and [g_N] becomes
    [2^64 + 1024 k - 2^32], more than 2^63 bodies. *)
Theorem numbodies_overflow e st k :
  main_setup e = Run st -> e_numbodies e = Some k -> (0 <= k)%Z ->
  (k * 1024 <= INT_MAX -> Z.of_nat (g_N (globals st)) = k * 1024)%Z
  /\ (2 ^ 31 <= k * 1024 < 2 ^ 32 -> Z.of_nat (g_N (globals st)) = 2 ^ 64 + k * 1024 - 2 ^ 32)%Z.
Proof.
  intros Hs Hk Hk0. destruct (main_setup_globals e st Hs) as (HN & _). rewrite HN, Hk. cbn [default id].
  destruct (size_t_of_mul32 k Hk0) as [H1 H2].
  split; intros Hb; [rewrite H1 by done | rewrite H2 by done]; rewrite Z2Nat.id; lia.
Qed.

(** C12: with a CUDA device and every CUDA call succeeding, the loop of
    [main] never exits with "Error computing timestep", whatever the
    keys pressed and the algorithms visited (the compiled-out
    [GPU_Atomic] included): after any sequence of iterations the globals
    of [ComputeGravitation] are unchanged and the arrays keep their
    sizes. *)
Theorem main_loop_safe next forces evs st (s : Arrays F) :
  routines_contract (g_N (globals st)) (eps2 (globals st)) forces -> nb_wf (g_N (globals st)) s ->
  (4 * Z.of_nat (g_N (globals st)) <= 2 ^ 31)%Z -> g_bCUDAPresent (globals st) = true ->
  match main_loop next true evs st s with
  | LoopExit _ => False
  | LoopStop st' s' | LoopRunning st' s' => globals st' = globals st /\ nb_wf (g_N (globals st)) s'
  end.
Proof.
  revert st s. induction evs as [|ev evs IH]; intros st s HC Hw HN Hc; cbn [main_loop]; [done|].
  destruct (time_step_wf forces st s) as (s' & ms & err & -> & W); [done..|].
  destruct ev as [c|]; [|by apply IH].
  destruct (key_step next st c) as [st' b] eqn:K.
  destruct (key_step_keeps next st c) as (Hg & _). rewrite K in Hg. cbn in Hg.
  destruct b; [done|]. specialize (IH st' s'). rewrite Hg in IH. specialize (IH HC W HN Hc).
  destruct (main_loop next true evs st' s'); [done|..]; destruct IH; split; congruence.
Qed.

(** C24: liveness of the loop: with a device, the loop runs one time
    step per iteration and stops at the first [q] typed. *)
Theorem main_loop_quit next forces evs st (s : Arrays F) :
  routines_contract (g_N (globals st)) (eps2 (globals st)) forces -> nb_wf (g_N (globals st)) s ->
  (4 * Z.of_nat (g_N (globals st)) <= 2 ^ 31)%Z -> g_bCUDAPresent (globals st) = true ->
  Forall (fun ev => ev <> Some "q"%char /\ ev <> Some "Q"%char) evs ->
  exists st' s', main_loop next true (evs ++ [Some "q"%char]) st s = LoopStop st' s'.
Proof.
  revert st s. induction evs as [|ev evs IH]; intros st s HC Hw HN Hc Hq; cbn [main_loop app];
    destruct (time_step_wf forces st s) as (s' & ms & err & -> & W); try done.
  - by eexists _, _.
  - apply Forall_cons in Hq as [[Hq HQ] Hq']. destruct ev as [c|]; [|by apply IH].
    destruct (key_step next st c) as [st' b] eqn:K.
    pose proof (key_step_no_stop next st c) as Hb. rewrite K in Hb. cbn in Hb.
    rewrite Hb by congruence.
    destruct (key_step_keeps next st c) as (Hg & _). rewrite K in Hg. cbn in Hg.
    apply IH; rewrite ?Hg; done.
Qed.

End Main.

(** Witnesses, over [Z] with the routines of [NBody.zero_routines]. *)
Definition ex_env (cuda nocpu : bool) (k : Z) : Env :=
  {| e_pool_ok := true; e_cudaOK := cuda; e_numGPUs := if cuda then 1%Z else 0%Z; e_major := 3;
     e_props_ok := true; e_gpu_init_ok := true; e_alloc_ok := true;
     e_nocrosscheck := false; e_nocpu := nocpu; e_nosse := false; e_numbodies := Some k |}.

Definition ex_state : MainState (F := Z) :=
  {| globals := ex_globals; g_bSM30Present := true; g_bCrossCheck := true; g_bNoCPU := false;
     g_Algorithm := GPU_Shared; g_maxAlgorithm := GPU_AOS_tiled |}.

Definition ex_next (a : nbodyAlgorithm) : nbodyAlgorithm :=
  match a with GPU_AOS => GPU_AOS_tiled | GPU_Shared => GPU_Atomic | _ => CPU_AOS end.

Lemma nocpu_without_device_witness :
  exists st, main_setup (F := Z) 0%Z 1%Z 1%Z (ex_env false true 4) = Run st /\ g_bNoCPU st = true
    /\ g_bCUDAPresent (globals st) = false
    /\ g_Algorithm st = CPU_SSE_threaded /\ g_maxAlgorithm st = multiGPU_MultiCPUThread.
Proof. apply nocpu_without_device; reflexivity. Defined.

Lemma rotation_nocpu_witness :
  g_Algorithm (key_step ex_next
    (key_step ex_next (match main_setup (F := Z) 0%Z 1%Z 1%Z (ex_env true true 4) with
                       | Run st => st | Exit _ => ex_state end) " ").1 " ").1 = CPU_SSE_threaded.
Proof.
  apply (rotation_nocpu 0%Z 1%Z 1%Z ex_next (ex_env true true 4)
           (match main_setup (F := Z) 0%Z 1%Z 1%Z (ex_env true true 4) with Run st => st | Exit _ => ex_state end));
    [reflexivity | reflexivity | apply rtc_once; exists " "%char; reflexivity | reflexivity].
Defined.

Lemma numbodies_overflow_witness :
  (2 ^ 21 * 1024 <= INT_MAX ->
     Z.of_nat (g_N (globals (match main_setup (F := Z) 0%Z 1%Z 1%Z (ex_env true false (2 ^ 21)) with
                             | Run st => st | Exit _ => ex_state end))) = 2 ^ 21 * 1024)%Z
  /\ (2 ^ 31 <= 2 ^ 21 * 1024 < 2 ^ 32 ->
     Z.of_nat (g_N (globals (match main_setup (F := Z) 0%Z 1%Z 1%Z (ex_env true false (2 ^ 21)) with
                             | Run st => st | Exit _ => ex_state end))) = 2 ^ 64 + 2 ^ 21 * 1024 - 2 ^ 32)%Z.
Proof. apply (numbodies_overflow 0%Z 1%Z 1%Z (ex_env true false (2 ^ 21))); [reflexivity | reflexivity | lia]. Defined.

Lemma main_loop_safe_witness :
  match main_loop ex_next true [None; Some " "%char; Some "x"%char] ex_state ex_arrays with
  | LoopExit _ => False
  | LoopStop st' s' | LoopRunning st' s' => globals st' = globals ex_state /\ nb_wf 2 s'
  end.
Proof.
  apply (main_loop_safe ex_next zero_forces); [apply zero_routines_contract | apply ex_arrays_wf | cbn; lia | reflexivity].
Defined.

Lemma main_loop_quit_witness :
  exists st' s', main_loop ex_next true ([None; Some " "%char] ++ [Some "q"%char]) ex_state ex_arrays
                 = LoopStop st' s'.
Proof.
  apply (main_loop_quit ex_next zero_forces);
    [apply zero_routines_contract | apply ex_arrays_wf | cbn; lia | reflexivity |].
  repeat constructor; discriminate.
Defined.

End NBodyMain.
